(** * Blueprint Maker India: scene, history, grid and layer core

    A shallow embedding of the interaction core of the editor:
    - [js/components/CanvasDrawing.js]: pointer handlers, minimum-size
      validation, zoom controls and the snapshot history (undo / redo);
    - [js/components/Grid.js]: grid snapping;
    - [LayerManager.js]: layers, shape membership, export / import.

    A JavaScript number is kept as the rational it denotes ([Q]);
    integer valued quantities (indices, counters) as [Z].  The
    arithmetic of grid snapping and of the minimum-size validation is
    IEEE 754 binary64 arithmetic: every result is rounded to the
    nearest binary64 number ([Js.fl]), as is the division of a pointer
    position by the zoom factor.  The zoom factor itself and the canvas
    size are carried as exact rationals.  [NaN] and the infinities are
    outside the model.  Rendering, logging and event-bus notifications
    do not change the model state and are left out. *)

From Stdlib Require Import ZArith QArith Qround Qabs Qpower.
From Stdlib Require Import List String Ascii Bool Lia.
From Stdlib Require Import DecimalString.
From Stdlib Require DecimalPos DecimalZ Lqa.
Import ListNotations.

Local Open Scope Z_scope.
Local Open Scope Q_scope.

(** ** JavaScript numeric primitives *)

Module Js.

(** [a < b] on numbers. *)
Definition ltb (a b : Q) : bool := negb (Qle_bool b a).

(** [a !== b] on numbers. *)
Definition neqb (a b : Q) : bool := negb (Qeq_bool a b).

(** [Math.min(a, b)] and [Math.max(a, b)]. *)
Definition min (a b : Q) : Q := if Qle_bool a b then a else b.
Definition max (a b : Q) : Q := if Qle_bool a b then b else a.

(** [Math.round(x)]: nearest integer, ties towards +infinity. *)
Definition round (x : Q) : Z := Qfloor (x + (1 # 2)).

(** *** Binary64 arithmetic

    A finite binary64 number is [m * 2^e] with [|m| < 2^53] and
    [-1074 <= e]; an arithmetic operation returns the binary64 number
    nearest to the exact result, the one with the even mantissa when
    two are equally near. *)

(** [floor(log2 |q|)] for [q <> 0]: with [a] and [b] the bit lengths
    of numerator and denominator, it is [a - b] or [a - b - 1]. *)
Definition ilog2 (q : Q) : Z :=
  let k := (Z.log2 (Z.abs (Qnum q)) - Z.log2 (Zpos (Qden q)))%Z in
  if Qle_bool (2 ^ k) (Qabs q) then k else (k - 1)%Z.

(** The nearest integer, ties to the even one. *)
Definition rne (x : Q) : Z :=
  let f := Qfloor x in
  match Qcompare (x - inject_Z f) (1 # 2) with
  | Lt => f
  | Gt => (f + 1)%Z
  | Eq => if Z.even f then f else (f + 1)%Z
  end.

(** The binary64 number nearest to [q]: 53 bits of mantissa, the
    exponent of the last bit not below -1074 (subnormal numbers). *)
Definition fl (q : Q) : Q :=
  let q := Qred q in
  if Qeq_bool q 0 then 0
  else
    let e := Z.max (ilog2 q - 52) (-1074) in
    Qred (inject_Z (rne (q / 2 ^ e)) * 2 ^ e).

(** [a + b], [a - b], [a * b] and [a / b] on numbers. *)
Definition add (a b : Q) : Q := fl (a + b).
Definition sub (a b : Q) : Q := fl (a - b).
Definition mul (a b : Q) : Q := fl (a * b).
Definition div (a b : Q) : Q := fl (a / b).

(** [Math.pow(x, 2)]: the rounded square. *)
Definition pow2 (x : Q) : Q := fl (x * x).

(** [Math.sqrt(q)] for [q >= 0]: the binary64 number nearest to the
    square root.  With [e] such that [q / 4^e] lies in
    [[2^104, 2^106)], the mantissa is the integer square root [m] of
    that quotient, or [m + 1] when the quotient exceeds
    [(m + 1/2)^2]. *)
Definition sqrt (q : Q) : Q :=
  let q := Qred q in
  if Qle_bool q 0 then 0
  else
    let e := ((ilog2 q - 104) / 2)%Z in
    let t := q / 2 ^ (2 * e) in
    let m := Z.sqrt (Qfloor t) in
    let h := inject_Z m + (1 # 2) in
    let m' := match Qcompare t (h * h) with
              | Lt => m
              | Gt => (m + 1)%Z
              | Eq => if Z.even m then m else (m + 1)%Z
              end in
    Qred (inject_Z m' * 2 ^ e).

(** [Math.abs(x)]. *)
Definition abs (x : Q) : Q := Qabs x.

(** [arr[i]]: [None] stands for [undefined] (index out of range). *)
Definition index {A : Type} (l : list A) (i : Z) : option A :=
  if (i <? 0)%Z then None else nth_error l (Z.to_nat i).

(** [arr.slice(0, e)]: a negative [e] counts from the end. *)
Definition slice0 {A : Type} (l : list A) (e : Z) : list A :=
  if (e <? 0)%Z
  then firstn (Z.to_nat (Z.max (Z.of_nat (List.length l) + e) 0)) l
  else firstn (Z.to_nat e) l.

(** [arr.length]. *)
Definition len {A : Type} (l : list A) : Z := Z.of_nat (List.length l).

(** [arr.indexOf(x)]: [-1] when [x] does not occur. *)
Fixpoint indexOfFrom {A : Type} (eqb : A -> A -> bool) (x : A) (l : list A)
  (i : Z) : Z :=
  match l with
  | [] => (-1)%Z
  | y :: rest => if eqb x y then i else indexOfFrom eqb x rest (i + 1)%Z
  end.

Definition indexOf {A : Type} (eqb : A -> A -> bool) (x : A) (l : list A)
  : Z := indexOfFrom eqb x l 0%Z.

(** [i = arr.indexOf(x); if (i > -1) arr.splice(i, 1)]: the first
    occurrence of [x] is removed. *)
Fixpoint removeFirst {A : Type} (eqb : A -> A -> bool) (x : A) (l : list A)
  : list A :=
  match l with
  | [] => []
  | y :: rest => if eqb x y then rest else y :: removeFirst eqb x rest
  end.

(** [arr.splice(start, 0, x)]: a negative [start] counts from the end,
    a [start] beyond the end appends. *)
Definition spliceInsert {A : Type} (l : list A) (start : Z) (x : A)
  : list A :=
  let st := if (start <? 0)%Z then Z.max (len l + start) 0
            else Z.min start (len l) in
  firstn (Z.to_nat st) l ++ x :: skipn (Z.to_nat st) l.

(** [n++] on a counter: the number stored is [n + 1] rounded to
    binary64, which is [n + 1] itself below [2^53]. *)
Definition increment (n : Z) : Z := Qfloor (fl (inject_Z n + 1)).

(** A template literal's rendering of an integer. *)
Definition numberToString (n : Z) : string :=
  NilZero.string_of_int (Z.to_int n).

End Js.

(** ** CanvasDrawing.js *)

(** The [properties] object built by [getCurrentToolProperties]. *)
Inductive ToolProperties : Type :=
| TextProperties (text : string) (fontSize : Z) (fontFamily : string)
| FillProperties (filled : bool)
| NoProperties.

Module Drawing.

(** A committed or provisional drawing; the fields of the object
    literal built in [handleMouseDown]. *)
Record t : Type := mk {
  tool : string;
  startX : Q;
  startY : Q;
  endX : Q;
  endY : Q;
  color : string;
  width : Z;
  fill : string;
  properties : ToolProperties
}.

Definition set_end (d : t) (x y : Q) : t :=
  mk (tool d) (startX d) (startY d) x y (color d) (width d) (fill d)
     (properties d).

End Drawing.

(** What [handleMouseDown] reads from the page: the style inputs, the
    answer to [prompt('Enter text:')] ([None] when dismissed) and the
    [fillShape] checkbox. *)
Record DomInputs : Type := mkDom {
  strokeColor : string;
  strokeWidth : Z;
  fillColor : string;
  promptAnswer : option string;
  fillShapeChecked : bool
}.

(** The state of a [CanvasDrawing] instance together with the fields of
    the global [AppState] it reads and writes ([currentTool],
    [drawings], [zoom]) and the size of its canvas element. *)
Record Editor : Type := mkEditor {
  isDrawing : bool;
  startX : Q;
  startY : Q;
  currentPreview : option Drawing.t;
  gridSize : Q;
  snapToGrid : bool;
  history : list (list Drawing.t);
  historyIndex : Z;
  maxHistorySize : Z;
  currentTool : string;
  drawings : list Drawing.t;
  zoom : Q;
  canvasWidth : Q;
  canvasHeight : Q
}.

Definition set_isDrawing (s : Editor) (b : bool) : Editor :=
  mkEditor b (startX s) (startY s) (currentPreview s) (gridSize s)
    (snapToGrid s) (history s) (historyIndex s) (maxHistorySize s)
    (currentTool s) (drawings s) (zoom s) (canvasWidth s) (canvasHeight s).

Definition set_start (s : Editor) (x y : Q) : Editor :=
  mkEditor (isDrawing s) x y (currentPreview s) (gridSize s)
    (snapToGrid s) (history s) (historyIndex s) (maxHistorySize s)
    (currentTool s) (drawings s) (zoom s) (canvasWidth s) (canvasHeight s).

Definition set_currentPreview (s : Editor) (p : option Drawing.t) : Editor :=
  mkEditor (isDrawing s) (startX s) (startY s) p (gridSize s)
    (snapToGrid s) (history s) (historyIndex s) (maxHistorySize s)
    (currentTool s) (drawings s) (zoom s) (canvasWidth s) (canvasHeight s).

Definition set_history (s : Editor) (h : list (list Drawing.t)) : Editor :=
  mkEditor (isDrawing s) (startX s) (startY s) (currentPreview s) (gridSize s)
    (snapToGrid s) h (historyIndex s) (maxHistorySize s)
    (currentTool s) (drawings s) (zoom s) (canvasWidth s) (canvasHeight s).

Definition set_historyIndex (s : Editor) (i : Z) : Editor :=
  mkEditor (isDrawing s) (startX s) (startY s) (currentPreview s) (gridSize s)
    (snapToGrid s) (history s) i (maxHistorySize s)
    (currentTool s) (drawings s) (zoom s) (canvasWidth s) (canvasHeight s).

Definition set_currentTool (s : Editor) (t : string) : Editor :=
  mkEditor (isDrawing s) (startX s) (startY s) (currentPreview s) (gridSize s)
    (snapToGrid s) (history s) (historyIndex s) (maxHistorySize s)
    t (drawings s) (zoom s) (canvasWidth s) (canvasHeight s).

Definition set_drawings (s : Editor) (d : list Drawing.t) : Editor :=
  mkEditor (isDrawing s) (startX s) (startY s) (currentPreview s) (gridSize s)
    (snapToGrid s) (history s) (historyIndex s) (maxHistorySize s)
    (currentTool s) d (zoom s) (canvasWidth s) (canvasHeight s).

Definition set_zoom (s : Editor) (z : Q) : Editor :=
  mkEditor (isDrawing s) (startX s) (startY s) (currentPreview s) (gridSize s)
    (snapToGrid s) (history s) (historyIndex s) (maxHistorySize s)
    (currentTool s) (drawings s) z (canvasWidth s) (canvasHeight s).

Definition set_canvas (s : Editor) (w h : Q) : Editor :=
  mkEditor (isDrawing s) (startX s) (startY s) (currentPreview s) (gridSize s)
    (snapToGrid s) (history s) (historyIndex s) (maxHistorySize s)
    (currentTool s) (drawings s) (zoom s) w h.

(** The constructor followed by [init()], whose [resize()] gives the
    canvas the size [w] x [h] of its container. *)
Definition newCanvasDrawing (w h : Q) : Editor :=
  mkEditor false 0 0 None 20 true [] (-1)%Z 50%Z "select" [] 1 w h.

(** [JSON.parse(JSON.stringify(drawings))]: a drawing holds only
    strings, finite numbers and booleans, so the copy has the same
    content; the model rebuilds every record. *)
Definition copyProperties (p : ToolProperties) : ToolProperties :=
  match p with
  | TextProperties t fs ff => TextProperties t fs ff
  | FillProperties b => FillProperties b
  | NoProperties => NoProperties
  end.

Definition copyDrawing (d : Drawing.t) : Drawing.t :=
  Drawing.mk (Drawing.tool d) (Drawing.startX d) (Drawing.startY d)
    (Drawing.endX d) (Drawing.endY d) (Drawing.color d) (Drawing.width d)
    (Drawing.fill d) (copyProperties (Drawing.properties d)).

Definition deepCopy (ds : list Drawing.t) : list Drawing.t :=
  map copyDrawing ds.

(** [snapToGridCoord(coord)]. *)
Definition snapToGridCoord (s : Editor) (coord : Q) : Q :=
  Js.mul (inject_Z (Js.round (Js.div coord (gridSize s)))) (gridSize s).

(** The argument of [Math.sqrt] in [isValidDrawing]:
    [Math.pow(endX - startX, 2) + Math.pow(endY - startY, 2)]. *)
Definition sqDistance (d : Drawing.t) : Q :=
  Js.add (Js.pow2 (Js.sub (Drawing.endX d) (Drawing.startX d)))
         (Js.pow2 (Js.sub (Drawing.endY d) (Drawing.startY d))).

(** [isValidDrawing(drawing)]. *)
Definition isValidDrawing (d : Drawing.t) : bool :=
  if String.eqb (Drawing.tool d) "rectangle" then
    let width := Js.abs (Js.sub (Drawing.endX d) (Drawing.startX d)) in
    let height := Js.abs (Js.sub (Drawing.endY d) (Drawing.startY d)) in
    Js.ltb 5 width && Js.ltb 5 height
  else if String.eqb (Drawing.tool d) "circle" then
    let radius := Js.sqrt (sqDistance d) in
    Js.ltb 5 radius
  else if String.eqb (Drawing.tool d) "line" then
    let length := Js.sqrt (sqDistance d) in
    Js.ltb 5 length
  else if String.eqb (Drawing.tool d) "text" then true
  else false.

(** [getCurrentToolProperties()]. *)
Definition getCurrentToolProperties (s : Editor) (dom : DomInputs)
  : ToolProperties :=
  if String.eqb (currentTool s) "text" then
    let text := match promptAnswer dom with
                | Some a => if String.eqb a "" then "Text"%string else a
                | None => "Text"%string
                end in
    TextProperties text 16 "Inter"
  else if String.eqb (currentTool s) "rectangle"
          || String.eqb (currentTool s) "circle" then
    FillProperties (fillShapeChecked dom)
  else NoProperties.

(** [canUndo()] and [canRedo()]. *)
Definition canUndo (s : Editor) : bool := (0 <? historyIndex s)%Z.

Definition canRedo (s : Editor) : bool :=
  (historyIndex s <? Js.len (history s) - 1)%Z.

(** [saveState()], in its three phases. *)

(** Drop the redo branch when the cursor is not at the end. *)
Definition saveState_truncate (s : Editor) : Editor :=
  if (historyIndex s <? Js.len (history s) - 1)%Z
  then set_history s (Js.slice0 (history s) (historyIndex s + 1))
  else s.

(** Push a deep copy of [drawings] and advance the cursor. *)
Definition saveState_push (s : Editor) : Editor :=
  let s1 := saveState_truncate s in
  let state := deepCopy (drawings s1) in
  set_historyIndex (set_history s1 (history s1 ++ [state]))
    (historyIndex s1 + 1).

(** Evict the oldest snapshot when the capacity is exceeded. *)
Definition saveState_limit (s : Editor) : Editor :=
  if (maxHistorySize s <? Js.len (history s))%Z
  then set_historyIndex (set_history s (tl (history s))) (historyIndex s - 1)
  else s.

Definition saveState (s : Editor) : Editor :=
  saveState_limit (saveState_push s).

(** Pointer events carry the position relative to the canvas,
    [event.clientX - rect.left] and [event.clientY - rect.top]. *)

(** A coordinate as the handlers see it: divided by the zoom (a
    binary64 division), snapped when [snapToGrid] is set. *)
Definition pointerCoord (s : Editor) (p : Q) : Q :=
  let c := Js.div p (zoom s) in
  if snapToGrid s then snapToGridCoord s c else c.

(** [handleMouseDown(event)]. *)
Definition handleMouseDown (s : Editor) (px py : Q) (dom : DomInputs)
  : Editor :=
  let s1 := set_start s (pointerCoord s px) (pointerCoord s py) in
  if negb (String.eqb (currentTool s1) "select") then
    let s2 := saveState (set_isDrawing s1 true) in
    set_currentPreview s2
      (Some (Drawing.mk (currentTool s2) (startX s2) (startY s2)
               (startX s2) (startY s2)
               (strokeColor dom) (strokeWidth dom) (fillColor dom)
               (getCurrentToolProperties s2 dom)))
  else s1.

(** [handleMouseMove(event)]. *)
Definition handleMouseMove (s : Editor) (px py : Q) : Editor :=
  match isDrawing s, currentPreview s with
  | true, Some p =>
      set_currentPreview s
        (Some (Drawing.set_end p (pointerCoord s px) (pointerCoord s py)))
  | _, _ => s
  end.

(** [handleMouseUp(event)]. *)
Definition handleMouseUp (s : Editor) : Editor :=
  let s1 :=
    match isDrawing s, currentPreview s with
    | true, Some p =>
        let drawing := p in
        let s' := if isValidDrawing drawing
                  then set_drawings s (drawings s ++ [drawing])
                  else s in
        set_currentPreview s' None
    | _, _ => s
    end in
  set_isDrawing s1 false.

(** [handleMouseLeave(event)]. *)
Definition handleMouseLeave (s : Editor) : Editor :=
  if isDrawing s
  then set_isDrawing (set_currentPreview s None) false
  else s.

(** [handleWheel(event)], from [event.deltaY]. *)
Definition handleWheel (s : Editor) (deltaY : Q) : Editor :=
  let delta := if Js.ltb 0 deltaY then 9 # 10 else 11 # 10 in
  let newZoom := Js.max (1 # 10) (Js.min 5 (zoom s * delta)) in
  if Js.neqb newZoom (zoom s) then set_zoom s newZoom else s.

(** [clear()]. *)
Definition clear (s : Editor) : Editor :=
  saveState (set_drawings s []).

(** [zoomIn()], [zoomOut()], [resetZoom()]. *)
Definition zoomIn (s : Editor) : Editor :=
  let newZoom := Js.min 5 (zoom s * (12 # 10)) in
  if Js.neqb newZoom (zoom s) then set_zoom s newZoom else s.

Definition zoomOut (s : Editor) : Editor :=
  let newZoom := Js.max (1 # 10) (zoom s / (12 # 10)) in
  if Js.neqb newZoom (zoom s) then set_zoom s newZoom else s.

Definition resetZoom (s : Editor) : Editor :=
  if Js.neqb (zoom s) 1 then set_zoom s 1 else s.

(** The running minimum / maximum of [fitToScreen]; [None] is the
    initial [Infinity] (respectively [-Infinity]). *)
Definition accMin (acc : option Q) (a b : Q) : option Q :=
  match acc with
  | None => Some (Js.min a b)
  | Some m => Some (Js.min (Js.min m a) b)
  end.

Definition accMax (acc : option Q) (a b : Q) : option Q :=
  match acc with
  | None => Some (Js.max a b)
  | Some m => Some (Js.max (Js.max m a) b)
  end.

Record Bounds : Type := mkBounds {
  minX : option Q; minY : option Q; maxX : option Q; maxY : option Q
}.

Definition boundsStep (b : Bounds) (d : Drawing.t) : Bounds :=
  mkBounds (accMin (minX b) (Drawing.startX d) (Drawing.endX d))
           (accMin (minY b) (Drawing.startY d) (Drawing.endY d))
           (accMax (maxX b) (Drawing.startX d) (Drawing.endX d))
           (accMax (maxY b) (Drawing.startY d) (Drawing.endY d)).

Definition boundingBox (ds : list Drawing.t) : Bounds :=
  fold_left boundsStep ds (mkBounds None None None None).

(** [fitToScreen()]. *)
Definition fitToScreen (s : Editor) : Editor :=
  match drawings s with
  | [] => s
  | _ =>
      match boundingBox (drawings s) with
      | mkBounds (Some x0) (Some y0) (Some x1) (Some y1) =>
          let drawingWidth := x1 - x0 in
          let drawingHeight := y1 - y0 in
          if Js.ltb 0 drawingWidth && Js.ltb 0 drawingHeight then
            let scaleX := (canvasWidth s * (8 # 10)) / drawingWidth in
            let scaleY := (canvasHeight s * (8 # 10)) / drawingHeight in
            set_zoom s (Js.min (Js.min scaleX scaleY) 5)
          else s
      | _ => s
      end
  end.

(** [undo()] and [redo()].  [None] stands for the [SyntaxError] that
    [JSON.parse(JSON.stringify(undefined))] raises when the cursor
    leaves the history; [undo_redo_total] shows that no reachable
    state gets there. *)
Definition undo (s : Editor) : option Editor :=
  if canUndo s then
    let s1 := set_historyIndex s (historyIndex s - 1) in
    match Js.index (history s1) (historyIndex s1) with
    | Some snapshot => Some (set_drawings s1 (deepCopy snapshot))
    | None => None
    end
  else Some s.

Definition redo (s : Editor) : option Editor :=
  if canRedo s then
    let s1 := set_historyIndex s (historyIndex s + 1) in
    match Js.index (history s1) (historyIndex s1) with
    | Some snapshot => Some (set_drawings s1 (deepCopy snapshot))
    | None => None
    end
  else Some s.

(** [destroy()] resets the history. *)
Definition destroy (s : Editor) : Editor :=
  set_historyIndex (set_history s []) (-1).

(** [App.setTool(tool)] writes [AppState.currentTool]. *)
Definition setTool (s : Editor) (t : string) : Editor := set_currentTool s t.

(** [resize()] copies the container's size to the canvas. *)
Definition resize (s : Editor) (w h : Q) : Editor := set_canvas s w h.

(** *** Sessions: the calls an editor receives *)

Inductive Action : Type :=
| MouseDown (px py : Q) (dom : DomInputs)
| MouseMove (px py : Q)
| MouseUp
| MouseLeave
| Wheel (deltaY : Q)
| SetTool (t : string)
| Clear
| ZoomIn
| ZoomOut
| ResetZoom
| FitToScreen
| Undo
| Redo
| Resize (w h : Q)
| Destroy.

Definition perform (a : Action) (s : Editor) : option Editor :=
  match a with
  | MouseDown px py dom => Some (handleMouseDown s px py dom)
  | MouseMove px py => Some (handleMouseMove s px py)
  | MouseUp => Some (handleMouseUp s)
  | MouseLeave => Some (handleMouseLeave s)
  | Wheel dy => Some (handleWheel s dy)
  | SetTool t => Some (setTool s t)
  | Clear => Some (clear s)
  | ZoomIn => Some (zoomIn s)
  | ZoomOut => Some (zoomOut s)
  | ResetZoom => Some (resetZoom s)
  | FitToScreen => Some (fitToScreen s)
  | Undo => undo s
  | Redo => redo s
  | Resize w h => Some (resize s w h)
  | Destroy => Some (destroy s)
  end.

Fixpoint run (acts : list Action) (s : Editor) : option Editor :=
  match acts with
  | [] => Some s
  | a :: rest =>
      match perform a s with
      | Some s' => run rest s'
      | None => None
      end
  end.

(** An editor state is reachable when some session leads to it from a
    freshly constructed editor. *)
Definition reachable (s : Editor) : Prop :=
  exists w h acts, run acts (newCanvasDrawing w h) = Some s.

(** One stroke: pointer-down at [(x0, y0)], a move to [(x1, y1)] and
    pointer-up. *)
Definition stroke (x0 y0 x1 y1 : Q) (dom : DomInputs) : list Action :=
  [MouseDown x0 y0 dom; MouseMove x1 y1; MouseUp].

Definition defaultDom : DomInputs :=
  mkDom "#2563eb" 2 "transparent" None false.

(** ** Grid.js *)

Module Grid.

Record t : Type := mk {
  size : Q;
  visible : bool;
  snapEnabled : bool;
  majorGridSize : Q;
  offsetX : Q;
  offsetY : Q
}.

(** [snapToGrid(x, y)]; the result object [{ x, y }] is a pair. *)
Definition snapToGrid (g : t) (x y : Q) : Q * Q :=
  if negb (snapEnabled g) then (x, y)
  else
    let adjustedX := Js.sub x (offsetX g) in
    let adjustedY := Js.sub y (offsetY g) in
    let snappedX :=
      Js.add (Js.mul (inject_Z (Js.round (Js.div adjustedX (size g))))
                     (size g))
             (offsetX g) in
    let snappedY :=
      Js.add (Js.mul (inject_Z (Js.round (Js.div adjustedY (size g))))
                     (size g))
             (offsetY g) in
    (snappedX, snappedY).

End Grid.

(** ** LayerManager.js *)

(** A shape is a JavaScript object; the model keeps its identity (a
    reference) and, in a store, the one field the layer code writes:
    [shape.layer]. *)
Definition Shape : Type := nat.

Inductive LayerRef : Type :=
| RefInitial            (* what the shape was created with *)
| RefNull               (* [null] *)
| RefLayer (id : string).

Definition ShapeStore : Type := Shape -> LayerRef.

Definition setShapeLayer (h : ShapeStore) (shape : Shape) (r : LayerRef)
  : ShapeStore :=
  fun x => if Nat.eqb x shape then r else h x.

(** [arr.includes(shape)]: identity of references. *)
Definition includes (shape : Shape) (l : list Shape) : bool :=
  existsb (Nat.eqb shape) l.

(** The [options] argument of the [Layer] constructor; [None] is an
    absent ([undefined]) property. *)
Record LayerOptions : Type := mkOptions {
  opt_visible : option bool;
  opt_locked : option bool;
  opt_opacity : option Q;
  opt_color : option string;
  opt_index : option Z
}.

Definition noOptions : LayerOptions := mkOptions None None None None None.

Module Layer.

Record t : Type := mk {
  id : string;
  name : string;
  visible : bool;
  locked : bool;
  opacity : Q;
  color : string;
  shapes : list Shape;
  index : Z
}.

Definition set_shapes (l : t) (s : list Shape) : t :=
  mk (id l) (name l) (visible l) (locked l) (opacity l) (color l) s (index l).

Definition set_index (l : t) (i : Z) : t :=
  mk (id l) (name l) (visible l) (locked l) (opacity l) (color l)
     (shapes l) i.

Definition set_name (l : t) (n : string) : t :=
  mk (id l) n (visible l) (locked l) (opacity l) (color l) (shapes l)
     (index l).

Definition set_visible (l : t) (b : bool) : t :=
  mk (id l) (name l) b (locked l) (opacity l) (color l) (shapes l) (index l).

Definition set_locked (l : t) (b : bool) : t :=
  mk (id l) (name l) (visible l) b (opacity l) (color l) (shapes l) (index l).

Definition set_opacity (l : t) (o : Q) : t :=
  mk (id l) (name l) (visible l) (locked l) o (color l) (shapes l) (index l).

Definition set_color (l : t) (c : string) : t :=
  mk (id l) (name l) (visible l) (locked l) (opacity l) c (shapes l)
     (index l).

(** [constructor(id, name, options = {})]:
    [visible = options.visible !== false],
    [locked = options.locked || false],
    [opacity = options.opacity || 1.0],
    [color = options.color || '#000000'],
    [index = options.index || 0]. *)
Definition new (id : string) (name : string) (o : LayerOptions) : t :=
  mk id name
    (match opt_visible o with Some false => false | _ => true end)
    (match opt_locked o with Some b => b | None => false end)
    (match opt_opacity o with
     | Some q => if Qeq_bool q 0 then 1 else q
     | None => 1
     end)
    (match opt_color o with
     | Some c => if String.eqb c "" then "#000000"%string else c
     | None => "#000000"%string
     end)
    []
    (match opt_index o with Some i => i | None => 0%Z end).

(** [addShape(shape)]. *)
Definition addShape (l : t) (shape : Shape) (h : ShapeStore)
  : t * ShapeStore :=
  if negb (includes shape (shapes l))
  then (set_shapes l (shapes l ++ [shape]),
        setShapeLayer h shape (RefLayer (id l)))
  else (l, h).

(** [removeShape(shape)]. *)
Definition removeShape (l : t) (shape : Shape) (h : ShapeStore)
  : t * ShapeStore :=
  if includes shape (shapes l)
  then (set_shapes l (Js.removeFirst Nat.eqb shape (shapes l)),
        setShapeLayer h shape RefNull)
  else (l, h).

(** [clear()]. *)
Definition clear (l : t) (h : ShapeStore) : t * ShapeStore :=
  (set_shapes l [],
   fold_left (fun h' shape => setShapeLayer h' shape RefNull) (shapes l) h).

End Layer.

(** The object [Layer.toJSON()] returns. *)
Record LayerData : Type := mkLayerData {
  ld_id : string;
  ld_name : string;
  ld_visible : bool;
  ld_locked : bool;
  ld_opacity : Q;
  ld_color : string;
  ld_index : Z
}.

Definition toJSON (l : Layer.t) : LayerData :=
  mkLayerData (Layer.id l) (Layer.name l) (Layer.visible l) (Layer.locked l)
    (Layer.opacity l) (Layer.color l) (Layer.index l).

(** The document [exportLayers()] produces and [importLayers(data)]
    reads; [None] is a property that is absent (or [null]). *)
Record LayersData : Type := mkLayersData {
  data_layers : option (list LayerData);
  data_layerOrder : option (list string);
  data_activeLayerId : option string;
  data_nextLayerId : option Z
}.

(** The [Map] from layer id to [Layer], in insertion order.  Every
    [layers.set(k, v)] of the source has [k = v.id], so the map is kept
    as the list of its values, keyed by [Layer.id]. *)
Module LayerMap.

Definition t : Type := list Layer.t.

Definition get (k : string) (m : t) : option Layer.t :=
  find (fun l => String.eqb k (Layer.id l)) m.

Definition has (k : string) (m : t) : bool :=
  match get k m with Some _ => true | None => false end.

(** [set]: an existing key keeps its position, a new key goes last. *)
Fixpoint set (v : Layer.t) (m : t) : t :=
  match m with
  | [] => [v]
  | l :: rest =>
      if String.eqb (Layer.id v) (Layer.id l) then v :: rest
      else l :: set v rest
  end.

Fixpoint delete (k : string) (m : t) : t :=
  match m with
  | [] => []
  | l :: rest =>
      if String.eqb k (Layer.id l) then rest else l :: delete k rest
  end.

Definition size (m : t) : Z := Js.len m.

Definition keys (m : t) : list string := map Layer.id m.

End LayerMap.

(** A [LayerManager] instance, together with the store of the
    [shape.layer] fields its methods write. *)
Record LayerManager : Type := mkLayerManager {
  layers : LayerMap.t;
  activeLayerId : option string;
  layerOrder : list string;
  nextLayerId : Z;
  shapeLayer : ShapeStore
}.

Definition set_layers (m : LayerManager) (ls : LayerMap.t) : LayerManager :=
  mkLayerManager ls (activeLayerId m) (layerOrder m) (nextLayerId m)
    (shapeLayer m).

Definition set_activeLayerId (m : LayerManager) (a : option string)
  : LayerManager :=
  mkLayerManager (layers m) a (layerOrder m) (nextLayerId m) (shapeLayer m).

Definition set_layerOrder (m : LayerManager) (o : list string)
  : LayerManager :=
  mkLayerManager (layers m) (activeLayerId m) o (nextLayerId m) (shapeLayer m).

Definition set_nextLayerId (m : LayerManager) (n : Z) : LayerManager :=
  mkLayerManager (layers m) (activeLayerId m) (layerOrder m) n (shapeLayer m).

Definition set_shapeLayer (m : LayerManager) (h : ShapeStore) : LayerManager :=
  mkLayerManager (layers m) (activeLayerId m) (layerOrder m) (nextLayerId m) h.

(** What a method call comes to: a returned boolean and the state it
    leaves, or a [TypeError] (a method called on [undefined]) and the
    state at that point. *)
Inductive Outcome : Type :=
| Returned (b : bool) (m : LayerManager)
| ThrownTypeError (m : LayerManager).

Definition stateOf (o : Outcome) : LayerManager :=
  match o with Returned _ m => m | ThrownTypeError m => m end.

(** [createDefaultLayer()]. *)
Definition createDefaultLayer (m : LayerManager) : LayerManager :=
  let defaultLayer :=
    Layer.new "layer_0" "Default Layer"
      (mkOptions None None None None (Some 0%Z)) in
  mkLayerManager (LayerMap.set defaultLayer (layers m))
    (Some (Layer.id defaultLayer))
    (layerOrder m ++ [Layer.id defaultLayer])
    (nextLayerId m) (shapeLayer m).

(** [new LayerManager()], in a world whose shapes carry the [layer]
    fields [h]. *)
Definition newLayerManager (h : ShapeStore) : LayerManager :=
  createDefaultLayer (mkLayerManager [] None [] 1 h).

(** [updateLayerIndices()]. *)
Fixpoint updateIndicesFrom (order : list string) (i : Z) (ls : LayerMap.t)
  : LayerMap.t :=
  match order with
  | [] => ls
  | layerId :: rest =>
      let ls' := match LayerMap.get layerId ls with
                 | Some layer => LayerMap.set (Layer.set_index layer i) ls
                 | None => ls
                 end in
      updateIndicesFrom rest (i + 1)%Z ls'
  end.

Definition updateLayerIndices (m : LayerManager) : LayerManager :=
  set_layers m (updateIndicesFrom (layerOrder m) 0 (layers m)).

(** [createLayer(name, options = {})]; returns the new layer, which is
    the object the map holds: [updateLayerIndices] has renumbered it. *)
Definition createLayer (m : LayerManager) (name : string) (o : LayerOptions)
  : Layer.t * LayerManager :=
  let id := ("layer_" ++ Js.numberToString (nextLayerId m))%string in
  let m1 := set_nextLayerId m (Js.increment (nextLayerId m)) in
  let index := match opt_index o with
               | Some i => i
               | None => Js.len (layerOrder m1)
               end in
  let layer :=
    Layer.new id name
      (mkOptions (opt_visible o) (opt_locked o) (opt_opacity o)
                 (opt_color o) (Some index)) in
  let m2 := set_layers m1 (LayerMap.set layer (layers m1)) in
  let m3 :=
    if (Js.len (layerOrder m2) <=? index)%Z
    then set_layerOrder m2 (layerOrder m2 ++ [id])
    else set_layerOrder m2 (Js.spliceInsert (layerOrder m2) index id) in
  let m4 := updateLayerIndices m3 in
  (match LayerMap.get id (layers m4) with
   | Some renumbered => renumbered
   | None => layer
   end, m4).

(** [getDefaultLayer()]. *)
Definition getDefaultLayer (m : LayerManager) : option Layer.t :=
  LayerMap.get "layer_0" (layers m).

(** [shapes.forEach(shape => target.addShape(shape))]. *)
Definition addShapes (target : Layer.t) (shs : list Shape) (h : ShapeStore)
  : Layer.t * ShapeStore :=
  fold_left (fun acc shape => Layer.addShape (fst acc) shape (snd acc))
    shs (target, h).

(** The first half of [deleteLayer]: the shapes of [layer] go to the
    default layer, or to the first other layer of the map when [layer]
    is the default one.  [None]: [defaultLayer] is [undefined] and its
    [addShape] is called. *)
Definition rehomeShapes (m : LayerManager) (layer : Layer.t)
  : option (LayerMap.t * ShapeStore) :=
  match getDefaultLayer m with
  | Some defaultLayer =>
      if negb (String.eqb (Layer.id layer) (Layer.id defaultLayer)) then
        let r := addShapes defaultLayer (Layer.shapes layer) (shapeLayer m) in
        Some (LayerMap.set (fst r) (layers m), snd r)
      else
        match find (fun l => negb (String.eqb (Layer.id l) (Layer.id layer)))
                (layers m) with
        | Some otherLayer =>
            let r := addShapes otherLayer (Layer.shapes layer)
                       (shapeLayer m) in
            Some (LayerMap.set (fst r) (layers m), snd r)
        | None => Some (layers m, shapeLayer m)
        end
  | None =>
      match Layer.shapes layer with
      | [] => Some (layers m, shapeLayer m)
      | _ :: _ => None
      end
  end.

(** [deleteLayer(layerId)]. *)
Definition deleteLayer (m : LayerManager) (layerId : string) : Outcome :=
  match LayerMap.get layerId (layers m) with
  | None => Returned false m
  | Some layer =>
      if (LayerMap.size (layers m) <=? 1)%Z then Returned false m
      else
        match rehomeShapes m layer with
        | None => ThrownTypeError m
        | Some (ls, h) =>
            let order := Js.removeFirst String.eqb layerId (layerOrder m) in
            let ls' := LayerMap.delete layerId ls in
            let active :=
              match activeLayerId m with
              | Some a =>
                  if String.eqb a layerId then
                    match order with
                    | first :: _ =>
                        if String.eqb first "" then None else Some first
                    | [] => None
                    end
                  else Some a
              | None => None
              end in
            Returned true
              (updateLayerIndices
                 (mkLayerManager ls' active order (nextLayerId m) h))
        end
  end.

(** [setActiveLayer(layerId)]. *)
Definition setActiveLayer (m : LayerManager) (layerId : string)
  : bool * LayerManager :=
  if LayerMap.has layerId (layers m)
  then (true, set_activeLayerId m (Some layerId))
  else (false, m).

(** [moveLayer(layerId, newIndex)]. *)
Definition moveLayer (m : LayerManager) (layerId : string) (newIndex : Z)
  : bool * LayerManager :=
  let currentIndex := Js.indexOf String.eqb layerId (layerOrder m) in
  if (currentIndex =? -1)%Z then (false, m)
  else
    let order := Js.removeFirst String.eqb layerId (layerOrder m) in
    let insertIndex := Z.max 0 (Z.min newIndex (Js.len order)) in
    (true,
     updateLayerIndices
       (set_layerOrder m (Js.spliceInsert order insertIndex layerId))).

(** A method that mutates the layer stored under [layerId], if any. *)
Definition withLayer (m : LayerManager) (layerId : string)
  (f : Layer.t -> Layer.t) : bool * LayerManager :=
  match LayerMap.get layerId (layers m) with
  | Some layer => (true, set_layers m (LayerMap.set (f layer) (layers m)))
  | None => (false, m)
  end.

(** [toggleLayerVisibility(layerId)] and [toggleLayerLock(layerId)]
    return the new flag, or [null] ([None]) for an unknown layer. *)
Definition toggleLayerVisibility (m : LayerManager) (layerId : string)
  : option bool * LayerManager :=
  match LayerMap.get layerId (layers m) with
  | Some layer =>
      let layer' := Layer.set_visible layer (negb (Layer.visible layer)) in
      (Some (Layer.visible layer'),
       set_layers m (LayerMap.set layer' (layers m)))
  | None => (None, m)
  end.

Definition toggleLayerLock (m : LayerManager) (layerId : string)
  : option bool * LayerManager :=
  match LayerMap.get layerId (layers m) with
  | Some layer =>
      let layer' := Layer.set_locked layer (negb (Layer.locked layer)) in
      (Some (Layer.locked layer'),
       set_layers m (LayerMap.set layer' (layers m)))
  | None => (None, m)
  end.

(** [setLayerOpacity], [setLayerColor], [renameLayer]. *)

Definition setLayerOpacity (m : LayerManager) (layerId : string) (o : Q) :=
  withLayer m layerId
    (fun l => Layer.set_opacity l (Js.max 0 (Js.min 1 o))).

Definition setLayerColor (m : LayerManager) (layerId : string) (c : string) :=
  withLayer m layerId (fun l => Layer.set_color l c).

Definition renameLayer (m : LayerManager) (layerId : string) (n : string) :=
  withLayer m layerId (fun l => Layer.set_name l n).

(** [layers.forEach(layer => layer.removeShape(shape))], threading the
    store through the layers. *)
Fixpoint removeFromEach (shape : Shape) (ls : LayerMap.t) (h : ShapeStore)
  : LayerMap.t * ShapeStore :=
  match ls with
  | [] => ([], h)
  | l :: rest =>
      let r := Layer.removeShape l shape h in
      let r' := removeFromEach shape rest (snd r) in
      (fst r :: fst r', snd r')
  end.

(** [removeShapeFromAllLayers(shape)]. *)
Definition removeShapeFromAllLayers (m : LayerManager) (shape : Shape)
  : LayerManager :=
  let r := removeFromEach shape (layers m) (shapeLayer m) in
  set_shapeLayer (set_layers m (fst r)) (snd r).

(** [addShapeToLayer(shape, layerId = null)]; a [layerId] that is
    [null] or the empty string falls back to the active layer. *)
Definition targetLayer (m : LayerManager) (layerId : option string)
  : option Layer.t :=
  let targetLayerId :=
    match layerId with
    | Some k => if String.eqb k "" then activeLayerId m else Some k
    | None => activeLayerId m
    end in
  match targetLayerId with
  | Some k => LayerMap.get k (layers m)
  | None => None
  end.

Definition addShapeToLayer (m : LayerManager) (shape : Shape)
  (layerId : option string) : bool * LayerManager :=
  match targetLayer m layerId with
  | Some l =>
      if negb (Layer.locked l) then
        let m1 := removeShapeFromAllLayers m shape in
        (* [layer] is the object held by the map, after the removal *)
        match LayerMap.get (Layer.id l) (layers m1) with
        | Some l1 =>
            let r := Layer.addShape l1 shape (shapeLayer m1) in
            (true, set_shapeLayer
                     (set_layers m1 (LayerMap.set (fst r) (layers m1)))
                     (snd r))
        | None => (true, m1)
        end
      else (false, m)
  | None => (false, m)
  end.

(** [moveShapeToLayer(shape, targetLayerId)]. *)
Definition moveShapeToLayer (m : LayerManager) (shape : Shape)
  (targetLayerId : option string) : bool * LayerManager :=
  addShapeToLayer (removeShapeFromAllLayers m shape) shape targetLayerId.

(** [getShapeLayer(shape)]. *)
Definition getShapeLayer (m : LayerManager) (shape : Shape)
  : option Layer.t :=
  find (fun l => includes shape (Layer.shapes l)) (layers m).

(** [exportLayers()]. *)
Definition exportLayers (m : LayerManager) : LayersData :=
  mkLayersData (Some (map toJSON (layers m)))
    (Some (layerOrder m)) (activeLayerId m) (Some (nextLayerId m)).

(** The layer [importLayers] builds from one exported record. *)
Definition layerOfData (d : LayerData) : Layer.t :=
  Layer.new (ld_id d) (ld_name d)
    (mkOptions (Some (ld_visible d)) (Some (ld_locked d))
       (Some (ld_opacity d)) (Some (ld_color d)) (Some (ld_index d))).

(** [importLayers(data)]. *)
Definition importLayers (m : LayerManager) (data : LayersData)
  : LayerManager :=
  let ls :=
    match data_layers data with
    | Some lds =>
        fold_left (fun acc d => LayerMap.set (layerOfData d) acc) lds []
    | None => []
    end in
  let order := match data_layerOrder data with
               | Some o => o
               | None => []
               end in
  let active :=
    match data_activeLayerId data with
    | Some a =>
        if negb (String.eqb a "") && LayerMap.has a ls then Some a
        else match order with
             | first :: _ => Some first
             | [] => activeLayerId m
             end
    | None => match order with
              | first :: _ => Some first
              | [] => activeLayerId m
              end
    end in
  let next := match data_nextLayerId data with
              | Some n => if (n =? 0)%Z then nextLayerId m else n
              | None => nextLayerId m
              end in
  let m1 := mkLayerManager ls active order next (shapeLayer m) in
  if (LayerMap.size ls =? 0)%Z then createDefaultLayer m1 else m1.

(** [layers.forEach(layer => layer.clear())]. *)
Fixpoint clearEach (ls : LayerMap.t) (h : ShapeStore)
  : LayerMap.t * ShapeStore :=
  match ls with
  | [] => ([], h)
  | l :: rest =>
      let r := Layer.clear l h in
      let r' := clearEach rest (snd r) in
      (fst r :: fst r', snd r')
  end.

(** [clear()]. *)
Definition clearLayers (m : LayerManager) : LayerManager :=
  let r := clearEach (layers m) (shapeLayer m) in
  createDefaultLayer (mkLayerManager [] None [] 1 (snd r)).

(** *** Sessions: the calls a layer manager receives *)

Inductive Call : Type :=
| CreateLayer (name : string) (o : LayerOptions)
| DeleteLayer (layerId : string)
| SetActiveLayer (layerId : string)
| MoveLayer (layerId : string) (newIndex : Z)
| ToggleLayerVisibility (layerId : string)
| ToggleLayerLock (layerId : string)
| SetLayerOpacity (layerId : string) (o : Q)
| SetLayerColor (layerId : string) (c : string)
| RenameLayer (layerId : string) (n : string)
| AddShapeToLayer (shape : Shape) (layerId : option string)
| MoveShapeToLayer (shape : Shape) (targetLayerId : option string)
| ImportLayers (data : LayersData)
| ClearLayers.

(** The state a call leaves behind (also when it throws). *)
Definition exec (m : LayerManager) (c : Call) : LayerManager :=
  match c with
  | CreateLayer n o => snd (createLayer m n o)
  | DeleteLayer k => stateOf (deleteLayer m k)
  | SetActiveLayer k => snd (setActiveLayer m k)
  | MoveLayer k i => snd (moveLayer m k i)
  | ToggleLayerVisibility k => snd (toggleLayerVisibility m k)
  | ToggleLayerLock k => snd (toggleLayerLock m k)
  | SetLayerOpacity k o => snd (setLayerOpacity m k o)
  | SetLayerColor k c => snd (setLayerColor m k c)
  | RenameLayer k n => snd (renameLayer m k n)
  | AddShapeToLayer s k => snd (addShapeToLayer m s k)
  | MoveShapeToLayer s k => snd (moveShapeToLayer m s k)
  | ImportLayers d => importLayers m d
  | ClearLayers => clearLayers m
  end.

Definition execAll (calls : list Call) (m : LayerManager) : LayerManager :=
  fold_left exec calls m.

Definition reachableManager (m : LayerManager) : Prop :=
  exists h calls, execAll calls (newLayerManager h) = m.

(** The layers that hold [shape] in their shape list. *)
Definition ownersOf (m : LayerManager) (shape : Shape) : list Layer.t :=
  filter (fun l => includes shape (Layer.shapes l)) (layers m).

(** ** Predicates and scenarios used in the statements *)

(** *** Editor *)

(** The class invariant of the history fields: capacity 50, at most
    that many snapshots, and a cursor between [-1] (empty history) and
    the last snapshot. *)
Definition HistInv (s : Editor) : Prop :=
  maxHistorySize s = 50%Z /\
  (Js.len (history s) <= 50)%Z /\
  (-1 <= historyIndex s <= Js.len (history s) - 1)%Z.

(** Two states with the same history fields. *)
Definition sameHistory (a b : Editor) : Prop :=
  history a = history b /\ historyIndex a = historyIndex b /\
  maxHistorySize a = maxHistorySize b.

(** The bounds of the zoom factor. *)
Definition zoomInRange (z : Q) : Prop := 1 # 10 <= z /\ z <= 5.

(** A rectangle dragged up and to the left, from (60, 60) to the
    pointer position (30, 10), which snaps to (40, 20). *)
Definition rectangleDragBack : Editor :=
  handleMouseMove
    (handleMouseDown (setTool (newCanvasDrawing 800 600) "rectangle")
       60 60 defaultDom)
    30 10.

Definition rectangleDragBackPreview : Drawing.t :=
  Drawing.mk "rectangle" 60 60 40 20 "#2563eb" 2 "transparent"
    (FillProperties false).

(** An editor whose [snapToGrid] flag is off, with the line tool. *)
Definition freehand : Editor :=
  mkEditor false 0 0 None 20 false [] (-1)%Z 50%Z "line" [] 1 800 600.

(** A line being dragged from (0, 0) to (2^-24, 5), and its provisional
    drawing. *)
Definition steepLineDrag : Editor :=
  handleMouseMove (handleMouseDown freehand 0 0 defaultDom)
    (1 # 16777216) 5.

Definition steepLine : Drawing.t :=
  Drawing.mk "line" 0 0 (1 # 16777216) 5 "#2563eb" 2 "transparent"
    NoProperties.

(** A grid of size 20 panned by (7, -3), snapping enabled. *)
Definition pannedGrid : Grid.t := Grid.mk 20 true true 100 (7 # 1) (-3 # 1).

(** A grid of size 3 whose origin was panned to x = 2^53. *)
Definition farGrid : Grid.t :=
  Grid.mk 3 true true 15 (inject_Z (2 ^ 53)) 0.

(** A history filled to its capacity: fifty [clear()] calls. *)
Definition fullHistory : Editor :=
  Nat.iter 50 clear (newCanvasDrawing 800 600).

(** A session that zooms out to the minimum (thirteen steps of 1.2)
    and then draws a line across nine tenths of a 1000 x 1000 canvas:
    in scene coordinates the line runs from (0, 0) to (9000, 9000). *)
Definition wideLineSession : list Action :=
  repeat ZoomOut 13 ++ SetTool "line" :: stroke 0 0 900 900 defaultDom.

(** The two lines the stroke scenarios commit. *)
Definition lineA : Drawing.t :=
  Drawing.mk "line" 0 0 100 0 "#2563eb" 2 "transparent" NoProperties.

Definition lineB : Drawing.t :=
  Drawing.mk "line" 0 20 100 20 "#2563eb" 2 "transparent" NoProperties.

(** The scenario of the specification on a fresh editor with grid size
    20 and snapping on: one stroke from (0, 0) to (100, 0); and the
    same followed by a second stroke from (0, 20) to (100, 20). *)
Definition oneStroke : list Action :=
  SetTool "line" :: stroke 0 0 100 0 defaultDom.

Definition twoStrokes : list Action :=
  oneStroke ++ stroke 0 20 100 20 defaultDom.

(** [n] undo calls in a row. *)
Definition undos (n : nat) : list Action := repeat Undo n.

(** *** Layer manager *)

(** How often [shape] occurs in the shape list of [l], and in all the
    layers of a map. *)
Definition cnt (l : Layer.t) (shape : Shape) : nat :=
  count_occ Nat.eq_dec (Layer.shapes l) shape.

Definition occurrences (ls : LayerMap.t) (shape : Shape) : nat :=
  list_sum (map (fun l => cnt l shape) ls).

(** The membership invariant: over all layers, a shape occurs at most
    once. *)
Definition exclusive (m : LayerManager) : Prop :=
  forall shape, (occurrences (layers m) shape <= 1)%nat.

(** A layer whose opacity and colour are not falsy in JavaScript. *)
Definition truthy (l : Layer.t) : Prop :=
  Qeq_bool (Layer.opacity l) 0 = false /\ Layer.color l <> ""%string.

(** A world in which no shape has been given a layer yet. *)
Definition untouched : ShapeStore := fun _ => RefInitial.

(** Shape 7 sits on the default layer; a second layer is locked. *)
Definition lockedSecondLayer : LayerManager :=
  execAll [AddShapeToLayer 7%nat None;
           CreateLayer "Walls" noOptions;
           ToggleLayerLock "layer_1"]
    (newLayerManager untouched).

(** Three layers, the default one deleted, shape 7 on [layer_1]. *)
Definition defaultDeleted : LayerManager :=
  execAll [CreateLayer "A" noOptions; CreateLayer "B" noOptions;
           DeleteLayer "layer_0"; AddShapeToLayer 7%nat None]
    (newLayerManager untouched).

(** The default layer made fully transparent. *)
Definition transparentDefault : LayerManager :=
  execAll [SetLayerOpacity "layer_0" 0] (newLayerManager untouched).

(** ** Proof automation *)

(** Replace a closed numeric term by its value. *)
Ltac numeral t := let c := eval vm_compute in t in change t with c in *.

(** ** Further predicates and scenarios *)

(** *** Editor *)

(** The history is empty with the cursor at [-1], or the cursor points
    at one of its snapshots. *)
Definition CursorInv (s : Editor) : Prop :=
  (history s = [] /\ historyIndex s = (-1)%Z) \/
  (0 <= historyIndex s < Js.len (history s))%Z.


(** The editor after the two strokes of [twoStrokes]. *)
Definition afterTwoStrokes : Editor :=
  match run twoStrokes (newCanvasDrawing 800 600) with
  | Some s => s
  | None => newCanvasDrawing 800 600
  end.

(** The editor after the stroke of [oneStroke], and after the two
    strokes followed by one [undo()]. *)
Definition afterOneStroke : Editor :=
  match run oneStroke (newCanvasDrawing 800 600) with
  | Some s => s
  | None => newCanvasDrawing 800 600
  end.

Definition afterUndo : Editor :=
  match undo afterTwoStrokes with
  | Some u => u
  | None => afterTwoStrokes
  end.

(** *** LayerManager.js: the remaining methods *)

(** [moveLayerUp(layerId)] and [moveLayerDown(layerId)]. *)
Definition moveLayerUp (m : LayerManager) (layerId : string)
  : bool * LayerManager :=
  let currentIndex := Js.indexOf String.eqb layerId (layerOrder m) in
  if (currentIndex <=? 0)%Z then (false, m)
  else moveLayer m layerId (currentIndex - 1).

Definition moveLayerDown (m : LayerManager) (layerId : string)
  : bool * LayerManager :=
  let currentIndex := Js.indexOf String.eqb layerId (layerOrder m) in
  if (Js.len (layerOrder m) - 1 <=? currentIndex)%Z then (false, m)
  else moveLayer m layerId (currentIndex + 1).

(** [getAllLayers()]: the layers named by [layerOrder], in that order,
    ids without a layer dropped. *)
Definition getAllLayers (m : LayerManager) : list Layer.t :=
  flat_map (fun k => match LayerMap.get k (layers m) with
                     | Some l => [l]
                     | None => []
                     end) (layerOrder m).

(** [getVisibleLayers()]. *)
Definition getVisibleLayers (m : LayerManager) : list Layer.t :=
  filter Layer.visible (getAllLayers m).

(** The loop of [getVisibleShapes()], [for (i = n - 1; i >= 0; i--)]:
    the shapes pushed from index [n - 1] down to 0. *)
Fixpoint visibleShapesBelow (m : LayerManager) (n : nat) : list Shape :=
  match n with
  | O => []
  | S i =>
      (match nth_error (layerOrder m) i with
       | Some layerId =>
           match LayerMap.get layerId (layers m) with
           | Some layer =>
               if Layer.visible layer then Layer.shapes layer else []
           | None => []
           end
       | None => []
       end) ++ visibleShapesBelow m i
  end.

(** [getVisibleShapes()]. *)
Definition getVisibleShapes (m : LayerManager) : list Shape :=
  visibleShapesBelow m (List.length (layerOrder m)).

(** [getAllShapes()]. *)
Definition getAllShapes (m : LayerManager) : list Shape :=
  flat_map Layer.shapes (layers m).

(** A call other than [importLayers]. *)
Definition noImport (c : Call) : bool :=
  match c with ImportLayers _ => false | _ => true end.

(** The layer ids a manager has handed out when its counter is at
    [next]: ['layer_0'] and ['layer_1'] ... ['layer_(next - 1)']. *)
Definition issued (next : Z) (k : string) : Prop :=
  k = "layer_0"%string \/
  exists i : Z, (1 <= i < next)%Z /\
                k = ("layer_" ++ Js.numberToString i)%string.

(** The keys of a manager that never imported: they are unique and
    were all issued by its counter, [layerOrder] lists each of them
    once and nothing else, and the active layer is one of them. *)
Definition keyed (m : LayerManager) : Prop :=
  (1 <= nextLayerId m)%Z /\
  NoDup (LayerMap.keys (layers m)) /\
  (forall k, In k (LayerMap.keys (layers m)) -> issued (nextLayerId m) k) /\
  NoDup (layerOrder m) /\
  (forall k, In k (layerOrder m) <-> In k (LayerMap.keys (layers m))) /\
  (exists a, activeLayerId m = Some a /\ In a (LayerMap.keys (layers m))).

(** The [index] field of a layer is its position in [layerOrder]. *)
Definition indexed (m : LayerManager) : Prop :=
  forall i k, nth_error (layerOrder m) i = Some k ->
    exists l, LayerMap.get k (layers m) = Some l /\
              Layer.index l = Z.of_nat i.

Definition consistent (m : LayerManager) : Prop := keyed m /\ indexed m.

(** What [keyed] and [indexed] read of a layer map. *)
Definition skeleton (ls : LayerMap.t) : list (string * Z) :=
  map (fun l => (Layer.id l, Layer.index l)) ls.

(** A fresh manager with a second layer, which is active and holds
    shape 7. *)
Definition twoLayers : LayerManager :=
  execAll [CreateLayer "Walls" noOptions; SetActiveLayer "layer_1";
           AddShapeToLayer 7%nat None]
    (newLayerManager untouched).

(** * Properties *)

(** ** Numeric primitives *)

Lemma ltb_true_iff (a b : Q) : Js.ltb a b = true <-> a < b.
Proof.
  unfold Js.ltb. rewrite negb_true_iff.
  split; intro H.
  - apply Qnot_le_lt. intro Hle. apply Qle_bool_iff in Hle. congruence.
  - destruct (Qle_bool b a) eqn:E; [|reflexivity].
    apply Qle_bool_iff in E. exfalso. exact (Qlt_not_le _ _ H E).
Qed.

Lemma ltb_false_iff (a b : Q) : Js.ltb a b = false <-> b <= a.
Proof.
  unfold Js.ltb. rewrite negb_false_iff. apply Qle_bool_iff.
Qed.

Lemma min_le_l (a b : Q) : Js.min a b <= a.
Proof.
  unfold Js.min. destruct (Qle_bool a b) eqn:E.
  - apply Qle_refl.
  - apply Qlt_le_weak. apply ltb_true_iff. unfold Js.ltb. now rewrite E.
Qed.

Lemma min_le_r (a b : Q) : Js.min a b <= b.
Proof.
  unfold Js.min. destruct (Qle_bool a b) eqn:E.
  - now apply Qle_bool_iff.
  - apply Qle_refl.
Qed.

Lemma min_glb (a b c : Q) : c <= a -> c <= b -> c <= Js.min a b.
Proof. unfold Js.min. now destruct (Qle_bool a b). Qed.

Lemma max_ge_l (a b : Q) : a <= Js.max a b.
Proof.
  unfold Js.max. destruct (Qle_bool a b) eqn:E.
  - now apply Qle_bool_iff.
  - apply Qle_refl.
Qed.

Lemma max_lub (a b c : Q) : a <= c -> b <= c -> Js.max a b <= c.
Proof. unfold Js.max. now destruct (Qle_bool a b). Qed.

(** ** Binary64 rounding *)

Lemma two_pow_pos (k : Z) : 0 < 2 ^ k.
Proof. now apply Qpower_0_lt. Qed.

Lemma two_pow_nonneg_exp (k : Z) :
  (0 <= k)%Z -> 2 ^ k == inject_Z (2 ^ k).
Proof. intro H. now rewrite Zpower_Qpower. Qed.

(** [2 ^ ilog2 q] does not exceed [|q|]. *)
Lemma ilog2_lower (q : Q) : ~ q == 0 -> 2 ^ Js.ilog2 q <= Qabs q.
Proof.
  intro Hq. unfold Js.ilog2.
  set (a := Z.log2 (Z.abs (Qnum q))). set (b := Z.log2 (Z.pos (Qden q))).
  destruct (Qle_bool (2 ^ (a - b)) (Qabs q)) eqn:E.
  - now apply Qle_bool_iff in E.
  - assert (Hn : (0 < Z.abs (Qnum q))%Z).
    { destruct q as [n d]. unfold Qeq in Hq. simpl in *. lia. }
    destruct (Z.log2_spec _ Hn) as [La _]. fold a in La.
    assert (Hd : (0 < Z.pos (Qden q))%Z) by lia.
    destruct (Z.log2_spec _ Hd) as [_ Lb]. fold b in Lb.
    assert (Ha : (0 <= a)%Z) by apply Z.log2_nonneg.
    assert (Hb : (0 <= b)%Z) by apply Z.log2_nonneg.
    replace (a - b - 1)%Z with (a - (b + 1))%Z by lia.
    rewrite Qpower_minus by discriminate.
    rewrite !two_pow_nonneg_exp by lia.
    assert (Hp : (0 < 2 ^ (b + 1))%Z) by (apply Z.pow_pos_nonneg; lia).
    destruct q as [n d]. cbn [Qabs Qnum Qden] in *.
    apply Qle_shift_div_r.
    + change 0 with (inject_Z 0). rewrite <- Zlt_Qlt. exact Hp.
    + unfold Qle, Qmult, inject_Z. cbn [Qnum Qden].
      replace (Z.succ b) with (b + 1)%Z in Lb by lia.
      nia.
Qed.

Lemma ilog2_lt (q : Q) (k : Z) :
  ~ q == 0 -> Qabs q < 2 ^ k -> (Js.ilog2 q < k)%Z.
Proof.
  intros Hq H. apply (Qpower_lt_compat_l_inv 2); [|reflexivity].
  eapply Qle_lt_trans; [now apply ilog2_lower|exact H].
Qed.

Lemma rne_int (x : Q) (k : Z) : x == inject_Z k -> Js.rne x = k.
Proof.
  intro E. unfold Js.rne.
  rewrite (Qfloor_comp _ _ E), Qfloor_Z.
  destruct (Qcompare_spec (x - inject_Z k) (1 # 2)) as [C|C|C];
    [exfalso|reflexivity|exfalso]; rewrite E in C; revert C; clear;
    intro C; Lqa.lra.
Qed.

Lemma rne_bound (x : Q) (k : Z) :
  Qabs x <= inject_Z k -> (Z.abs (Js.rne x) <= k)%Z.
Proof.
  intro H. apply Qabs_Qle_condition in H. destruct H as [Hl Hu].
  pose proof (Qfloor_le x) as F1. pose proof (Qlt_floor x) as F2.
  set (f := Qfloor x) in *.
  assert (Lf : (- k <= f)%Z).
  { apply Z.lt_succ_r. rewrite Zlt_Qlt.
    eapply Qle_lt_trans; [|exact F2].
    rewrite inject_Z_opp. exact Hl. }
  assert (Uf : (f <= k)%Z).
  { rewrite Zle_Qle. eapply Qle_trans; [exact F1|exact Hu]. }
  assert (Up : (f = k -> x == inject_Z k)).
  { intros ->. apply Qle_antisym; assumption. }
  unfold Js.rne. fold f.
  destruct (Qcompare_spec (x - inject_Z f) (1 # 2)) as [C|C|C].
  - destruct (Z.even f); [lia|].
    destruct (Z.eq_dec f k) as [Ek|Ek]; [|lia].
    rewrite (Up Ek), Ek in C. exfalso. revert C. clear.
    intro C. Lqa.lra.
  - lia.
  - destruct (Z.eq_dec f k) as [Ek|Ek]; [|lia].
    rewrite (Up Ek), Ek in C. exfalso. revert C. clear.
    intro C. Lqa.lra.
Qed.

(** Rounding sees the number, not the fraction that writes it. *)
Lemma fl_comp (q q' : Q) : q == q' -> Js.fl q = Js.fl q'.
Proof.
  intro E. unfold Js.fl. now rewrite (Qred_complete _ _ E).
Qed.

Lemma Qred_inject_Z (z : Z) : Qred (inject_Z z) = inject_Z z.
Proof.
  unfold Qred, inject_Z.
  pose proof (Z.ggcd_gcd z 1) as G.
  pose proof (Z.ggcd_correct_divisors z 1) as D.
  destruct (Z.ggcd z 1) as [g [aa bb]]. cbn [fst snd] in *.
  rewrite Z.gcd_1_r in G. subst g. destruct D as [Da Db].
  rewrite Z.mul_1_l in Da, Db. now subst.
Qed.

(** The exponent of the last bit of a number below [2^53 * 2^j]. *)
Lemma fexp_le (q : Q) (j : Z) :
  ~ q == 0 -> (-1074 <= j)%Z -> Qabs q < inject_Z (2 ^ 53) * 2 ^ j ->
  (Z.max (Js.ilog2 q - 52) (-1074) <= j)%Z.
Proof.
  intros Hq Hj H. rewrite <- two_pow_nonneg_exp in H by lia.
  rewrite <- Qpower_plus in H by discriminate.
  apply ilog2_lt in H; [lia|exact Hq].
Qed.

Lemma fexp_nonpos (q : Q) :
  ~ q == 0 -> Qabs q < inject_Z (2 ^ 53) ->
  (Z.max (Js.ilog2 q - 52) (-1074) <= 0)%Z.
Proof.
  intros Hq H. apply fexp_le; [exact Hq|lia|].
  now rewrite Qmult_1_r.
Qed.

Lemma two_pow_split (j e : Z) :
  (e <= j)%Z -> 2 ^ j == inject_Z (2 ^ (j - e)) * 2 ^ e.
Proof.
  intro H. rewrite <- two_pow_nonneg_exp by lia.
  rewrite <- Qpower_plus by discriminate.
  now replace (j - e + e)%Z with j by lia.
Qed.

(** A binary64 number [z * 2^j], with [|z| < 2^53] and [j >= -1074],
    is kept by the rounding. *)
Lemma fl_exact (q : Q) (z j : Z) :
  q == inject_Z z * 2 ^ j -> (-1074 <= j)%Z -> (Z.abs z < 2 ^ 53)%Z ->
  Js.fl q == q.
Proof.
  intros Eq Hj Hz. unfold Js.fl.
  assert (Er : Qred q == inject_Z z * 2 ^ j) by (now rewrite Qred_correct).
  set (r := Qred q) in *. clearbody r.
  destruct (Qeq_bool r 0) eqn:E.
  - apply Qeq_bool_iff in E. now rewrite Eq, <- Er, E.
  - assert (Hq : ~ r == 0).
    { intro C. apply Qeq_bool_iff in C. congruence. }
    assert (Pj : 0 < 2 ^ j) by apply two_pow_pos.
    assert (Ha : Qabs r < inject_Z (2 ^ 53) * 2 ^ j).
    { rewrite Er, Qabs_Qmult, (Qabs_pos (2 ^ j)) by (now apply Qlt_le_weak).
      change (Qabs (inject_Z z)) with (inject_Z (Z.abs z)).
      apply Qmult_lt_compat_r; [exact Pj|]. now rewrite <- Zlt_Qlt. }
    pose proof (fexp_le _ _ Hq Hj Ha) as He.
    set (e := Z.max (Js.ilog2 r - 52) (-1074)) in *. clearbody e.
    assert (Ne : ~ 2 ^ e == 0) by (apply Qpower_not_0; discriminate).
    assert (Ey : r / 2 ^ e == inject_Z (z * 2 ^ (j - e))).
    { rewrite Er, (two_pow_split j e He), inject_Z_mult. now field. }
    rewrite (rne_int _ _ Ey), Qred_correct, inject_Z_mult, Eq.
    rewrite (two_pow_split j e He). ring.
Qed.

(** Integers below [2^53] are binary64 numbers: rounding keeps them. *)
Lemma fl_int (z : Z) :
  (Z.abs z < 2 ^ 53)%Z -> Js.fl (inject_Z z) = inject_Z z.
Proof.
  intro H. unfold Js.fl. rewrite Qred_inject_Z.
  destruct (Qeq_bool (inject_Z z) 0) eqn:E.
  - apply Qeq_bool_iff in E. unfold Qeq, inject_Z in E. simpl in E.
    assert (z = 0%Z) by lia. now subst.
  - assert (Hq : ~ inject_Z z == 0).
    { intro C. apply Qeq_bool_iff in C. congruence. }
    assert (Ha : Qabs (inject_Z z) < inject_Z (2 ^ 53)).
    { change (Qabs (inject_Z z)) with (inject_Z (Z.abs z)).
      now rewrite <- Zlt_Qlt. }
    pose proof (fexp_nonpos _ Hq Ha) as He.
    set (e := Z.max (Js.ilog2 (inject_Z z) - 52) (-1074)) in *.
    assert (Ee : / 2 ^ e == inject_Z (2 ^ (- e))).
    { rewrite <- Qpower_opp. apply two_pow_nonneg_exp. lia. }
    assert (Ey : inject_Z z / 2 ^ e == inject_Z (z * 2 ^ (- e))).
    { unfold Qdiv. rewrite Ee, inject_Z_mult. reflexivity. }
    rewrite (rne_int _ _ Ey).
    rewrite <- (Qred_inject_Z z). apply Qred_complete.
    rewrite inject_Z_mult, <- Ee.
    field. apply Qpower_not_0. discriminate.
Qed.

(** Rounding does not cross a binary64 number [k * 2^j]. *)
Lemma fl_bound_scaled (x : Q) (k j : Z) :
  Qabs x <= inject_Z k * 2 ^ j -> (-1074 <= j)%Z -> (k < 2 ^ 53)%Z ->
  Qabs (Js.fl x) <= inject_Z k * 2 ^ j.
Proof.
  intros H Hj Hk.
  assert (Pj : 0 < 2 ^ j) by apply two_pow_pos.
  unfold Js.fl.
  assert (Hr : Qabs (Qred x) <= inject_Z k * 2 ^ j)
    by (now rewrite Qred_correct).
  set (q := Qred x) in *. clearbody q.
  destruct (Qeq_bool q 0) eqn:E.
  - eapply Qle_trans; [|exact Hr]. apply Qabs_nonneg.
  - assert (Hq : ~ q == 0).
    { intro C. apply Qeq_bool_iff in C. congruence. }
    assert (Ha : Qabs q < inject_Z (2 ^ 53) * 2 ^ j).
    { eapply Qle_lt_trans; [exact Hr|].
      apply Qmult_lt_compat_r; [exact Pj|]. now rewrite <- Zlt_Qlt. }
    pose proof (fexp_le _ _ Hq Hj Ha) as He.
    set (e := Z.max (Js.ilog2 q - 52) (-1074)) in *. clearbody e.
    assert (Pe : 0 < 2 ^ e) by apply two_pow_pos.
    assert (Ne : ~ 2 ^ e == 0) by (apply Qpower_not_0; discriminate).
    assert (Hy : Qabs (q / 2 ^ e) <= inject_Z (k * 2 ^ (j - e))).
    { unfold Qdiv. rewrite Qabs_Qmult.
      rewrite (Qabs_pos (/ 2 ^ e))
        by (apply Qlt_le_weak, Qinv_lt_0_compat, Pe).
      apply Qle_shift_div_r; [exact Pe|].
      rewrite inject_Z_mult, <- Qmult_assoc, <- (two_pow_split j e He).
      exact Hr. }
    apply rne_bound in Hy.
    rewrite Qred_correct, Qabs_Qmult.
    rewrite (Qabs_pos (2 ^ e)) by (now apply Qlt_le_weak).
    change (Qabs (inject_Z (Js.rne (q / 2 ^ e))))
      with (inject_Z (Z.abs (Js.rne (q / 2 ^ e)))).
    apply Qle_trans with (inject_Z (k * 2 ^ (j - e)) * 2 ^ e).
    + apply Qmult_le_compat_r; [|now apply Qlt_le_weak].
      now rewrite <- Zle_Qle.
    + rewrite inject_Z_mult, <- Qmult_assoc, <- (two_pow_split j e He).
      apply Qle_refl.
Qed.

(** Rounding does not cross an integer below [2^53]. *)
Lemma fl_bound (x : Q) (k : Z) :
  Qabs x <= inject_Z k -> (k < 2 ^ 53)%Z -> Qabs (Js.fl x) <= inject_Z k.
Proof.
  intros H Hk.
  assert (E : inject_Z k == inject_Z k * 2 ^ 0) by (now rewrite Qmult_1_r).
  rewrite E in *. apply fl_bound_scaled; [exact H|lia|exact Hk].
Qed.

(** [Math.round] of a number within [-k, k] stays within [-k, k]. *)
Lemma round_bound (x : Q) (k : Z) :
  Qabs x <= inject_Z k -> (Z.abs (Js.round x) <= k)%Z.
Proof.
  intro H. apply Qabs_Qle_condition in H. destruct H as [Hl Hu].
  unfold Js.round.
  pose proof (Qfloor_le (x + (1 # 2))) as F1.
  pose proof (Qlt_floor (x + (1 # 2))) as F2.
  set (f := Qfloor (x + (1 # 2))) in *.
  rewrite inject_Z_plus in F2.
  change (inject_Z 1) with 1 in F2.
  assert (Lf : (- k <= f)%Z).
  { apply Z.lt_succ_r. rewrite Zlt_Qlt. unfold Z.succ.
    rewrite inject_Z_plus, inject_Z_opp. change (inject_Z 1) with 1.
    Lqa.lra. }
  assert (Uf : (f < k + 1)%Z).
  { rewrite Zlt_Qlt, inject_Z_plus. change (inject_Z 1) with 1. Lqa.lra. }
  lia.
Qed.

Lemma Qabs_gt (d t : Q) : t < Qabs d <-> t < d \/ d < - t.
Proof.
  split.
  - intro H. destruct (Qlt_le_dec t d) as [A|A]; [now left|].
    destruct (Qlt_le_dec d (- t)) as [B|B]; [now right|].
    exfalso. apply (Qlt_not_le _ _ H).
    apply Qabs_Qle_condition. now split.
  - intros [A|A].
    + eapply Qlt_le_trans; [exact A|apply Qle_Qabs].
    + rewrite <- Qabs_opp.
      eapply Qlt_le_trans; [|apply Qle_Qabs]. Lqa.lra.
Qed.

(** *** Exponents and the nearest integer *)

(** [|q|] is below [2 ^ (ilog2 q + 1)]. *)
Lemma ilog2_upper (q : Q) : ~ q == 0 -> Qabs q < 2 ^ (Js.ilog2 q + 1).
Proof.
  intro Hq. unfold Js.ilog2.
  set (a := Z.log2 (Z.abs (Qnum q))). set (b := Z.log2 (Z.pos (Qden q))).
  destruct (Qle_bool (2 ^ (a - b)) (Qabs q)) eqn:E.
  - assert (Hn : (0 < Z.abs (Qnum q))%Z).
    { destruct q as [n d]. unfold Qeq in Hq. simpl in *. lia. }
    destruct (Z.log2_spec _ Hn) as [_ La]. fold a in La.
    assert (Hd : (0 < Z.pos (Qden q))%Z) by lia.
    destruct (Z.log2_spec _ Hd) as [Lb _]. fold b in Lb.
    assert (Ha : (0 <= a)%Z) by apply Z.log2_nonneg.
    assert (Hb : (0 <= b)%Z) by apply Z.log2_nonneg.
    replace (a - b + 1)%Z with (a + 1 - b)%Z by lia.
    rewrite Qpower_minus by discriminate.
    rewrite !two_pow_nonneg_exp by lia.
    assert (Hp : (0 < 2 ^ b)%Z) by (apply Z.pow_pos_nonneg; lia).
    destruct q as [n d]. cbn [Qabs Qnum Qden] in *.
    apply Qlt_shift_div_l.
    + change 0 with (inject_Z 0). rewrite <- Zlt_Qlt. exact Hp.
    + unfold Qlt, Qmult, inject_Z. cbn [Qnum Qden].
      replace (Z.succ a) with (a + 1)%Z in La by lia.
      nia.
  - replace (a - b - 1 + 1)%Z with (a - b)%Z by lia.
    apply Qnot_le_lt. intro C. apply Qle_bool_iff in C. congruence.
Qed.

(** [ilog2 q] is the exponent [k] with [2^k <= |q| < 2^(k+1)]. *)
Lemma ilog2_unique (q : Q) (k : Z) :
  2 ^ k <= Qabs q -> Qabs q < 2 ^ (k + 1) -> Js.ilog2 q = k.
Proof.
  intros L U.
  assert (Hq : ~ q == 0).
  { intro C. rewrite C in L. change (Qabs 0) with 0 in L.
    apply (Qlt_not_le _ _ (two_pow_pos k)). exact L. }
  pose proof (ilog2_lt q (k + 1) Hq U) as A.
  pose proof (ilog2_upper q Hq) as B.
  assert (C : 2 ^ k < 2 ^ (Js.ilog2 q + 1))
    by (eapply Qle_lt_trans; [exact L|exact B]).
  apply Qpower_lt_compat_l_inv in C; [lia|reflexivity].
Qed.

(** The nearest integer is within one half. *)
Lemma rne_near (x : Q) :
  x - (1 # 2) <= inject_Z (Js.rne x) /\ inject_Z (Js.rne x) <= x + (1 # 2).
Proof.
  unfold Js.rne.
  pose proof (Qfloor_le x) as F1. pose proof (Qlt_floor x) as F2.
  set (f := Qfloor x) in *.
  rewrite inject_Z_plus in F2. change (inject_Z 1) with 1 in F2.
  destruct (Qcompare_spec (x - inject_Z f) (1 # 2)) as [C|C|C].
  - destruct (Z.even f);
      [|rewrite inject_Z_plus; change (inject_Z 1) with 1];
      split; Lqa.lra.
  - split; Lqa.lra.
  - rewrite inject_Z_plus; change (inject_Z 1) with 1. split; Lqa.lra.
Qed.

Lemma Zlt_half (a b : Z) : inject_Z a < inject_Z b + (1 # 2) -> (a <= b)%Z.
Proof.
  intro H. apply Z.lt_succ_r. rewrite Zlt_Qlt. unfold Z.succ.
  rewrite inject_Z_plus. change (inject_Z 1) with 1. Lqa.lra.
Qed.

Lemma Zle_inj (a b : Z) : (a <= b)%Z -> inject_Z a <= inject_Z b.
Proof. intro H. now rewrite <- Zle_Qle. Qed.

Lemma Zsucc_inj (a b : Z) : (a < b)%Z -> inject_Z a + 1 <= inject_Z b.
Proof.
  intro H. change 1 with (inject_Z 1). rewrite <- inject_Z_plus.
  rewrite <- Zle_Qle. lia.
Qed.

Lemma even_cases (f : Z) :
  (Z.even f = true /\ exists k, f = (2 * k)%Z) \/
  (Z.even f = false /\ exists k, f = (2 * k + 1)%Z).
Proof.
  destruct (Z.even f) eqn:E.
  - left. split; [reflexivity|]. now apply Z.even_spec in E.
  - right. split; [reflexivity|].
    rewrite <- Z.negb_odd in E. apply negb_false_iff in E.
    now apply Z.odd_spec in E.
Qed.

(** Rounding to nearest goes above an even integer [M] exactly beyond
    [M + 1/2], and below it exactly beyond [M - 1/2]: the ties go to
    [M]. *)
Lemma rne_gt_even (x : Q) (M : Z) :
  Z.even M = true -> ((M < Js.rne x)%Z <-> inject_Z M + (1 # 2) < x).
Proof.
  intro EM. apply Z.even_spec in EM. destruct EM as [a EM].
  unfold Js.rne.
  pose proof (Qfloor_le x) as F1. pose proof (Qlt_floor x) as F2.
  set (f := Qfloor x) in *.
  rewrite inject_Z_plus in F2. change (inject_Z 1) with 1 in F2.
  destruct (Qcompare_spec (x - inject_Z f) (1 # 2)) as [C|C|C].
  - destruct (even_cases f) as [[E [b Eb]]|[E [b Eb]]]; rewrite E; split; intro H.
    + apply Zsucc_inj in H. Lqa.lra.
    + rewrite Zlt_Qlt. Lqa.lra.
    + assert (L : (M < f)%Z) by lia. apply Zsucc_inj in L. Lqa.lra.
    + assert (L : (M < f)%Z) by (rewrite Zlt_Qlt; Lqa.lra). lia.
  - split; intro H.
    + apply Zsucc_inj in H. Lqa.lra.
    + rewrite Zlt_Qlt. Lqa.lra.
  - split; intro H.
    + assert (L : (M <= f)%Z) by lia. apply Zle_inj in L. Lqa.lra.
    + assert (L : (M <= f)%Z) by (apply Zlt_half; Lqa.lra). lia.
Qed.

Lemma rne_lt_even (x : Q) (M : Z) :
  Z.even M = true -> ((Js.rne x < M)%Z <-> x < inject_Z M - (1 # 2)).
Proof.
  intro EM. apply Z.even_spec in EM. destruct EM as [a EM].
  unfold Js.rne.
  pose proof (Qfloor_le x) as F1. pose proof (Qlt_floor x) as F2.
  set (f := Qfloor x) in *.
  rewrite inject_Z_plus in F2. change (inject_Z 1) with 1 in F2.
  destruct (Qcompare_spec (x - inject_Z f) (1 # 2)) as [C|C|C].
  - destruct (even_cases f) as [[E [b Eb]]|[E [b Eb]]]; rewrite E;
      split; intro H.
    + assert (L : (f + 1 < M)%Z) by lia. apply Zsucc_inj in L.
      rewrite inject_Z_plus in L. change (inject_Z 1) with 1 in L. Lqa.lra.
    + rewrite Zlt_Qlt. Lqa.lra.
    + apply Zsucc_inj in H.
      rewrite inject_Z_plus in H. change (inject_Z 1) with 1 in H. Lqa.lra.
    + rewrite Zlt_Qlt, inject_Z_plus. change (inject_Z 1) with 1. Lqa.lra.
  - split; intro H.
    + apply Zsucc_inj in H. Lqa.lra.
    + rewrite Zlt_Qlt. Lqa.lra.
  - split; intro H.
    + apply Zsucc_inj in H.
      rewrite inject_Z_plus in H. change (inject_Z 1) with 1 in H. Lqa.lra.
    + rewrite Zlt_Qlt, inject_Z_plus. change (inject_Z 1) with 1. Lqa.lra.
Qed.

(** *** The error of a rounding *)

(** A number [n * 2^e] with [n] nearest to [r / 2^e] is within
    [2^e / 2] of [r]. *)
Lemma scaled_near (r : Q) (e : Z) :
  Qabs (inject_Z (Js.rne (r / 2 ^ e)) * 2 ^ e - r) <= 2 ^ e * (1 # 2).
Proof.
  assert (Pe : 0 < 2 ^ e) by apply two_pow_pos.
  assert (Ne : ~ 2 ^ e == 0) by (apply Qpower_not_0; discriminate).
  destruct (rne_near (r / 2 ^ e)) as [N1 N2].
  set (y := r / 2 ^ e) in *.
  assert (Ey : r == y * 2 ^ e) by (unfold y; field; exact Ne).
  set (n := inject_Z (Js.rne y)) in *. clearbody n. clearbody y.
  rewrite Ey. set (p := 2 ^ e) in *. clearbody p.
  apply Qabs_Qle_condition. split.
  - apply (Qmult_le_compat_r _ _ p) in N1; [|now apply Qlt_le_weak].
    Lqa.lra.
  - apply (Qmult_le_compat_r _ _ p) in N2; [|now apply Qlt_le_weak].
    Lqa.lra.
Qed.

(** The error of a rounding: at most the fraction [2^-53] of the number
    rounded, or [2^-1075] among the subnormal numbers. *)
Lemma fl_err (x : Q) :
  Qabs (Js.fl x - x) <= Qabs x * 2 ^ (-53) + 2 ^ (-1075).
Proof.
  unfold Js.fl.
  assert (Er : Qred x == x) by apply Qred_correct.
  set (r := Qred x) in *. clearbody r. rewrite <- Er. clear Er x.
  assert (Pu : 0 <= Qabs r * 2 ^ (-53)).
  { apply Qmult_le_0_compat; [apply Qabs_nonneg|].
    apply Qlt_le_weak, two_pow_pos. }
  destruct (Qeq_bool r 0) eqn:E.
  - apply Qeq_bool_iff in E.
    assert (Z0 : Qabs (0 - r) == 0) by (rewrite E; reflexivity).
    rewrite Z0. pose proof (two_pow_pos (-1075)). Lqa.lra.
  - assert (Hq : ~ r == 0).
    { intro C. apply Qeq_bool_iff in C. congruence. }
    rewrite Qred_correct.
    eapply Qle_trans; [apply scaled_near|].
    pose proof (ilog2_lower r Hq) as L.
    destruct (Z.max_spec (Js.ilog2 r - 52) (-1074)) as [[_ M]|[_ M]];
      rewrite M.
    + change (2 ^ (-1074) * (1 # 2)) with (2 ^ (-1075)). Lqa.lra.
    + assert (S : 2 ^ (Js.ilog2 r - 52) * (1 # 2)
                  == 2 ^ Js.ilog2 r * 2 ^ (-53)).
      { rewrite Qpower_minus by discriminate.
        assert (K : 2 ^ (-53) == / 2 ^ 52 * (1 # 2)) by reflexivity.
        rewrite K. unfold Qdiv.
        generalize (2 ^ Js.ilog2 r), (/ 2 ^ 52). intros a b. ring. }
      rewrite S.
      apply (Qmult_le_compat_r _ _ (2 ^ (-53))) in L;
        [|apply Qlt_le_weak, two_pow_pos].
      pose proof (two_pow_pos (-1075)). Lqa.lra.
Qed.

(** The same with bounds: for [|x| <= B] and a positive normal number
    [g], the error is at most [(B + g) * 2^-53]. *)
Lemma fl_err_g (x B g : Q) :
  2 ^ (-1022) <= g -> Qabs x <= B ->
  Qabs (Js.fl x - x) <= (B + g) * 2 ^ (-53).
Proof.
  intros G H.
  eapply Qle_trans; [apply fl_err|].
  apply (Qmult_le_compat_r _ _ (2 ^ (-53))) in G;
    [|apply Qlt_le_weak, two_pow_pos].
  apply (Qmult_le_compat_r _ _ (2 ^ (-53))) in H;
    [|apply Qlt_le_weak, two_pow_pos].
  change (2 ^ (-1022) * 2 ^ (-53)) with (2 ^ (-1075)) in G.
  Lqa.lra.
Qed.

(** *** The numbers that round above 5 *)

Lemma rne_comp (x y : Q) : x == y -> Js.rne x = Js.rne y.
Proof.
  intro E. unfold Js.rne. rewrite (Qfloor_comp _ _ E).
  assert (C : Qcompare (x - inject_Z (Qfloor y)) (1 # 2)
              = Qcompare (y - inject_Z (Qfloor y)) (1 # 2))
    by (now rewrite E).
  now rewrite C.
Qed.

(** Between 4 and 8 the binary64 numbers are the multiples of
    [2^-50]. *)
Lemma fl_mid (d : Q) :
  4 <= Qabs d -> Qabs d < 8 ->
  Js.fl d == inject_Z (Js.rne (d * inject_Z (2 ^ 50))) * (1 # 2 ^ 50).
Proof.
  intros L U. unfold Js.fl.
  assert (Er : Qred d == d) by apply Qred_correct.
  set (r := Qred d) in *. clearbody r.
  rewrite <- Er in L, U.
  destruct (Qeq_bool r 0) eqn:E.
  - apply Qeq_bool_iff in E. rewrite E in L. exfalso.
    revert L. clear. intro L. vm_compute in L. now apply L.
  - assert (I : Js.ilog2 r = 2%Z) by (now apply ilog2_unique).
    rewrite I. change (Z.max (2 - 52) (-1074)) with (-50)%Z.
    rewrite Qred_correct.
    rewrite (rne_comp (r / 2 ^ (-50)) (d * inject_Z (2 ^ 50))).
    + reflexivity.
    + rewrite Er. change (2 ^ (-50)) with (1 # 2 ^ 50).
      change (inject_Z (2 ^ 50)) with (2 ^ 50 # 1).
      unfold Qdiv. change (/ (1 # 2 ^ 50)) with (2 ^ 50 # 1). reflexivity.
Qed.

(** A rounded number exceeds 5 exactly when the number rounded exceeds
    [5 + 2^-51], the midpoint between 5 and the next binary64 number;
    likewise below [-5]. *)
Lemma fl_gt_5 (d : Q) : 5 < Js.fl d <-> 5 + 2 ^ (-51) < d.
Proof.
  numeral (2 ^ (-51)).
  destruct (Qlt_le_dec d 4) as [A|A].
  - assert (H : Js.fl d <= 4).
    { destruct (Qlt_le_dec (-4) d) as [B|B].
      + assert (K : Qabs d <= inject_Z 4).
        { apply Qabs_Qle_condition. change (inject_Z 4) with 4.
          split; Lqa.lra. }
        apply fl_bound in K; [|reflexivity].
        apply Qabs_Qle_condition in K. change (inject_Z 4) with 4 in K.
        tauto.
      + pose proof (fl_err d) as K.
        rewrite (Qabs_neg d) in K by Lqa.lra.
        apply Qabs_Qle_condition in K. destruct K as [_ K].
        numeral (2 ^ (-53)). numeral (2 ^ (-1075)).
        Lqa.lra. }
    split; intro C; exfalso; Lqa.lra.
  - destruct (Qlt_le_dec d 8) as [B|B].
    + assert (P : 0 <= d) by Lqa.lra.
      rewrite fl_mid by (rewrite Qabs_pos by exact P; assumption).
      set (n := Js.rne (d * inject_Z (2 ^ 50))).
      pose proof (rne_gt_even (d * inject_Z (2 ^ 50)) (5 * 2 ^ 50)
                    eq_refl) as R. fold n in R.
      rewrite Zlt_Qlt in R.
      numeral (inject_Z (5 * 2 ^ 50)). numeral (inject_Z (2 ^ 50)).
      numeral (1 # 2 ^ 50).
      split; intro C.
      * assert (C' : 5629499534213120 < inject_Z n) by Lqa.lra.
        apply R in C'. Lqa.lra.
      * assert (C' : 5629499534213120 + (1 # 2) < d * 1125899906842624)
          by Lqa.lra.
        apply R in C'. Lqa.lra.
    + pose proof (fl_err d) as K.
      rewrite (Qabs_pos d) in K by Lqa.lra.
      apply Qabs_Qle_condition in K. destruct K as [K _].
      numeral (2 ^ (-53)). numeral (2 ^ (-1075)).
      split; intro C; Lqa.lra.
Qed.

Lemma fl_lt_m5 (d : Q) : Js.fl d < - (5) <-> d < - (5 + 2 ^ (-51)).
Proof.
  numeral (2 ^ (-51)).
  destruct (Qlt_le_dec (-4) d) as [A|A].
  - assert (H : -4 <= Js.fl d).
    { destruct (Qlt_le_dec d 4) as [B|B].
      + assert (K : Qabs d <= inject_Z 4).
        { apply Qabs_Qle_condition. change (inject_Z 4) with 4.
          split; Lqa.lra. }
        apply fl_bound in K; [|reflexivity].
        apply Qabs_Qle_condition in K. change (inject_Z 4) with 4 in K.
        tauto.
      + pose proof (fl_err d) as K.
        rewrite (Qabs_pos d) in K by Lqa.lra.
        apply Qabs_Qle_condition in K. destruct K as [K _].
        numeral (2 ^ (-53)). numeral (2 ^ (-1075)).
        Lqa.lra. }
    split; intro C; exfalso; Lqa.lra.
  - destruct (Qlt_le_dec (-8) d) as [B|B].
    + assert (P : d <= 0) by Lqa.lra.
      rewrite fl_mid by (rewrite Qabs_neg by exact P; Lqa.lra).
      set (n := Js.rne (d * inject_Z (2 ^ 50))).
      pose proof (rne_lt_even (d * inject_Z (2 ^ 50)) (- (5 * 2 ^ 50))
                    eq_refl) as R. fold n in R.
      rewrite Zlt_Qlt in R.
      numeral (inject_Z (- (5 * 2 ^ 50))). numeral (inject_Z (2 ^ 50)).
      numeral (1 # 2 ^ 50).
      split; intro C.
      * assert (C' : inject_Z n < -5629499534213120) by Lqa.lra.
        apply R in C'. Lqa.lra.
      * assert (C' : d * 1125899906842624 < -5629499534213120 - (1 # 2))
          by Lqa.lra.
        apply R in C'. Lqa.lra.
    + pose proof (fl_err d) as K.
      rewrite (Qabs_neg d) in K by Lqa.lra.
      apply Qabs_Qle_condition in K. destruct K as [_ K].
      numeral (2 ^ (-53)). numeral (2 ^ (-1075)).
      split; intro C; Lqa.lra.
Qed.

Lemma sq_le (x y : Q) : 0 <= x -> x <= y -> x * x <= y * y.
Proof. intros P L. apply Qmult_le_compat_nonneg; split; assumption. Qed.

Lemma sq_lt_inv (x y : Q) : 0 <= y -> x * x < y * y -> x < y.
Proof.
  intros P L. apply Qnot_le_lt. intro C.
  apply (Qlt_not_le _ _ L). now apply sq_le.
Qed.

(** The mantissa that [Math.sqrt] chooses: the integer square root [m]
    of [t] or its successor, whichever is nearer to the square root of
    [t], the even one on a tie. *)
Lemma sqrt_mantissa (t : Q) :
  0 <= t ->
  let m := Z.sqrt (Qfloor t) in
  let h := inject_Z m + (1 # 2) in
  let m' := match Qcompare t (h * h) with
            | Lt => m
            | Gt => (m + 1)%Z
            | Eq => if Z.even m then m else (m + 1)%Z
            end in
  (0 <= m)%Z /\
  inject_Z m * inject_Z m <= t /\
  t < (inject_Z m + 1) * (inject_Z m + 1) /\
  ((m' = m /\ (t < h * h \/ (t == h * h /\ Z.even m = true))) \/
   (m' = (m + 1)%Z /\ (h * h < t \/ (t == h * h /\ Z.even m = false)))).
Proof.
  intros P m h m'.
  assert (F0 : (0 <= Qfloor t)%Z).
  { change 0%Z with (Qfloor 0). now apply Qfloor_resp_le. }
  pose proof (Z.sqrt_spec _ F0) as [S1 S2]. fold m in S1, S2.
  pose proof (Qfloor_le t) as F1. pose proof (Qlt_floor t) as F2.
  split; [apply Z.sqrt_nonneg|]. split; [|split].
  - rewrite <- inject_Z_mult. eapply Qle_trans; [|exact F1].
    now rewrite <- Zle_Qle.
  - change 1 with (inject_Z 1). rewrite <- inject_Z_plus, <- inject_Z_mult.
    eapply Qlt_le_trans; [exact F2|]. rewrite <- Zle_Qle.
    unfold Z.succ in S2. lia.
  - subst m'. destruct (Qcompare_spec t (h * h)) as [C|C|C].
    + destruct (Z.even m) eqn:Ev; [left|right]; (split; [reflexivity|]);
        right; now split.
    + left. split; [reflexivity|]. now left.
    + right. split; [reflexivity|]. now left.
Qed.

(** [Math.sqrt(q)] exceeds 5 exactly when [q] exceeds the square of
    [5 + 2^-51], the midpoint between 5 and the next binary64
    number. *)
Lemma sqrt_gt_5 (q : Q) :
  5 < Js.sqrt q <-> (5 + 2 ^ (-51)) * (5 + 2 ^ (-51)) < q.
Proof.
  numeral (2 ^ (-51)).
  unfold Js.sqrt.
  assert (Er : Qred q == q) by apply Qred_correct.
  set (r := Qred q) in *. clearbody r. rewrite <- Er. clear Er q.
  destruct (Qle_bool r 0) eqn:E.
  - apply Qle_bool_iff in E. split; intro C; exfalso; Lqa.lra.
  - assert (Pr : 0 < r).
    { apply Qnot_le_lt. intro C. apply Qle_bool_iff in C. congruence. }
    assert (Hq : ~ r == 0) by (intro C; rewrite C in Pr; discriminate).
    assert (Ar : Qabs r == r) by (apply Qabs_pos; Lqa.lra).
    cbv zeta. rewrite Qred_correct.
    pose proof (Z.mul_div_le (Js.ilog2 r - 104) 2 eq_refl) as D1.
    pose proof (Z.mul_succ_div_gt (Js.ilog2 r - 104) 2 eq_refl) as D2.
    unfold Z.succ in D2.
    set (e := ((Js.ilog2 r - 104) / 2)%Z) in *.
    assert (Pe : 0 < 2 ^ e) by apply two_pow_pos.
    assert (Ne : ~ 2 ^ e == 0) by (apply Qpower_not_0; discriminate).
    assert (E2 : 2 ^ (2 * e) == 2 ^ e * 2 ^ e).
    { replace (2 * e)%Z with (e + e)%Z by lia.
      now rewrite Qpower_plus by discriminate. }
    assert (Et : r == r / 2 ^ (2 * e) * (2 ^ e * 2 ^ e)).
    { rewrite E2. now field. }
    assert (Pt : 0 <= r / 2 ^ (2 * e)).
    { apply Qle_shift_div_l; [apply two_pow_pos|]. Lqa.lra. }
    set (t := r / 2 ^ (2 * e)) in *.
    destruct (sqrt_mantissa t Pt) as (M0 & T1 & T2 & Hm).
    set (m := Z.sqrt (Qfloor t)) in *.
    set (h := inject_Z m + (1 # 2)) in *.
    set (m' := match Qcompare t (h * h) with
               | Lt => m
               | Gt => (m + 1)%Z
               | Eq => if Z.even m then m else (m + 1)%Z
               end) in *.
    assert (A0 : 0 <= inject_Z m).
    { change 0 with (inject_Z 0). now rewrite <- Zle_Qle. }
    assert (Mm : inject_Z m <= inject_Z m' /\ inject_Z m' <= inject_Z m + 1).
    { destruct Hm as [[Em _]|[Em _]]; rewrite Em.
      - split; Lqa.lra.
      - rewrite inject_Z_plus. change (inject_Z 1) with 1. split; Lqa.lra. }
    set (p := 2 ^ e) in *.
    destruct (Qlt_le_dec r 16) as [R16|R16].
    + (* below 16 the root stays below 5 *)
      assert (I : (Js.ilog2 r < 4)%Z).
      { apply ilog2_lt; [exact Hq|]. rewrite Ar. exact R16. }
      assert (Le : (e <= -51)%Z) by lia.
      assert (Lp : p <= 2 ^ (-51)).
      { unfold p. apply Qpower_le_compat_l; [exact Le|discriminate]. }
      numeral (2 ^ (-51)).
      assert (X : inject_Z m * p < 4).
      { apply sq_lt_inv; [discriminate|].
        apply Qle_lt_trans with r; [|exact R16].
        rewrite Et.
        setoid_replace (inject_Z m * p * (inject_Z m * p))
          with (inject_Z m * inject_Z m * (p * p)) by ring.
        apply Qmult_le_compat_r; [exact T1|].
        apply Qlt_le_weak. now apply Qmult_lt_0_compat. }
      assert (Y : inject_Z m' * p <= inject_Z m * p + p).
      { setoid_replace (inject_Z m * p + p) with ((inject_Z m + 1) * p)
          by ring.
        apply Qmult_le_compat_r; [tauto|now apply Qlt_le_weak]. }
      split; intro C; exfalso; Lqa.lra.
    + destruct (Qlt_le_dec r 64) as [R64|R64].
      * (* between 16 and 64 the roots are multiples of 2^-50 *)
        assert (I1 : (Js.ilog2 r < 6)%Z).
        { apply ilog2_lt; [exact Hq|]. rewrite Ar. exact R64. }
        assert (I2 : (4 < Js.ilog2 r + 1)%Z).
        { apply (Qpower_lt_compat_l_inv 2); [|reflexivity].
          pose proof (ilog2_upper r Hq) as U. rewrite Ar in U.
          eapply Qle_lt_trans; [|exact U]. exact R16. }
        assert (Ee : e = (-50)%Z) by lia.
        assert (Ep : p = 2 ^ (-50)) by (unfold p; now rewrite Ee).
        rewrite Ep in *. numeral (2 ^ (-50)).
        clear Ep Pe Ne E2 p.
        assert (Ht : t == r * 1267650600228229401496703205376).
        { unfold t. rewrite Ee. reflexivity. }
        clearbody t. clear Et Ee D1 D2 e.
        set (M := 5629499534213120%Z).
        assert (Hc : (5 + (1 # 2251799813685248))
                     * (5 + (1 # 2251799813685248))
                     * 1267650600228229401496703205376
                     == (inject_Z M + (1 # 2)) * (inject_Z M + (1 # 2)))
          by reflexivity.
        assert (Key : (M < m')%Z <->
                      (inject_Z M + (1 # 2)) * (inject_Z M + (1 # 2)) < t).
        { split; intro C.
          - assert (Big : (M + 1 <= m)%Z ->
                          (inject_Z M + (1 # 2)) * (inject_Z M + (1 # 2)) < t).
            { intro B. eapply Qlt_le_trans; [|exact T1].
              rewrite <- inject_Z_mult.
              apply Qlt_le_trans with (inject_Z ((M + 1) * (M + 1))).
              - reflexivity.
              - rewrite <- Zle_Qle. nia. }
            destruct Hm as [[Em _]|[Em Hm]].
            + apply Big. lia.
            + destruct (Z.eq_dec m M) as [Eq|Nq]; [|apply Big; lia].
              unfold h in Hm. rewrite Eq in Hm.
              destruct Hm as [Hm|[_ Hm]]; [exact Hm|discriminate Hm].
          - assert (Lo : (M <= m)%Z).
            { apply Z.le_ngt. intro B.
              apply (Qlt_irrefl t). eapply Qlt_trans; [exact T2|].
              eapply Qle_lt_trans; [|exact C].
              change 1 with (inject_Z 1).
              rewrite <- inject_Z_plus, <- inject_Z_mult.
              apply Qle_trans with (inject_Z (M * M)).
              - rewrite <- Zle_Qle. nia.
              - discriminate. }
            destruct Hm as [[Em Hm]|[Em _]]; [|lia].
            destruct (Z.eq_dec m M) as [Eq|Nq]; [|lia].
            exfalso. unfold h in Hm. rewrite Eq in Hm.
            destruct Hm as [Hm|[Hm _]].
            + exact (Qlt_irrefl _ (Qlt_trans _ _ _ C Hm)).
            + rewrite Hm in C. exact (Qlt_irrefl _ C). }
        rewrite Zlt_Qlt in Key. unfold M in Key.
        numeral (inject_Z 5629499534213120).
        split; intro C.
        -- assert (C' : 5629499534213120 < inject_Z m') by Lqa.lra.
           apply Key in C'. Lqa.lra.
        -- assert (C' : (5629499534213120 + (1 # 2))
                        * (5629499534213120 + (1 # 2)) < t) by Lqa.lra.
           apply Key in C'. Lqa.lra.
      * (* from 64 on the root exceeds 5 *)
        assert (I : (2 * e + 2 <= Js.ilog2 r)%Z) by lia.
        assert (T4 : 4 <= t).
        { unfold t. apply Qle_shift_div_l; [apply two_pow_pos|].
          change 4 with (2 ^ 2).
          rewrite <- Qpower_plus by discriminate.
          apply Qle_trans with (2 ^ Js.ilog2 r).
          - apply Qpower_le_compat_l; [lia|discriminate].
          - eapply Qle_trans; [apply ilog2_lower; exact Hq|].
            rewrite Ar. apply Qle_refl. }
        assert (M2 : (2 <= m)%Z).
        { change 2%Z with (Z.sqrt 4). apply Z.sqrt_le_mono.
          change 4%Z with (Qfloor 4). now apply Qfloor_resp_le. }
        assert (A2 : 2 <= inject_Z m).
        { change 2 with (inject_Z 2). now rewrite <- Zle_Qle. }
        assert (X : 8 < (inject_Z m + 1) * p).
        { apply sq_lt_inv.
          - apply Qmult_le_0_compat; [Lqa.lra|now apply Qlt_le_weak].
          - apply Qle_lt_trans with r; [exact R64|].
            rewrite Et.
            setoid_replace ((inject_Z m + 1) * p * ((inject_Z m + 1) * p))
              with ((inject_Z m + 1) * (inject_Z m + 1) * (p * p)) by ring.
            apply Qmult_lt_compat_r; [now apply Qmult_lt_0_compat|exact T2]. }
        assert (Y : (inject_Z m + 1) * p <= (3 # 2) * (inject_Z m * p)).
        { setoid_replace ((3 # 2) * (inject_Z m * p))
            with ((3 # 2) * inject_Z m * p) by ring.
          apply Qmult_le_compat_r; [Lqa.lra|now apply Qlt_le_weak]. }
        assert (W : inject_Z m * p <= inject_Z m' * p).
        { apply Qmult_le_compat_r; [tauto|now apply Qlt_le_weak]. }
        split; intro C; Lqa.lra.
Qed.

(** *** Snapping twice *)

Lemma floor_unique (z : Q) (n : Z) :
  inject_Z n <= z -> z < inject_Z n + 1 -> Qfloor z = n.
Proof.
  intros L U. pose proof (Qfloor_le z) as F1. pose proof (Qlt_floor z) as F2.
  rewrite inject_Z_plus in F2. change (inject_Z 1) with 1 in F2.
  assert (A : (Qfloor z < n + 1)%Z).
  { rewrite Zlt_Qlt, inject_Z_plus. change (inject_Z 1) with 1. Lqa.lra. }
  assert (B : (n < Qfloor z + 1)%Z).
  { rewrite Zlt_Qlt, inject_Z_plus. change (inject_Z 1) with 1. Lqa.lra. }
  lia.
Qed.

(** [Math.round] of a number less than one half away from an integer
    is that integer. *)
Lemma round_near (y : Q) (n : Z) :
  inject_Z n - (1 # 2) <= y -> y < inject_Z n + (1 # 2) -> Js.round y = n.
Proof. intros L U. unfold Js.round. apply floor_unique; Lqa.lra. Qed.

Lemma fl_err_B (x B : Q) :
  Qabs x <= B -> Qabs (Js.fl x - x) <= B * 2 ^ (-53) + 2 ^ (-1075).
Proof.
  intro H. eapply Qle_trans; [apply fl_err|].
  apply (Qmult_le_compat_r _ _ (2 ^ (-53))) in H;
    [|apply Qlt_le_weak, two_pow_pos].
  Lqa.lra.
Qed.

Lemma scaled_abs (n N : Z) (g : Q) :
  0 < g -> (Z.abs n <= N)%Z -> Qabs (inject_Z n * g) <= inject_Z N * g.
Proof.
  intros G H. rewrite Qabs_Qmult, (Qabs_pos g) by (now apply Qlt_le_weak).
  apply Qmult_le_compat_r; [|now apply Qlt_le_weak].
  change (Qabs (inject_Z n)) with (inject_Z (Z.abs n)).
  now rewrite <- Zle_Qle.
Qed.

Lemma normal_pos (g : Q) : 2 ^ (-1022) <= g -> 0 < g.
Proof.
  intro G. eapply Qlt_le_trans; [|exact G]. apply two_pow_pos.
Qed.

(** The second snap finds the same grid line: a value within a quarter
    of a step of the [n]-th grid line, [|n| <= 2^50], is divided and
    rounded to [n] again. *)
Lemma resnap (g a : Q) (n : Z) :
  2 ^ (-1022) <= g -> (Z.abs n <= 2 ^ 50)%Z ->
  Qabs (a - inject_Z n * g) <= (1 # 4) * g ->
  Js.round (Js.div a g) = n.
Proof.
  intros G Hn Ha. pose proof (normal_pos g G) as Pg.
  assert (Ng : ~ g == 0) by (intro C; rewrite C in Pg; discriminate).
  apply Qabs_Qle_condition in Ha. destruct Ha as [Ha1 Ha2].
  assert (Hz : Qabs (inject_Z n) <= 1125899906842624).
  { change (Qabs (inject_Z n)) with (inject_Z (Z.abs n)).
    change 1125899906842624 with (inject_Z (2 ^ 50)).
    now rewrite <- Zle_Qle. }
  apply Qabs_Qle_condition in Hz. destruct Hz as [Hz1 Hz2].
  assert (D1 : inject_Z n - (1 # 4) <= a / g).
  { apply Qle_shift_div_l; [exact Pg|]. Lqa.lra. }
  assert (D2 : a / g <= inject_Z n + (1 # 4)).
  { apply Qle_shift_div_r; [exact Pg|]. Lqa.lra. }
  assert (Hb : Qabs (a / g) <= 1125899906842625).
  { apply Qabs_Qle_condition. split; Lqa.lra. }
  apply fl_err_B in Hb. unfold Js.div.
  numeral (2 ^ (-53)). numeral (2 ^ (-1075)).
  apply Qabs_Qle_condition in Hb. destruct Hb as [Hb1 Hb2].
  apply round_near; Lqa.lra.
Qed.

(** [snapToGridCoord] with a grid size [g] that is a normal binary64
    number, on a coordinate within [2^50] steps of zero. *)
Lemma snap_coord_idem (g c : Q) :
  2 ^ (-1022) <= g -> Qabs c <= 2 ^ 50 * g ->
  let r := Js.mul (inject_Z (Js.round (Js.div c g))) g in
  Js.mul (inject_Z (Js.round (Js.div r g))) g = r.
Proof.
  intros G Hc r. pose proof (normal_pos g G) as Pg.
  numeral (2 ^ 50).
  assert (Hq : Qabs (c / g) <= inject_Z (2 ^ 50)).
  { numeral (inject_Z (2 ^ 50)).
    apply Qabs_Qle_condition in Hc. destruct Hc as [H1 H2].
    apply Qabs_Qle_condition. split.
    - apply Qle_shift_div_l; [exact Pg|]. Lqa.lra.
    - apply Qle_shift_div_r; [exact Pg|]. Lqa.lra. }
  apply fl_bound in Hq; [|reflexivity]. apply round_bound in Hq.
  fold (Js.div c g) in Hq.
  set (n := Js.round (Js.div c g)) in *. clearbody n.
  assert (E : Js.round (Js.div r g) = n).
  { apply resnap; [exact G|exact Hq|].
    pose proof (scaled_abs n (2 ^ 50) g Pg Hq) as Hs.
    apply (fl_err_g _ _ g G) in Hs. fold (Js.mul (inject_Z n) g) in Hs.
    fold r in Hs. numeral (inject_Z (2 ^ 50)). numeral (2 ^ (-53)).
    eapply Qle_trans; [exact Hs|]. Lqa.lra. }
  now rewrite E.
Qed.

(** One coordinate of [Grid.snapToGrid], with a size [g] that is a
    normal binary64 number, offset and coordinate within [2^48] steps
    of zero. *)
Lemma snap_offset_idem (g o x : Q) :
  2 ^ (-1022) <= g -> Qabs x <= 2 ^ 48 * g -> Qabs o <= 2 ^ 48 * g ->
  let r := Js.add (Js.mul (inject_Z (Js.round (Js.div (Js.sub x o) g))) g)
                  o in
  Js.add (Js.mul (inject_Z (Js.round (Js.div (Js.sub r o) g))) g) o = r.
Proof.
  intros G Hx Ho r. pose proof (normal_pos g G) as Pg.
  numeral (2 ^ 48).
  apply Qabs_Qle_condition in Hx. destruct Hx as [Hx1 Hx2].
  apply Qabs_Qle_condition in Ho. destruct Ho as [Ho1 Ho2].
  (* the adjusted coordinate and the number of the grid line *)
  assert (Ha : Qabs (x - o) <= 562949953421312 * g).
  { apply Qabs_Qle_condition. split; Lqa.lra. }
  pose proof (fl_err_g _ _ g G Ha) as Ea. fold (Js.sub x o) in Ea.
  numeral (2 ^ (-53)).
  apply Qabs_Qle_condition in Ha. destruct Ha as [Ha1 Ha2].
  apply Qabs_Qle_condition in Ea. destruct Ea as [Ea1 Ea2].
  assert (Hq : Qabs (Js.sub x o / g) <= inject_Z (2 ^ 49 + 1)).
  { numeral (inject_Z (2 ^ 49 + 1)).
    apply Qabs_Qle_condition. split.
    - apply Qle_shift_div_l; [exact Pg|]. Lqa.lra.
    - apply Qle_shift_div_r; [exact Pg|]. Lqa.lra. }
  apply fl_bound in Hq; [|reflexivity]. apply round_bound in Hq.
  fold (Js.div (Js.sub x o) g) in Hq.
  set (n := Js.round (Js.div (Js.sub x o) g)) in *. clearbody n.
  clear Ha1 Ha2 Ea1 Ea2 Hx1 Hx2.
  (* the snapped coordinate *)
  pose proof (scaled_abs n (2 ^ 49 + 1) g Pg Hq) as Hs.
  pose proof (fl_err_g _ _ g G Hs) as Es.
  fold (Js.mul (inject_Z n) g) in Es.
  set (s := Js.mul (inject_Z n) g) in *.
  numeral (inject_Z (2 ^ 49 + 1)). numeral (2 ^ (-53)).
  apply Qabs_Qle_condition in Hs. destruct Hs as [Hs1 Hs2].
  apply Qabs_Qle_condition in Es. destruct Es as [Es1 Es2].
  assert (Hr : Qabs (s + o) <= 844424930131970 * g).
  { apply Qabs_Qle_condition. split; Lqa.lra. }
  pose proof (fl_err_g _ _ g G Hr) as Er. fold (Js.add s o) in Er.
  fold r in Er. numeral (2 ^ (-53)).
  apply Qabs_Qle_condition in Hr. destruct Hr as [Hr1 Hr2].
  apply Qabs_Qle_condition in Er. destruct Er as [Er1 Er2].
  (* the second pass *)
  assert (Hb : Qabs (r - o) <= 562949953421314 * g).
  { apply Qabs_Qle_condition. split; Lqa.lra. }
  pose proof (fl_err_g _ _ g G Hb) as Eb. fold (Js.sub r o) in Eb.
  numeral (2 ^ (-53)).
  apply Qabs_Qle_condition in Eb. destruct Eb as [Eb1 Eb2].
  assert (E : Js.round (Js.div (Js.sub r o) g) = n).
  { apply resnap; [exact G|lia|].
    apply Qabs_Qle_condition. split; Lqa.lra. }
  now rewrite E.
Qed.

(** ** Deep copies have the content of their source *)

Lemma copyDrawing_id (d : Drawing.t) : copyDrawing d = d.
Proof. destruct d as [? ? ? ? ? ? ? ? p]. now destruct p. Qed.

Lemma deepCopy_id (ds : list Drawing.t) : deepCopy ds = ds.
Proof.
  unfold deepCopy. induction ds as [|d ds IH]; simpl.
  - reflexivity.
  - now rewrite copyDrawing_id, IH.
Qed.

(** ** Minimum-size validation on pointer-up *)

Lemma app_one_neq {A : Type} (l : list A) (x : A) : l ++ [x] <> l.
Proof.
  intro H. apply (f_equal (@List.length A)) in H.
  rewrite length_app in H. simpl in H. lia.
Qed.

Lemma mouseUp_drawings (s : Editor) (p : Drawing.t) :
  isDrawing s = true -> currentPreview s = Some p ->
  drawings (handleMouseUp s) =
    if isValidDrawing p then drawings s ++ [p] else drawings s.
Proof.
  intros Hd Hp. unfold handleMouseUp. rewrite Hd, Hp.
  now destruct (isValidDrawing p).
Qed.

(** A rectangle passes when both exact differences of its coordinates
    exceed [5 + 2^-51] in absolute value: up to there the rounded
    difference is 5. *)
Lemma isValid_rectangle (p : Drawing.t) :
  Drawing.tool p = "rectangle"%string ->
  (isValidDrawing p = true <->
   5 + 2 ^ (-51) < Qabs (Drawing.endX p - Drawing.startX p) /\
   5 + 2 ^ (-51) < Qabs (Drawing.endY p - Drawing.startY p)).
Proof.
  intros Ht. unfold isValidDrawing. rewrite Ht, String.eqb_refl.
  cbv zeta. unfold Js.abs, Js.sub.
  rewrite andb_true_iff, !ltb_true_iff, !Qabs_gt.
  rewrite !fl_gt_5, !fl_lt_m5. reflexivity.
Qed.

(** A circle and a line pass when the rounded sum of the rounded
    squares exceeds [(5 + 2^-51)^2]: up to there its rounded square
    root is 5. *)
Lemma isValid_round (p : Drawing.t) :
  Drawing.tool p = "circle"%string \/ Drawing.tool p = "line"%string ->
  let dx := Js.fl (Drawing.endX p - Drawing.startX p) in
  let dy := Js.fl (Drawing.endY p - Drawing.startY p) in
  (isValidDrawing p = true <->
   (5 + 2 ^ (-51)) * (5 + 2 ^ (-51))
   < Js.fl (Js.fl (dx * dx) + Js.fl (dy * dy))).
Proof.
  intros [Ht|Ht] dx dy; unfold isValidDrawing; rewrite Ht;
    cbn [String.eqb Ascii.eqb Bool.eqb]; cbv zeta;
    rewrite ltb_true_iff, sqrt_gt_5; reflexivity.
Qed.

(** With integer differences below [2^26] no operation rounds, and the
    test is the one of the Euclidean length. *)
Lemma isValid_round_int (p : Drawing.t) (a b : Z) :
  Drawing.tool p = "circle"%string \/ Drawing.tool p = "line"%string ->
  (Z.abs a < 2 ^ 26)%Z -> (Z.abs b < 2 ^ 26)%Z ->
  Drawing.endX p - Drawing.startX p == inject_Z a ->
  Drawing.endY p - Drawing.startY p == inject_Z b ->
  (isValidDrawing p = true <-> (25 < a * a + b * b)%Z).
Proof.
  intros Ht Ha Hb Ea Eb.
  rewrite (isValid_round p Ht). cbv zeta.
  rewrite (fl_comp _ _ Ea), (fl_comp _ _ Eb), !fl_int by lia.
  rewrite (fl_comp (inject_Z a * inject_Z a) (inject_Z (a * a)))
    by (now rewrite inject_Z_mult).
  rewrite (fl_comp (inject_Z b * inject_Z b) (inject_Z (b * b)))
    by (now rewrite inject_Z_mult).
  rewrite !fl_int by nia.
  rewrite (fl_comp (inject_Z (a * a) + inject_Z (b * b))
             (inject_Z (a * a + b * b)))
    by (now rewrite inject_Z_plus).
  rewrite fl_int by nia.
  set (n := (a * a + b * b)%Z). numeral (2 ^ (-51)).
  split; intro C.
  - rewrite Zlt_Qlt. change (inject_Z 25) with 25. Lqa.lra.
  - assert (L : inject_Z 26 <= inject_Z n) by (rewrite <- Zle_Qle; lia).
    change (inject_Z 26) with 26 in L. Lqa.lra.
Qed.

Lemma isValid_exact_rectangle (p : Drawing.t) (w h : Z) :
  Drawing.tool p = "rectangle"%string ->
  (0 <= w)%Z -> (0 <= h)%Z ->
  Qabs (Drawing.endX p - Drawing.startX p) == inject_Z w ->
  Qabs (Drawing.endY p - Drawing.startY p) == inject_Z h ->
  isValidDrawing p = ((5 <? w)%Z && (5 <? h)%Z).
Proof.
  intros Ht Hw Hh Ew Eh.
  assert (R : forall k, (5 + 2 ^ (-51) < inject_Z k) <-> (5 < k)%Z).
  { intro k. numeral (2 ^ (-51)). split; intro C.
    - rewrite Zlt_Qlt. change (inject_Z 5) with 5. Lqa.lra.
    - assert (L : inject_Z 6 <= inject_Z k) by (rewrite <- Zle_Qle; lia).
      change (inject_Z 6) with 6 in L. Lqa.lra. }
  pose proof (isValid_rectangle p Ht) as V.
  rewrite Ew, Eh, !R, <- !Z.ltb_lt, <- andb_true_iff in V.
  destruct (isValidDrawing p), ((5 <? w)%Z && (5 <? h)%Z); try reflexivity.
  - symmetry. now apply V.
  - now apply V.
Qed.




(** ** Snapping is idempotent within 2^48 grid steps *)

Lemma snapToGridCoord_idem (s : Editor) (c : Q) :
  2 ^ (-1022) <= gridSize s -> Qabs c <= 2 ^ 50 * gridSize s ->
  snapToGridCoord s (snapToGridCoord s c) = snapToGridCoord s c.
Proof.
  intros G H. unfold snapToGridCoord. now apply snap_coord_idem.
Qed.

Lemma Grid_snapToGrid_idem (g : Grid.t) (x y : Q) :
  2 ^ (-1022) <= Grid.size g ->
  Qabs (Grid.offsetX g) <= 2 ^ 48 * Grid.size g ->
  Qabs (Grid.offsetY g) <= 2 ^ 48 * Grid.size g ->
  Qabs x <= 2 ^ 48 * Grid.size g ->
  Qabs y <= 2 ^ 48 * Grid.size g ->
  Grid.snapToGrid g (fst (Grid.snapToGrid g x y))
    (snd (Grid.snapToGrid g x y)) = Grid.snapToGrid g x y.
Proof.
  intros G Ox Oy Hx Hy. unfold Grid.snapToGrid.
  destruct (Grid.snapEnabled g); cbn [negb fst snd]; [|reflexivity].
  f_equal.
  - now apply snap_offset_idem.
  - now apply snap_offset_idem.
Qed.

(** C9 (amended).  Snapping is idempotent as long as the rounding
    errors of its binary64 arithmetic stay below half a grid step.  Let
    the grid size be a normal binary64 number (between [2^-1022] and
    [2^970], so that no intermediate result leaves the binary64 range),
    and let the offsets and the coordinates lie within [2^48] grid
    steps of zero: then [Grid.snapToGrid] applied to its own result
    returns that result.  Likewise [snapToGridCoord] returns its own
    result unchanged for every coordinate within [2^50] grid steps of
    zero.  With snapping disabled [Grid.snapToGrid] returns any
    coordinates as they are. *)
Theorem snap_idempotent (g : Grid.t) (s : Editor) (x y c : Q) :
  2 ^ (-1022) <= Grid.size g -> Grid.size g <= 2 ^ 970 ->
  Qabs (Grid.offsetX g) <= 2 ^ 48 * Grid.size g ->
  Qabs (Grid.offsetY g) <= 2 ^ 48 * Grid.size g ->
  Qabs x <= 2 ^ 48 * Grid.size g ->
  Qabs y <= 2 ^ 48 * Grid.size g ->
  2 ^ (-1022) <= gridSize s -> gridSize s <= 2 ^ 970 ->
  Qabs c <= 2 ^ 50 * gridSize s ->
  Grid.snapToGrid g (fst (Grid.snapToGrid g x y))
    (snd (Grid.snapToGrid g x y)) = Grid.snapToGrid g x y /\
  snapToGridCoord s (snapToGridCoord s c) = snapToGridCoord s c /\
  (Grid.snapEnabled g = false ->
   forall x' y', Grid.snapToGrid g x' y' = (x', y')).
Proof.
  intros G _ Ox Oy Hx Hy Gs _ Hc. split; [|split].
  - now apply Grid_snapToGrid_idem.
  - now apply snapToGridCoord_idem.
  - intros D x' y'. unfold Grid.snapToGrid. now rewrite D.
Qed.

Lemma snap_idempotent_witness :
  Grid.snapToGrid pannedGrid 97 (21 # 2) = (107, 17) /\
  Grid.snapToGrid pannedGrid 107 17 = (107, 17) /\
  snapToGridCoord (newCanvasDrawing 800 600)
    (snapToGridCoord (newCanvasDrawing 800 600) (93 # 2)) =
  snapToGridCoord (newCanvasDrawing 800 600) (93 # 2).
Proof.
  split; [vm_compute; reflexivity|]. split; [vm_compute; reflexivity|].
  refine (proj1 (proj2
            (snap_idempotent pannedGrid (newCanvasDrawing 800 600)
               97 (21 # 2) (93 # 2) _ _ _ _ _ _ _ _ _)));
    vm_compute; discriminate.
Defined.

(** The claim as it was stated fails on binary64 numbers.  With grid
    size 20 the coordinate 2^56 + 16 snaps to 2^56 + 32, which snaps to
    2^56 + 48: the products 20 n are rounded to multiples of 16.  With
    grid size 3 and the offset 2^53, x = -242 snaps to -240, which
    snaps to -238. *)
Lemma snap_not_idempotent :
  snapToGridCoord (newCanvasDrawing 800 600) (inject_Z (2 ^ 56 + 16))
  = inject_Z (2 ^ 56 + 32) /\
  snapToGridCoord (newCanvasDrawing 800 600) (inject_Z (2 ^ 56 + 32))
  = inject_Z (2 ^ 56 + 48) /\
  Grid.snapToGrid farGrid (-242 # 1) 0 = (-240 # 1, 0) /\
  Grid.snapToGrid farGrid (-240 # 1) 0 = (-238 # 1, 0).
Proof.
  repeat split; vm_compute; reflexivity.
Qed.

(** ** The history stays within its capacity *)

Lemma len_firstn_le {A : Type} (l : list A) (n : Z) :
  (0 <= n <= Js.len l)%Z -> Js.len (firstn (Z.to_nat n) l) = n.
Proof.
  unfold Js.len. intro H. rewrite length_firstn. lia.
Qed.

Lemma len_app_one {A : Type} (l : list A) (x : A) :
  Js.len (l ++ [x]) = (Js.len l + 1)%Z.
Proof. unfold Js.len. rewrite length_app. simpl. lia. Qed.

Lemma len_tl {A : Type} (l : list A) :
  (0 < Js.len l)%Z -> Js.len (tl l) = (Js.len l - 1)%Z.
Proof. unfold Js.len. destruct l; cbn [tl List.length]; lia. Qed.

(** After the push the cursor is on the last snapshot, whatever redo
    branch there was. *)
Lemma saveState_push_shape (s : Editor) :
  (-1 <= historyIndex s <= Js.len (history s) - 1)%Z ->
  historyIndex (saveState_push s) = (Js.len (history (saveState_push s)) - 1)%Z
  /\ (Js.len (history (saveState_push s)) <= Js.len (history s) + 1)%Z
  /\ (1 <= Js.len (history (saveState_push s)))%Z
  /\ maxHistorySize (saveState_push s) = maxHistorySize s.
Proof.
  intro H. unfold saveState_push, saveState_truncate.
  destruct (historyIndex s <? Js.len (history s) - 1)%Z eqn:E; simpl.
  - apply Z.ltb_lt in E. unfold Js.slice0.
    destruct (historyIndex s + 1 <? 0)%Z eqn:E2;
      [apply Z.ltb_lt in E2; lia|].
    rewrite len_app_one, len_firstn_le by lia. lia.
  - apply Z.ltb_ge in E. rewrite len_app_one. lia.
Qed.

Lemma saveState_HistInv (s : Editor) : HistInv s -> HistInv (saveState s).
Proof.
  intros (Hm & Hl & Hi).
  destruct (saveState_push_shape s Hi) as (Pi & Pl & P1 & Pm).
  unfold HistInv, saveState, saveState_limit.
  set (p := saveState_push s) in *. clearbody p.
  destruct (maxHistorySize p <? Js.len (history p))%Z eqn:E; simpl.
  - apply Z.ltb_lt in E. rewrite len_tl by lia. lia.
  - apply Z.ltb_ge in E. lia.
Qed.

Lemma HistInv_same (a b : Editor) : sameHistory a b -> HistInv b -> HistInv a.
Proof.
  intros (H1 & H2 & H3). unfold HistInv. now rewrite H1, H2, H3.
Qed.

Lemma index_in_range {A : Type} (l : list A) (i : Z) :
  (0 <= i < Js.len l)%Z -> exists x, Js.index l i = Some x.
Proof.
  unfold Js.index, Js.len. intro H.
  destruct (i <? 0)%Z eqn:E; [apply Z.ltb_lt in E; lia|].
  destruct (nth_error l (Z.to_nat i)) eqn:N; [eauto|].
  apply nth_error_None in N. lia.
Qed.

Lemma undo_HistInv (s s' : Editor) :
  HistInv s -> undo s = Some s' -> HistInv s'.
Proof.
  intros (Hm & Hl & Hi) H. unfold undo, canUndo in H.
  destruct (0 <? historyIndex s)%Z eqn:E.
  - apply Z.ltb_lt in E. simpl in H.
    destruct (Js.index (history s) (historyIndex s - 1)); [|discriminate].
    injection H as <-. unfold HistInv. simpl. lia.
  - injection H as <-. now repeat split.
Qed.

Lemma redo_HistInv (s s' : Editor) :
  HistInv s -> redo s = Some s' -> HistInv s'.
Proof.
  intros (Hm & Hl & Hi) H. unfold redo, canRedo in H.
  destruct (historyIndex s <? Js.len (history s) - 1)%Z eqn:E.
  - apply Z.ltb_lt in E. simpl in H.
    destruct (Js.index (history s) (historyIndex s + 1)); [|discriminate].
    injection H as <-. unfold HistInv. simpl. lia.
  - injection H as <-. now repeat split.
Qed.

Lemma perform_HistInv (a : Action) (s s' : Editor) :
  HistInv s -> perform a s = Some s' -> HistInv s'.
Proof.
  intros Inv H. destruct a; simpl in H;
    try (injection H as <-).
  - (* MouseDown *)
    unfold handleMouseDown.
    destruct (negb _); [|exact Inv].
    apply (HistInv_same _ (saveState
             (set_isDrawing (set_start s (pointerCoord s px)
                                (pointerCoord s py)) true))).
    + now repeat split.
    + apply saveState_HistInv. exact Inv.
  - unfold handleMouseMove.
    destruct (isDrawing s), (currentPreview s); exact Inv.
  - unfold handleMouseUp.
    destruct (isDrawing s), (currentPreview s);
      try destruct (isValidDrawing t); exact Inv.
  - unfold handleMouseLeave. destruct (isDrawing s); exact Inv.
  - unfold handleWheel. destruct (Js.neqb _ _); exact Inv.
  - exact Inv.
  - unfold clear. apply saveState_HistInv. exact Inv.
  - unfold zoomIn. destruct (Js.neqb _ _); exact Inv.
  - unfold zoomOut. destruct (Js.neqb _ _); exact Inv.
  - unfold resetZoom. destruct (Js.neqb _ _); exact Inv.
  - unfold fitToScreen. destruct (drawings s); [exact Inv|].
    destruct (boundingBox _) as [[?|] [?|] [?|] [?|]]; try exact Inv.
    destruct (_ && _); exact Inv.
  - now apply (undo_HistInv s).
  - now apply (redo_HistInv s).
  - exact Inv.
  - destruct Inv as (Hm & _). unfold HistInv, destroy. simpl.
    unfold Js.len. simpl. lia.
Qed.

Lemma run_HistInv (acts : list Action) (s s' : Editor) :
  HistInv s -> run acts s = Some s' -> HistInv s'.
Proof.
  revert s. induction acts as [|a acts IH]; intros s Inv H; simpl in H.
  - now injection H as <-.
  - destruct (perform a s) as [s1|] eqn:E; [|discriminate].
    apply (IH s1); [|exact H]. now apply (perform_HistInv a s).
Qed.

Lemma reachable_HistInv (s : Editor) : reachable s -> HistInv s.
Proof.
  intros (w & h & acts & H).
  apply (run_HistInv acts (newCanvasDrawing w h)); [|exact H].
  unfold HistInv, Js.len. simpl. lia.
Qed.

(** X2.  In a reachable state [undo] and [redo] find their snapshot:
    the [JSON.parse] of the source never sees [undefined]. *)
Lemma undo_redo_total (s : Editor) :
  reachable s -> (exists u, undo s = Some u) /\ (exists r, redo s = Some r).
Proof.
  intro R. destruct (reachable_HistInv s R) as (Hm & Hl & Hi).
  split.
  - unfold undo, canUndo.
    destruct (0 <? historyIndex s)%Z eqn:E; [|eauto].
    apply Z.ltb_lt in E. simpl.
    destruct (index_in_range (history s) (historyIndex s - 1)) as [x Hx];
      [lia|]. rewrite Hx. eauto.
  - unfold redo, canRedo.
    destruct (historyIndex s <? Js.len (history s) - 1)%Z eqn:E; [|eauto].
    apply Z.ltb_lt in E. simpl.
    destruct (index_in_range (history s) (historyIndex s + 1)) as [x Hx];
      [lia|]. rewrite Hx. eauto.
Qed.

(** C8.  [saveState], called in a state that satisfies the history
    invariant (every reachable state does, and the handlers call it on
    such states), leaves at most [maxHistorySize = 50] snapshots.  When
    the push brings the history above the capacity, the oldest snapshot
    is dropped and [historyIndex] goes down by one; [canUndo()] and
    [canRedo()] answer what they would answer without the eviction. *)
Theorem saveState_bounded (s : Editor) :
  HistInv s ->
  maxHistorySize (saveState s) = 50%Z /\
  (Js.len (history (saveState s)) <= maxHistorySize (saveState s))%Z /\
  ((maxHistorySize s < Js.len (history (saveState_push s)))%Z ->
   history (saveState s) = tl (history (saveState_push s)) /\
   historyIndex (saveState s) = (historyIndex (saveState_push s) - 1)%Z) /\
  ((Js.len (history (saveState_push s)) <= maxHistorySize s)%Z ->
   history (saveState s) = history (saveState_push s) /\
   historyIndex (saveState s) = historyIndex (saveState_push s)) /\
  canUndo (saveState s) = canUndo (saveState_push s) /\
  canRedo (saveState s) = canRedo (saveState_push s).
Proof.
  intros (Hm & Hl & Hi).
  destruct (saveState_push_shape s Hi) as (Pi & Pl & P1 & Pm).
  unfold saveState, saveState_limit, canUndo, canRedo.
  set (p := saveState_push s) in *. clearbody p.
  destruct (maxHistorySize p <? Js.len (history p))%Z eqn:E; simpl.
  - apply Z.ltb_lt in E.
    rewrite len_tl by lia.
    refine (conj _ (conj _ (conj _ (conj _ (conj _ _))))); try lia.
    intros _. split; reflexivity.
  - apply Z.ltb_ge in E.
    refine (conj _ (conj _ (conj _ (conj _ (conj _ _)))));
      try lia; try reflexivity.
    intros _. split; reflexivity.
Qed.

Lemma fullHistory_HistInv : HistInv fullHistory.
Proof. unfold HistInv. vm_compute. repeat split; discriminate. Qed.

Lemma saveState_bounded_witness :
  HistInv fullHistory /\
  Js.len (history fullHistory) = 50%Z /\
  Js.len (history (saveState_push fullHistory)) = 51%Z /\
  Js.len (history (saveState fullHistory)) = 50%Z /\
  historyIndex (saveState fullHistory) = 49%Z /\
  canUndo (saveState fullHistory) = canUndo (saveState_push fullHistory).
Proof.
  split; [exact fullHistory_HistInv|].
  split; [reflexivity|]. split; [reflexivity|].
  split; [reflexivity|]. split; [reflexivity|].
  apply (saveState_bounded fullHistory fullHistory_HistInv).
Defined.

(** ** Zoom bounds *)

Lemma handleWheel_zoom (s : Editor) (dy : Q) :
  zoomInRange (zoom s) -> zoomInRange (zoom (handleWheel s dy)).
Proof.
  intro R. unfold handleWheel.
  destruct (Js.neqb _ _); [|exact R]. simpl. split.
  - apply max_ge_l.
  - apply max_lub; [discriminate|apply min_le_l].
Qed.

Lemma zoomIn_zoom (s : Editor) :
  zoomInRange (zoom s) -> zoomInRange (zoom (zoomIn s)).
Proof.
  intros [Lo Hi]. unfold zoomIn.
  destruct (Js.neqb _ _); [|now split]. simpl. split.
  - apply min_glb; [discriminate|].
    apply Qle_trans with (zoom s); [exact Lo|].
    setoid_replace (zoom s) with (zoom s * 1) at 1 by ring.
    apply Qmult_le_l; [|discriminate].
    apply Qlt_le_trans with (1 # 10); [reflexivity|exact Lo].
  - apply min_le_l.
Qed.

Lemma zoomOut_zoom (s : Editor) :
  zoomInRange (zoom s) -> zoomInRange (zoom (zoomOut s)).
Proof.
  intros [Lo Hi]. unfold zoomOut.
  destruct (Js.neqb _ _); [|now split]. simpl. split.
  - apply max_ge_l.
  - apply max_lub; [discriminate|].
    apply Qle_trans with (zoom s); [|exact Hi].
    unfold Qdiv.
    setoid_replace (zoom s) with (zoom s * 1) at 2 by ring.
    apply Qmult_le_l; [|discriminate].
    apply Qlt_le_trans with (1 # 10); [reflexivity|exact Lo].
Qed.

Lemma resetZoom_zoom (s : Editor) :
  zoomInRange (zoom s) -> zoomInRange (zoom (resetZoom s)).
Proof.
  intro R. unfold resetZoom.
  destruct (Js.neqb _ _); [|exact R]. simpl. split; discriminate.
Qed.

(** The wheel and the three zoom buttons keep the zoom factor within
    [0.1, 5]; [fitToScreen] keeps it at most 5. *)
Lemma zoom_controls_keep_range (s : Editor) (dy : Q) :
  zoomInRange (zoom s) ->
  zoomInRange (zoom (handleWheel s dy)) /\
  zoomInRange (zoom (zoomIn s)) /\
  zoomInRange (zoom (zoomOut s)) /\
  zoomInRange (zoom (resetZoom s)) /\
  zoom (fitToScreen s) <= 5.
Proof.
  intro R. split; [now apply handleWheel_zoom|].
  split; [now apply zoomIn_zoom|].
  split; [now apply zoomOut_zoom|].
  split; [now apply resetZoom_zoom|].
  destruct R as [_ Hi]. unfold fitToScreen.
  destruct (drawings s); [exact Hi|].
  destruct (boundingBox _) as [[?|] [?|] [?|] [?|]]; try exact Hi.
  destruct (_ && _); [|exact Hi].
  simpl. apply min_le_r.
Qed.

(** C7 (the code departs from the claim).  After [wideLineSession] the
    zoom factor is 0.1, within [0.1, 5]; [fitToScreen] then sets it to
    800 / 9000 = 4/45, below 0.1: its [Math.min(scaleX, scaleY, 5)] has
    no lower clamp. *)
Theorem fitToScreen_below_minimum :
  exists s,
    run wideLineSession (newCanvasDrawing 1000 1000) = Some s /\
    zoomInRange (zoom s) /\
    zoom (fitToScreen s) == 4 # 45 /\
    zoom (fitToScreen s) < 1 # 10.
Proof.
  eexists. split; [vm_compute; reflexivity|].
  split; [split; vm_compute; discriminate|].
  split; vm_compute; reflexivity.
Qed.

(** ** Undo and redo *)

(** C1 (the code departs from the claim).  [saveState] runs on
    pointer-down, before the stroke, and nothing records the state
    after it.  After one stroke the history is [[ [] ]] with the cursor
    at 0: [undo] does nothing and the committed line stays.  After two
    strokes [undo] changes [drawings] from [[lineA; lineB]] to [[]],
    and [redo] then gives [[lineA]], not the content before the
    undo. *)
Theorem redo_does_not_restore :
  (exists s,
     run oneStroke (newCanvasDrawing 800 600) = Some s /\
     drawings s = [lineA] /\
     canUndo s = false /\
     undo s = Some s) /\
  (exists s u r,
     run twoStrokes (newCanvasDrawing 800 600) = Some s /\
     drawings s = [lineA; lineB] /\
     undo s = Some u /\ drawings u = [] /\
     redo u = Some r /\ drawings r = [lineA] /\
     drawings r <> drawings s).
Proof.
  split.
  - eexists. split; [vm_compute; reflexivity|].
    repeat split.
  - do 3 eexists. split; [vm_compute; reflexivity|].
    split; [reflexivity|].
    split; [vm_compute; reflexivity|].
    split; [reflexivity|].
    split; [vm_compute; reflexivity|].
    split; [reflexivity|].
    simpl. discriminate.
Qed.

(** C2 (the code departs from the claim).  With N = 1: on a fresh
    editor one commit followed by one undo leaves the committed line in
    [drawings] (the scene before the commit was empty); after a first
    stroke, one more commit followed by one undo empties [drawings],
    although the scene before that commit was [[lineA]]. *)
Theorem commits_then_undos_differ :
  (exists s,
     run (oneStroke ++ undos 1) (newCanvasDrawing 800 600) = Some s /\
     drawings (newCanvasDrawing 800 600) = [] /\
     drawings s = [lineA]) /\
  (exists s0 s,
     run oneStroke (newCanvasDrawing 800 600) = Some s0 /\
     drawings s0 = [lineA] /\
     run (stroke 0 20 100 20 defaultDom ++ undos 1) s0 = Some s /\
     drawings s = []).
Proof.
  split.
  - eexists. split; [vm_compute; reflexivity|]. split; reflexivity.
  - do 2 eexists. split; [vm_compute; reflexivity|].
    split; [reflexivity|].
    split; [vm_compute; reflexivity|]. reflexivity.
Qed.

(** ** Undo and redo after a stroke, in general *)

(** [saveState] leaves the cursor on the last snapshot, which is a copy
    of the current scene. *)
Lemma saveState_top (s : Editor) :
  HistInv s ->
  historyIndex (saveState s) = (Js.len (history (saveState s)) - 1)%Z /\
  Js.index (history (saveState s)) (historyIndex (saveState s))
    = Some (drawings s) /\
  drawings (saveState s) = drawings s /\
  isDrawing (saveState s) = isDrawing s /\
  currentTool (saveState s) = currentTool s /\
  startX (saveState s) = startX s /\
  startY (saveState s) = startY s.
Proof.
  intros (Hm & Hl & Hi).
  assert (T : exists h0,
             history (saveState_push s) = h0 ++ [drawings s] /\
             historyIndex (saveState_push s) = Js.len h0 /\
             (Js.len h0 <= 50)%Z /\
             maxHistorySize (saveState_push s) = 50%Z /\
             drawings (saveState_push s) = drawings s /\
             isDrawing (saveState_push s) = isDrawing s /\
             currentTool (saveState_push s) = currentTool s /\
             startX (saveState_push s) = startX s /\
             startY (saveState_push s) = startY s).
  { unfold saveState_push, saveState_truncate.
    destruct (historyIndex s <? Js.len (history s) - 1)%Z eqn:E; simpl.
    - apply Z.ltb_lt in E. unfold Js.slice0.
      destruct (historyIndex s + 1 <? 0)%Z eqn:E2;
        [apply Z.ltb_lt in E2; lia|].
      eexists. rewrite deepCopy_id. split; [reflexivity|].
      rewrite len_firstn_le by lia. repeat split; lia.
    - apply Z.ltb_ge in E.
      eexists. rewrite deepCopy_id. split; [reflexivity|].
      repeat split; lia. }
  destruct T as (h0 & Hh & Hx & Hb & Hmx & Hd & Hdr & Ht & Hsx & Hsy).
  unfold saveState, saveState_limit.
  set (p := saveState_push s) in *. clearbody p.
  rewrite Hh, Hmx, len_app_one.
  assert (Top : forall l : list (list Drawing.t),
             Js.index (l ++ [drawings s]) (Js.len l) = Some (drawings s)).
  { intro l. unfold Js.index, Js.len.
    destruct (Z.of_nat (List.length l) <? 0)%Z eqn:E;
      [apply Z.ltb_lt in E; lia|].
    rewrite Nat2Z.id, nth_error_app2, Nat.sub_diag by lia. reflexivity. }
  destruct (50 <? Js.len h0 + 1)%Z eqn:E; simpl.
  - apply Z.ltb_lt in E.
    destruct h0 as [|x h0]; [unfold Js.len in E; simpl in E; lia|].
    simpl. rewrite Hx, len_app_one.
    assert (L : Js.len (x :: h0) = (Js.len h0 + 1)%Z)
      by (unfold Js.len; cbn [List.length]; lia).
    rewrite L. replace (Js.len h0 + 1 - 1)%Z with (Js.len h0) by lia.
    rewrite Top. repeat split; try assumption; try lia.
  - rewrite Hh, Hx, len_app_one, Top. repeat split; try assumption; try lia.
Qed.

Lemma handleMouseDown_drawing (s : Editor) (px py : Q) (dom : DomInputs) :
  currentTool s <> "select"%string ->
  handleMouseDown s px py dom =
  let s2 := saveState
              (set_isDrawing
                 (set_start s (pointerCoord s px) (pointerCoord s py)) true) in
  set_currentPreview s2
    (Some (Drawing.mk (currentTool s2) (startX s2) (startY s2)
             (startX s2) (startY s2)
             (strokeColor dom) (strokeWidth dom) (fillColor dom)
             (getCurrentToolProperties s2 dom))).
Proof.
  intro T. apply String.eqb_neq in T. unfold handleMouseDown.
  cbn [currentTool set_start]. rewrite T. reflexivity.
Qed.

Lemma handleMouseMove_drawing (s : Editor) (p : Drawing.t) (x y : Q) :
  isDrawing s = true -> currentPreview s = Some p ->
  handleMouseMove s x y =
  set_currentPreview s
    (Some (Drawing.set_end p (pointerCoord s x) (pointerCoord s y))).
Proof. intros D P. unfold handleMouseMove. now rewrite D, P. Qed.

Lemma handleMouseUp_valid (s : Editor) (p : Drawing.t) :
  isDrawing s = true -> currentPreview s = Some p ->
  isValidDrawing p = true ->
  handleMouseUp s =
  set_isDrawing
    (set_currentPreview (set_drawings s (drawings s ++ [p])) None) false.
Proof. intros D P V. unfold handleMouseUp. now rewrite D, P, V. Qed.

Lemma undo_available (s : Editor) (x : list Drawing.t) :
  canUndo s = true ->
  Js.index (history s) (historyIndex s - 1) = Some x ->
  undo s = Some (set_drawings (set_historyIndex s (historyIndex s - 1)) x).
Proof.
  intros C I. unfold undo. rewrite C.
  cbn [history historyIndex set_historyIndex]. rewrite I.
  now rewrite deepCopy_id.
Qed.

Lemma redo_available (s : Editor) (x : list Drawing.t) :
  canRedo s = true ->
  Js.index (history s) (historyIndex s + 1) = Some x ->
  redo s = Some (set_drawings (set_historyIndex s (historyIndex s + 1)) x).
Proof.
  intros C I. unfold redo. rewrite C.
  cbn [history historyIndex set_historyIndex]. rewrite I.
  now rewrite deepCopy_id.
Qed.


(** ** Layers: a refused [addShapeToLayer] changes nothing *)

Lemma addShapeToLayer_false_iff (m : LayerManager) (shape : Shape)
  (layerId : option string) :
  fst (addShapeToLayer m shape layerId) = false <->
  targetLayer m layerId = None \/
  exists l, targetLayer m layerId = Some l /\ Layer.locked l = true.
Proof.
  unfold addShapeToLayer.
  destruct (targetLayer m layerId) as [l|].
  - destruct (Layer.locked l) eqn:L; simpl.
    + split; [intros _; right; eauto|reflexivity].
    + destruct (LayerMap.get _ _); simpl;
        (split; [discriminate|]);
        intros [H|(l' & H & H')]; try discriminate;
        injection H as <-; congruence.
  - simpl. split; [now left|reflexivity].
Qed.

(** C10.  When [addShapeToLayer(shape, layerId)] returns [false] (the
    resolved target layer is missing or locked), the manager is left
    exactly as it was: the layers and their shape lists, every shape's
    [layer] field, and so the layers that own [shape]. *)
Theorem addShapeToLayer_refused_unchanged (m : LayerManager) (shape : Shape)
  (layerId : option string) :
  fst (addShapeToLayer m shape layerId) = false ->
  snd (addShapeToLayer m shape layerId) = m /\
  layers (snd (addShapeToLayer m shape layerId)) = layers m /\
  (forall x, shapeLayer (snd (addShapeToLayer m shape layerId)) x =
             shapeLayer m x) /\
  ownersOf (snd (addShapeToLayer m shape layerId)) shape = ownersOf m shape /\
  (targetLayer m layerId = None \/
   exists l, targetLayer m layerId = Some l /\ Layer.locked l = true).
Proof.
  intro H.
  assert (E : snd (addShapeToLayer m shape layerId) = m).
  { unfold addShapeToLayer in *.
    destruct (targetLayer m layerId) as [l|]; [|reflexivity].
    destruct (negb (Layer.locked l)); [|reflexivity].
    destruct (LayerMap.get _ _); discriminate H. }
  rewrite E. repeat split; try reflexivity.
  now apply (addShapeToLayer_false_iff m shape layerId).
Qed.

Lemma addShapeToLayer_refused_unchanged_witness :
  fst (addShapeToLayer lockedSecondLayer 7%nat (Some "layer_1"%string))
    = false /\
  map Layer.id (ownersOf lockedSecondLayer 7%nat) = ["layer_0"%string] /\
  snd (addShapeToLayer lockedSecondLayer 7%nat (Some "layer_1"%string))
    = lockedSecondLayer.
Proof.
  split; [reflexivity|]. split; [reflexivity|].
  apply (addShapeToLayer_refused_unchanged lockedSecondLayer 7%nat
           (Some "layer_1"%string) eq_refl).
Defined.

(** ** Layers: where the code leaves the specification *)

(** C3 (the code departs from the claim).  [moveShapeToLayer] removes
    the shape from every layer before [addShapeToLayer] looks at the
    target.  After [addShapeToLayer(shape)] put shape 7 on the default
    layer, [moveShapeToLayer(shape, 'layer_9')] (no such layer) returns
    [false] and shape 7 is a member of no layer, its [layer] field
    [null]. *)
Theorem moveShapeToLayer_orphans_shape :
  let m := execAll [AddShapeToLayer 7%nat None] (newLayerManager untouched) in
  map Layer.id (ownersOf m 7%nat) = ["layer_0"%string] /\
  fst (moveShapeToLayer m 7%nat (Some "layer_9"%string)) = false /\
  ownersOf (snd (moveShapeToLayer m 7%nat (Some "layer_9"%string))) 7%nat
    = [] /\
  ownersOf (execAll [AddShapeToLayer 7%nat None;
                     MoveShapeToLayer 7%nat (Some "layer_9"%string)]
              (newLayerManager untouched)) 7%nat = [] /\
  shapeLayer (snd (moveShapeToLayer m 7%nat (Some "layer_9"%string))) 7%nat
    = RefNull.
Proof. repeat split. Qed.

(** C4 (the code departs from the claim).  Once the default layer has
    been deleted, [getDefaultLayer()] is [undefined]; deleting a layer
    that holds a shape then calls [addShape] on [undefined].  In
    [defaultDeleted] two layers exist, [layer_1] holds shape 7, and
    [deleteLayer('layer_1')] throws: the layer is still in the map and
    in the order, nothing was moved. *)
Theorem deleteLayer_throws_without_default :
  map Layer.id (layers defaultDeleted) = ["layer_1"; "layer_2"]%string /\
  map Layer.id (ownersOf defaultDeleted 7%nat) = ["layer_1"%string] /\
  getDefaultLayer defaultDeleted = None /\
  deleteLayer defaultDeleted "layer_1" = ThrownTypeError defaultDeleted /\
  layerOrder (stateOf (deleteLayer defaultDeleted "layer_1"))
    = ["layer_1"; "layer_2"]%string.
Proof. repeat split. Qed.

(** C5 (the code departs from the claim).  [setLayerOpacity(id, 0)]
    stores opacity 0; the [Layer] constructor that [importLayers] calls
    reads [options.opacity || 1.0], so the exported 0 comes back as 1.
    (In the same way an empty colour string comes back as
    ['#000000'].) *)
Theorem import_export_resets_opacity :
  map Layer.opacity (layers transparentDefault) = [0] /\
  map ld_opacity
    (match data_layers (exportLayers transparentDefault) with
     | Some l => l
     | None => []
     end) = [0] /\
  map Layer.opacity
    (layers (importLayers transparentDefault
               (exportLayers transparentDefault))) = [1] /\
  map Layer.opacity
    (layers (importLayers (newLayerManager untouched)
               (exportLayers transparentDefault))) = [1] /\
  map Layer.color
    (layers (importLayers (newLayerManager untouched)
               (exportLayers
                  (execAll [SetLayerColor "layer_0" ""]
                     (newLayerManager untouched)))))
    = ["#000000"%string].
Proof. repeat split. Qed.

(** ** Layers: a shape is never in two layers *)

Lemma get_id (k : string) (ls : LayerMap.t) (l : Layer.t) :
  LayerMap.get k ls = Some l -> Layer.id l = k.
Proof.
  unfold LayerMap.get. intro H. apply find_some in H.
  destruct H as [_ H]. apply String.eqb_eq in H. now symmetry.
Qed.

Lemma get_cons (k : string) (l : Layer.t) (ls : LayerMap.t) :
  LayerMap.get k (l :: ls) =
  if String.eqb k (Layer.id l) then Some l else LayerMap.get k ls.
Proof. reflexivity. Qed.

Lemma occurrences_cons (l : Layer.t) (ls : LayerMap.t) (x : Shape) :
  occurrences (l :: ls) x = (cnt l x + occurrences ls x)%nat.
Proof. reflexivity. Qed.

Lemma occurrences_app (a b : LayerMap.t) (x : Shape) :
  occurrences (a ++ b) x = (occurrences a x + occurrences b x)%nat.
Proof.
  unfold occurrences. now rewrite map_app, list_sum_app.
Qed.

Lemma occurrences_set_new (v : Layer.t) (ls : LayerMap.t) (x : Shape) :
  LayerMap.get (Layer.id v) ls = None ->
  occurrences (LayerMap.set v ls) x = (occurrences ls x + cnt v x)%nat.
Proof.
  induction ls as [|l ls IH]; intro H.
  - simpl. unfold occurrences. simpl. lia.
  - rewrite get_cons in H. simpl.
    destruct (String.eqb (Layer.id v) (Layer.id l)); [discriminate|].
    rewrite !occurrences_cons, IH by exact H. lia.
Qed.

Lemma occurrences_set_old (v l : Layer.t) (ls : LayerMap.t) (x : Shape) :
  LayerMap.get (Layer.id v) ls = Some l ->
  (occurrences (LayerMap.set v ls) x + cnt l x =
   occurrences ls x + cnt v x)%nat.
Proof.
  induction ls as [|l0 ls IH]; intro H.
  - discriminate.
  - rewrite get_cons in H. simpl.
    destruct (String.eqb (Layer.id v) (Layer.id l0)).
    + injection H as <-. rewrite !occurrences_cons. lia.
    + rewrite !occurrences_cons. specialize (IH H). lia.
Qed.

Lemma occurrences_delete (k : string) (l : Layer.t) (ls : LayerMap.t)
  (x : Shape) :
  LayerMap.get k ls = Some l ->
  (occurrences (LayerMap.delete k ls) x + cnt l x = occurrences ls x)%nat.
Proof.
  induction ls as [|l0 ls IH]; intro H.
  - discriminate.
  - rewrite get_cons in H. simpl.
    destruct (String.eqb k (Layer.id l0)).
    + injection H as <-. rewrite occurrences_cons. lia.
    + rewrite !occurrences_cons. specialize (IH H). lia.
Qed.

Lemma get_set_other (k : string) (v : Layer.t) (ls : LayerMap.t) :
  Layer.id v <> k ->
  LayerMap.get k (LayerMap.set v ls) = LayerMap.get k ls.
Proof.
  intro Hk. induction ls as [|l ls IH]; cbn [LayerMap.set].
  - rewrite get_cons.
    destruct (String.eqb k (Layer.id v)) eqn:E; [|reflexivity].
    apply String.eqb_eq in E. congruence.
  - destruct (String.eqb (Layer.id v) (Layer.id l)) eqn:E.
    + apply String.eqb_eq in E. rewrite !get_cons.
      rewrite <- E.
      destruct (String.eqb k (Layer.id v)) eqn:E2; [|reflexivity].
      apply String.eqb_eq in E2. congruence.
    + rewrite !get_cons, IH. reflexivity.
Qed.

(** An update that keeps the shape list keeps the occurrences. *)
Lemma occurrences_set_same (v l : Layer.t) (ls : LayerMap.t) (x : Shape) :
  LayerMap.get (Layer.id v) ls = Some l ->
  Layer.shapes v = Layer.shapes l ->
  occurrences (LayerMap.set v ls) x = occurrences ls x.
Proof.
  intros H E. pose proof (occurrences_set_old v l ls x H) as P.
  unfold cnt in P. rewrite E in P. lia.
Qed.

Lemma updateIndicesFrom_occurrences (order : list string) (i : Z)
  (ls : LayerMap.t) (x : Shape) :
  occurrences (updateIndicesFrom order i ls) x = occurrences ls x.
Proof.
  revert i ls. induction order as [|k order IH]; intros i ls; simpl.
  - reflexivity.
  - rewrite IH. destruct (LayerMap.get k ls) as [l|] eqn:E; [|reflexivity].
    apply (occurrences_set_same _ l); [|reflexivity].
    simpl. now rewrite (get_id _ _ _ E).
Qed.

Lemma includes_cnt (x : Shape) (l : list Shape) :
  includes x l = false -> count_occ Nat.eq_dec l x = 0%nat.
Proof.
  unfold includes. intro H. apply count_occ_not_In.
  intro I. assert (T : existsb (Nat.eqb x) l = true).
  { apply existsb_exists. exists x. split; [exact I|apply Nat.eqb_refl]. }
  congruence.
Qed.

Lemma cnt_removeFirst_same (x : Shape) (l : list Shape) :
  count_occ Nat.eq_dec (Js.removeFirst Nat.eqb x l) x =
  pred (count_occ Nat.eq_dec l x).
Proof.
  induction l as [|y l IH]; simpl; [reflexivity|].
  destruct (Nat.eqb x y) eqn:E.
  - apply Nat.eqb_eq in E. subst y.
    destruct (Nat.eq_dec x x); [reflexivity|congruence].
  - apply Nat.eqb_neq in E. simpl.
    destruct (Nat.eq_dec y x); [congruence|exact IH].
Qed.

Lemma cnt_removeFirst_other (x y : Shape) (l : list Shape) :
  x <> y ->
  count_occ Nat.eq_dec (Js.removeFirst Nat.eqb x l) y =
  count_occ Nat.eq_dec l y.
Proof.
  intro N. induction l as [|z l IH]; simpl; [reflexivity|].
  destruct (Nat.eqb x z) eqn:E.
  - apply Nat.eqb_eq in E. subst z.
    destruct (Nat.eq_dec x y); [congruence|reflexivity].
  - simpl. destruct (Nat.eq_dec z y); now rewrite IH.
Qed.

Lemma removeShape_cnt_same (l : Layer.t) (x : Shape) (h : ShapeStore) :
  cnt (fst (Layer.removeShape l x h)) x = pred (cnt l x).
Proof.
  unfold Layer.removeShape, cnt.
  destruct (includes x (Layer.shapes l)) eqn:E; simpl.
  - apply cnt_removeFirst_same.
  - now rewrite (includes_cnt _ _ E).
Qed.

Lemma removeShape_cnt_other (l : Layer.t) (x y : Shape) (h : ShapeStore) :
  x <> y -> cnt (fst (Layer.removeShape l x h)) y = cnt l y.
Proof.
  intro N. unfold Layer.removeShape, cnt.
  destruct (includes x (Layer.shapes l)); simpl; [|reflexivity].
  now apply cnt_removeFirst_other.
Qed.

Lemma removeShape_id (l : Layer.t) (x : Shape) (h : ShapeStore) :
  Layer.id (fst (Layer.removeShape l x h)) = Layer.id l.
Proof.
  unfold Layer.removeShape. now destruct (includes x (Layer.shapes l)).
Qed.

Lemma removeShape_locked (l : Layer.t) (x : Shape) (h : ShapeStore) :
  Layer.locked (fst (Layer.removeShape l x h)) = Layer.locked l.
Proof.
  unfold Layer.removeShape. now destruct (includes x (Layer.shapes l)).
Qed.

Lemma removeFromEach_same (x : Shape) (ls : LayerMap.t) (h : ShapeStore) :
  (occurrences (fst (removeFromEach x ls h)) x <= pred (occurrences ls x))%nat.
Proof.
  revert h. induction ls as [|l ls IH]; intro h; simpl.
  - unfold occurrences. simpl. lia.
  - rewrite !occurrences_cons, removeShape_cnt_same.
    specialize (IH (snd (Layer.removeShape l x h))). lia.
Qed.

Lemma removeFromEach_other (x y : Shape) (ls : LayerMap.t) (h : ShapeStore) :
  x <> y ->
  occurrences (fst (removeFromEach x ls h)) y = occurrences ls y.
Proof.
  intro N. revert h. induction ls as [|l ls IH]; intro h; simpl.
  - reflexivity.
  - rewrite !occurrences_cons, removeShape_cnt_other by exact N.
    now rewrite IH.
Qed.

Lemma removeFromEach_get (x : Shape) (k : string) (ls : LayerMap.t)
  (h : ShapeStore) (l : Layer.t) :
  LayerMap.get k ls = Some l ->
  exists l1, LayerMap.get k (fst (removeFromEach x ls h)) = Some l1.
Proof.
  revert h. induction ls as [|l0 ls IH]; intros h H; simpl.
  - discriminate.
  - rewrite get_cons in *. rewrite removeShape_id.
    destruct (String.eqb k (Layer.id l0)); [eauto|].
    now apply IH.
Qed.

Lemma removeShapeFromAllLayers_exclusive (m : LayerManager) (x : Shape) :
  exclusive m ->
  exclusive (removeShapeFromAllLayers m x) /\
  occurrences (layers (removeShapeFromAllLayers m x)) x = 0%nat.
Proof.
  intro Ex. unfold removeShapeFromAllLayers. simpl. split.
  - intro y. simpl. destruct (Nat.eq_dec x y) as [<-|N].
    + pose proof (removeFromEach_same x (layers m) (shapeLayer m)).
      specialize (Ex x). lia.
    + rewrite removeFromEach_other by exact N. apply Ex.
  - pose proof (removeFromEach_same x (layers m) (shapeLayer m)).
    specialize (Ex x). lia.
Qed.

Lemma addShape_id (l : Layer.t) (x : Shape) (h : ShapeStore) :
  Layer.id (fst (Layer.addShape l x h)) = Layer.id l.
Proof.
  unfold Layer.addShape. now destruct (negb (includes x (Layer.shapes l))).
Qed.

Lemma count_occ_snoc (l : list Shape) (x y : Shape) :
  count_occ Nat.eq_dec (l ++ [x]) y =
  (count_occ Nat.eq_dec l y + if Nat.eq_dec x y then 1 else 0)%nat.
Proof.
  rewrite count_occ_app. simpl. now destruct (Nat.eq_dec x y).
Qed.

(** [addShape] adds at most one occurrence, of the shape it is given. *)
Lemma addShape_cnt (l : Layer.t) (x y : Shape) (h : ShapeStore) :
  (cnt (fst (Layer.addShape l x h)) y <=
   cnt l y + if Nat.eq_dec x y then 1 else 0)%nat.
Proof.
  unfold Layer.addShape, cnt.
  destruct (includes x (Layer.shapes l)) eqn:E; simpl.
  - lia.
  - rewrite count_occ_snoc. lia.
Qed.

Lemma addShapes_id (shs : list Shape) (d : Layer.t) (h : ShapeStore) :
  Layer.id (fst (addShapes d shs h)) = Layer.id d.
Proof.
  unfold addShapes. revert d h.
  induction shs as [|x shs IH]; intros d h; simpl; [reflexivity|].
  rewrite <- (addShape_id d x h).
  destruct (Layer.addShape d x h) as [d1 h1] eqn:E. simpl. apply IH.
Qed.

Lemma addShapes_cnt (shs : list Shape) (d : Layer.t) (h : ShapeStore)
  (y : Shape) :
  (cnt (fst (addShapes d shs h)) y <=
   cnt d y + count_occ Nat.eq_dec shs y)%nat.
Proof.
  unfold addShapes. revert d h.
  induction shs as [|x shs IH]; intros d h; simpl; [lia|].
  pose proof (addShape_cnt d x y h) as A.
  destruct (Layer.addShape d x h) as [d1 h1] eqn:E. simpl in *.
  specialize (IH d1 h1).
  destruct (Nat.eq_dec x y); lia.
Qed.

Lemma addShapeToLayer_exclusive (m : LayerManager) (x : Shape)
  (k : option string) :
  exclusive m -> exclusive (snd (addShapeToLayer m x k)).
Proof.
  intro Ex. unfold addShapeToLayer.
  destruct (targetLayer m k) as [l|]; [|exact Ex].
  destruct (negb (Layer.locked l)); [|exact Ex].
  destruct (removeShapeFromAllLayers_exclusive m x Ex) as [Ex1 Z1].
  set (m1 := removeShapeFromAllLayers m x) in *. clearbody m1.
  destruct (LayerMap.get (Layer.id l) (layers m1)) as [l1|] eqn:G;
    [|exact Ex1].
  simpl. intro y. simpl.
  pose proof (occurrences_set_old
                (fst (Layer.addShape l1 x (shapeLayer m1))) l1
                (layers m1) y) as P.
  rewrite addShape_id, (get_id _ _ _ G) in P. specialize (P G).
  pose proof (addShape_cnt l1 x y (shapeLayer m1)) as A.
  specialize (Ex1 y).
  destruct (Nat.eq_dec x y) as [<-|N]; lia.
Qed.

Lemma moveShapeToLayer_exclusive (m : LayerManager) (x : Shape)
  (k : option string) :
  exclusive m -> exclusive (snd (moveShapeToLayer m x k)).
Proof.
  intro Ex. unfold moveShapeToLayer.
  apply addShapeToLayer_exclusive.
  now apply removeShapeFromAllLayers_exclusive.
Qed.

Lemma updateLayerIndices_exclusive (m : LayerManager) :
  exclusive m -> exclusive (updateLayerIndices m).
Proof.
  intros Ex y. unfold updateLayerIndices. simpl.
  rewrite updateIndicesFrom_occurrences. apply Ex.
Qed.

(** The first layer with a property of its id is the layer [get]
    returns for that id. *)
Lemma find_by_id_get (P : string -> bool) (ls : LayerMap.t) (o : Layer.t) :
  find (fun l => P (Layer.id l)) ls = Some o ->
  LayerMap.get (Layer.id o) ls = Some o.
Proof.
  induction ls as [|l ls IH]; intro H; [discriminate|].
  cbn [find] in H. rewrite get_cons.
  destruct (P (Layer.id l)) eqn:E.
  - injection H as <-. now rewrite String.eqb_refl.
  - destruct (String.eqb (Layer.id o) (Layer.id l)) eqn:E2.
    + apply String.eqb_eq in E2. apply find_some in H.
      destruct H as [_ H]. congruence.
    + now apply IH.
Qed.

(** Moving the shapes of [layer] into another layer [d] of the map and
    deleting [layer] does not add occurrences. *)
Lemma rehome_delete_occurrences (ls : LayerMap.t) (layer d : Layer.t)
  (h : ShapeStore) (y : Shape) :
  LayerMap.get (Layer.id layer) ls = Some layer ->
  LayerMap.get (Layer.id d) ls = Some d ->
  Layer.id d <> Layer.id layer ->
  (occurrences
     (LayerMap.delete (Layer.id layer)
        (LayerMap.set (fst (addShapes d (Layer.shapes layer) h)) ls)) y
   <= occurrences ls y)%nat.
Proof.
  intros Gl Gd N.
  set (d' := fst (addShapes d (Layer.shapes layer) h)).
  assert (Id : Layer.id d' = Layer.id d) by apply addShapes_id.
  pose proof (occurrences_set_old d' d ls y) as P.
  rewrite Id in P. specialize (P Gd).
  pose proof (occurrences_delete (Layer.id layer) layer
                (LayerMap.set d' ls) y) as Q.
  rewrite get_set_other in Q by congruence. specialize (Q Gl).
  pose proof (addShapes_cnt (Layer.shapes layer) d h y) as A.
  fold d' in A. unfold cnt in *. lia.
Qed.

Lemma delete_occurrences_le (k : string) (ls : LayerMap.t) (y : Shape) :
  (occurrences (LayerMap.delete k ls) y <= occurrences ls y)%nat.
Proof.
  induction ls as [|l ls IH]; simpl; [lia|].
  destruct (String.eqb k (Layer.id l)); rewrite !occurrences_cons; lia.
Qed.

Lemma deleteLayer_exclusive (m : LayerManager) (k : string) :
  exclusive m -> exclusive (stateOf (deleteLayer m k)).
Proof.
  intro Ex. unfold deleteLayer.
  destruct (LayerMap.get k (layers m)) as [layer|] eqn:G; [|exact Ex].
  destruct (LayerMap.size (layers m) <=? 1)%Z; [exact Ex|].
  pose proof (get_id _ _ _ G) as Ik.
  destruct (rehomeShapes m layer) as [[ls h]|] eqn:R; [|exact Ex].
  simpl. apply updateLayerIndices_exclusive.
  intro y. simpl.
  apply Nat.le_trans with (occurrences (layers m) y); [|apply Ex].
  unfold rehomeShapes, getDefaultLayer in R.
  destruct (LayerMap.get "layer_0" (layers m)) as [d|] eqn:Gd.
  - pose proof (get_id _ _ _ Gd) as Id.
    destruct (negb (String.eqb (Layer.id layer) (Layer.id d))) eqn:Ne.
    + injection R as <- <-.
      apply negb_true_iff, String.eqb_neq in Ne.
      rewrite <- Ik.
      apply rehome_delete_occurrences; try congruence.
    + destruct (find _ (layers m)) as [o|] eqn:F.
      * injection R as <- <-.
        pose proof (find_by_id_get
                      (fun i => negb (String.eqb i (Layer.id layer)))
                      (layers m) o F) as Go.
        apply find_some in F. destruct F as [_ F].
        apply negb_true_iff, String.eqb_neq in F.
        rewrite <- Ik.
        apply rehome_delete_occurrences; try congruence.
      * injection R as <- <-. apply delete_occurrences_le.
  - destruct (Layer.shapes layer); [|discriminate].
    injection R as <- <-. apply delete_occurrences_le.
Qed.

Lemma withLayer_exclusive (m : LayerManager) (k : string)
  (f : Layer.t -> Layer.t) :
  (forall l, Layer.id (f l) = Layer.id l) ->
  (forall l, Layer.shapes (f l) = Layer.shapes l) ->
  exclusive m -> exclusive (snd (withLayer m k f)).
Proof.
  intros Fi Fs Ex. unfold withLayer.
  destruct (LayerMap.get k (layers m)) as [l|] eqn:G; [|exact Ex].
  simpl. intro y. simpl.
  rewrite (occurrences_set_same (f l) l).
  - apply Ex.
  - now rewrite Fi, (get_id _ _ _ G).
  - apply Fs.
Qed.

Lemma set_empty_occurrences (v : Layer.t) (ls : LayerMap.t) (y : Shape) :
  Layer.shapes v = [] ->
  (occurrences (LayerMap.set v ls) y <= occurrences ls y)%nat.
Proof.
  intro E.
  assert (C : cnt v y = 0%nat) by (unfold cnt; now rewrite E).
  destruct (LayerMap.get (Layer.id v) ls) as [l|] eqn:G.
  - pose proof (occurrences_set_old v l ls y G). lia.
  - rewrite occurrences_set_new by exact G. lia.
Qed.

Lemma createDefaultLayer_exclusive (m : LayerManager) :
  exclusive m -> exclusive (createDefaultLayer m).
Proof.
  intros Ex y. unfold createDefaultLayer. simpl.
  apply Nat.le_trans with (occurrences (layers m) y); [|apply Ex].
  now apply set_empty_occurrences.
Qed.

Lemma createLayer_exclusive (m : LayerManager) (n : string)
  (o : LayerOptions) :
  exclusive m -> exclusive (snd (createLayer m n o)).
Proof.
  intro Ex. unfold createLayer. simpl.
  apply updateLayerIndices_exclusive.
  match goal with
  | |- exclusive (if ?c then _ else _) => destruct c
  end; intro y; simpl;
    (apply Nat.le_trans with (occurrences (layers m) y); [|apply Ex]);
    now apply set_empty_occurrences.
Qed.

Lemma imported_layers_empty (lds : list LayerData) (acc : LayerMap.t)
  (y : Shape) :
  occurrences acc y = 0%nat ->
  occurrences
    (fold_left (fun a d => LayerMap.set (layerOfData d) a) lds acc) y = 0%nat.
Proof.
  revert acc. induction lds as [|d lds IH]; intros acc H; simpl.
  - exact H.
  - apply IH.
    pose proof (set_empty_occurrences (layerOfData d) acc y eq_refl). lia.
Qed.

Lemma importLayers_exclusive (m : LayerManager) (d : LayersData) :
  exclusive (importLayers m d).
Proof.
  unfold importLayers.
  match goal with
  | |- exclusive (if _ then createDefaultLayer ?a else _) =>
      assert (Ex : exclusive a)
  end.
  { intro y. simpl.
    destruct (data_layers d) as [lds|]; [|unfold occurrences; simpl; lia].
    rewrite imported_layers_empty; [lia|reflexivity]. }
  destruct (LayerMap.size _ =? 0)%Z; [|exact Ex].
  now apply createDefaultLayer_exclusive.
Qed.

(** The state a toggle leaves is the one [withLayer] builds. *)
Lemma toggleLayerVisibility_state (m : LayerManager) (k : string) :
  snd (toggleLayerVisibility m k)
  = snd (withLayer m k
           (fun l => Layer.set_visible l (negb (Layer.visible l)))).
Proof.
  unfold toggleLayerVisibility, withLayer.
  now destruct (LayerMap.get k (layers m)).
Qed.

Lemma toggleLayerLock_state (m : LayerManager) (k : string) :
  snd (toggleLayerLock m k)
  = snd (withLayer m k
           (fun l => Layer.set_locked l (negb (Layer.locked l)))).
Proof.
  unfold toggleLayerLock, withLayer.
  now destruct (LayerMap.get k (layers m)).
Qed.

Lemma exec_exclusive (m : LayerManager) (c : Call) :
  exclusive m -> exclusive (exec m c).
Proof.
  intro Ex. destruct c; cbn [exec];
    rewrite ?toggleLayerVisibility_state, ?toggleLayerLock_state.
  - now apply createLayer_exclusive.
  - now apply deleteLayer_exclusive.
  - unfold setActiveLayer. now destruct (LayerMap.has _ _).
  - unfold moveLayer. destruct (_ =? -1)%Z; [exact Ex|].
    simpl. now apply updateLayerIndices_exclusive.
  - now apply withLayer_exclusive.
  - now apply withLayer_exclusive.
  - now apply withLayer_exclusive.
  - now apply withLayer_exclusive.
  - now apply withLayer_exclusive.
  - now apply addShapeToLayer_exclusive.
  - now apply moveShapeToLayer_exclusive.
  - apply importLayers_exclusive.
  - unfold clearLayers. apply createDefaultLayer_exclusive.
    intro y. unfold occurrences. simpl. lia.
Qed.

Lemma owners_le_occurrences (ls : LayerMap.t) (x : Shape) :
  (List.length (filter (fun l => includes x (Layer.shapes l)) ls)
   <= occurrences ls x)%nat.
Proof.
  induction ls as [|l ls IH]; simpl; [unfold occurrences; simpl; lia|].
  rewrite occurrences_cons.
  destruct (includes x (Layer.shapes l)) eqn:E; simpl; [|lia].
  assert (0 < cnt l x)%nat; [|lia].
  unfold cnt. apply count_occ_In.
  unfold includes in E. apply existsb_exists in E.
  destruct E as (z & Hz & Ez). apply Nat.eqb_eq in Ez. now subst z.
Qed.


(** ** Layers: the export / import round trip on truthy metadata *)

Lemma set_fresh (v : Layer.t) (ls : LayerMap.t) :
  ~ In (Layer.id v) (LayerMap.keys ls) -> LayerMap.set v ls = ls ++ [v].
Proof.
  unfold LayerMap.keys. induction ls as [|l ls IH]; intro N; simpl.
  - reflexivity.
  - destruct (String.eqb (Layer.id v) (Layer.id l)) eqn:E.
    + apply String.eqb_eq in E. exfalso. apply N. simpl. now left.
    + rewrite IH; [reflexivity|]. intro I. apply N. simpl. now right.
Qed.

Lemma import_fold_fresh (lds : list LayerData) (acc : LayerMap.t) :
  NoDup (LayerMap.keys acc ++ map ld_id lds) ->
  fold_left (fun a d => LayerMap.set (layerOfData d) a) lds acc =
  acc ++ map layerOfData lds.
Proof.
  revert acc. induction lds as [|d lds IH]; intros acc N; simpl.
  - now rewrite app_nil_r.
  - assert (F : ~ In (Layer.id (layerOfData d)) (LayerMap.keys acc)).
    { simpl. intro I. apply NoDup_remove_2 in N. apply N.
      apply in_or_app. now left. }
    rewrite (set_fresh _ _ F), IH.
    + now rewrite <- app_assoc.
    + unfold LayerMap.keys in *. rewrite map_app, <- app_assoc. exact N.
Qed.

Lemma layerOfData_toJSON (l : Layer.t) :
  truthy l -> toJSON (layerOfData (toJSON l)) = toJSON l.
Proof.
  intros [Ho Hc]. unfold toJSON, layerOfData, Layer.new. simpl.
  rewrite Ho. apply String.eqb_neq in Hc. rewrite Hc.
  now destruct (Layer.visible l).
Qed.

Lemma get_map_same_id (f : Layer.t -> Layer.t) (k : string)
  (ls : LayerMap.t) :
  (forall l, Layer.id (f l) = Layer.id l) ->
  LayerMap.has k (map f ls) = LayerMap.has k ls.
Proof.
  intro Fi. unfold LayerMap.has, LayerMap.get.
  induction ls as [|l ls IH]; simpl; [reflexivity|].
  rewrite Fi. now destruct (String.eqb k (Layer.id l)).
Qed.


(** ** Layers: deleting a layer while the default layer exists *)

Lemma get_set_same (v : Layer.t) (ls : LayerMap.t) :
  LayerMap.get (Layer.id v) (LayerMap.set v ls) = Some v.
Proof.
  induction ls as [|l ls IH]; cbn [LayerMap.set].
  - rewrite get_cons. now rewrite String.eqb_refl.
  - destruct (String.eqb (Layer.id v) (Layer.id l)) eqn:E.
    + rewrite get_cons. now rewrite String.eqb_refl.
    + rewrite get_cons, E. exact IH.
Qed.

Lemma get_delete_other (k k' : string) (ls : LayerMap.t) :
  k <> k' -> LayerMap.get k' (LayerMap.delete k ls) = LayerMap.get k' ls.
Proof.
  intro N. induction ls as [|l ls IH]; cbn [LayerMap.delete].
  - reflexivity.
  - destruct (String.eqb k (Layer.id l)) eqn:E.
    + apply String.eqb_eq in E. rewrite get_cons.
      destruct (String.eqb k' (Layer.id l)) eqn:E2; [|reflexivity].
      apply String.eqb_eq in E2. congruence.
    + rewrite !get_cons, IH. reflexivity.
Qed.

Lemma get_None_keys (k : string) (ls : LayerMap.t) :
  ~ In k (LayerMap.keys ls) -> LayerMap.get k ls = None.
Proof.
  unfold LayerMap.keys. induction ls as [|l ls IH]; intro N.
  - reflexivity.
  - rewrite get_cons.
    destruct (String.eqb k (Layer.id l)) eqn:E.
    + apply String.eqb_eq in E. exfalso. apply N. simpl. now left.
    + apply IH. intro I. apply N. simpl. now right.
Qed.

Lemma get_delete_same (k : string) (ls : LayerMap.t) :
  NoDup (LayerMap.keys ls) -> LayerMap.get k (LayerMap.delete k ls) = None.
Proof.
  unfold LayerMap.keys. induction ls as [|l ls IH]; intro N;
    cbn [LayerMap.delete].
  - reflexivity.
  - inversion N as [|? ? Hn Hr]; subst.
    destruct (String.eqb k (Layer.id l)) eqn:E.
    + apply String.eqb_eq in E. subst k. now apply get_None_keys.
    + rewrite get_cons, E. now apply IH.
Qed.

Lemma keys_set_existing (v l : Layer.t) (ls : LayerMap.t) :
  LayerMap.get (Layer.id v) ls = Some l ->
  LayerMap.keys (LayerMap.set v ls) = LayerMap.keys ls.
Proof.
  unfold LayerMap.keys. induction ls as [|l0 ls IH]; intro H.
  - discriminate.
  - rewrite get_cons in H. cbn [LayerMap.set].
    destruct (String.eqb (Layer.id v) (Layer.id l0)) eqn:E.
    + apply String.eqb_eq in E. simpl. now rewrite E.
    + simpl. now rewrite IH.
Qed.

Lemma get_In (k : string) (ls : LayerMap.t) (l : Layer.t) :
  LayerMap.get k ls = Some l -> In l ls.
Proof. unfold LayerMap.get. intro H. now apply find_some in H. Qed.

(** [updateLayerIndices] rewrites [index] fields only. *)
Lemma updateIndicesFrom_get (order : list string) (i : Z) (ls : LayerMap.t)
  (k : string) :
  match LayerMap.get k ls with
  | Some l =>
      exists l', LayerMap.get k (updateIndicesFrom order i ls) = Some l' /\
                 Layer.shapes l' = Layer.shapes l
  | None => LayerMap.get k (updateIndicesFrom order i ls) = None
  end.
Proof.
  revert i ls. induction order as [|k0 order IH]; intros i ls; simpl.
  - destruct (LayerMap.get k ls); eauto.
  - destruct (LayerMap.get k0 ls) as [l0|] eqn:G0; [|apply IH].
    set (v := Layer.set_index l0 i).
    assert (Iv : Layer.id v = k0) by (simpl; now apply (get_id _ ls)).
    specialize (IH (i + 1)%Z (LayerMap.set v ls)).
    destruct (String.eqb k k0) eqn:E.
    + apply String.eqb_eq in E. rewrite <- E in Iv, G0.
      assert (Gs : LayerMap.get k (LayerMap.set v ls) = Some v)
        by (rewrite <- Iv; apply get_set_same).
      rewrite Gs in IH. rewrite G0. exact IH.
    + apply String.eqb_neq in E.
      rewrite get_set_other in IH by congruence. exact IH.
Qed.

Lemma includes_In (x : Shape) (l : list Shape) :
  includes x l = true -> In x l.
Proof.
  unfold includes. intro H. apply existsb_exists in H.
  destruct H as (z & Hz & Ez). apply Nat.eqb_eq in Ez. now subst z.
Qed.

Lemma addShape_keeps (l : Layer.t) (x y : Shape) (h : ShapeStore) :
  In y (Layer.shapes l) -> In y (Layer.shapes (fst (Layer.addShape l x h))).
Proof.
  intro I. unfold Layer.addShape.
  destruct (negb (includes x (Layer.shapes l))); simpl; [|exact I].
  apply in_or_app. now left.
Qed.

Lemma addShape_has (l : Layer.t) (x : Shape) (h : ShapeStore) :
  In x (Layer.shapes (fst (Layer.addShape l x h))).
Proof.
  unfold Layer.addShape.
  destruct (includes x (Layer.shapes l)) eqn:E; simpl.
  - now apply includes_In.
  - apply in_or_app. right. now left.
Qed.

Lemma addShapes_keeps (shs : list Shape) (d : Layer.t) (h : ShapeStore)
  (y : Shape) :
  In y (Layer.shapes d) -> In y (Layer.shapes (fst (addShapes d shs h))).
Proof.
  unfold addShapes. revert d h.
  induction shs as [|x shs IH]; intros d h I; simpl; [exact I|].
  pose proof (addShape_keeps d x y h I) as K.
  destruct (Layer.addShape d x h) as [d1 h1]. now apply IH.
Qed.

Lemma addShapes_has (shs : list Shape) (d : Layer.t) (h : ShapeStore)
  (y : Shape) :
  In y shs -> In y (Layer.shapes (fst (addShapes d shs h))).
Proof.
  revert d h. induction shs as [|x shs IH]; intros d h I; [contradiction|].
  destruct I as [<-|I].
  - pose proof (addShape_has d x h) as K.
    pose proof (addShapes_keeps shs (fst (Layer.addShape d x h))
                  (snd (Layer.addShape d x h)) x K) as K2.
    unfold addShapes in *. simpl.
    now destruct (Layer.addShape d x h).
  - specialize (IH (fst (Layer.addShape d x h))
                   (snd (Layer.addShape d x h)) I).
    unfold addShapes in *. simpl.
    now destruct (Layer.addShape d x h).
Qed.

(** A map with two keys has a layer other than [layer]. *)
Lemma other_layer_exists (ls : LayerMap.t) (k : string) :
  NoDup (LayerMap.keys ls) ->
  (2 <= LayerMap.size ls)%Z ->
  exists o, find (fun l => negb (String.eqb (Layer.id l) k)) ls = Some o.
Proof.
  unfold LayerMap.keys, LayerMap.size, Js.len. intros N S.
  destruct ls as [|l1 [|l2 ls]]; simpl in S; try lia.
  cbn [find].
  destruct (String.eqb (Layer.id l1) k) eqn:E1; simpl; [|eauto].
  destruct (String.eqb (Layer.id l2) k) eqn:E2; simpl; [|eauto].
  apply String.eqb_eq in E1, E2.
  inversion N as [|? ? Hn _]; subst. exfalso. apply Hn. simpl. left.
  congruence.
Qed.

(** What the first half of [deleteLayer] does when the default layer
    exists. *)
Lemma rehomeShapes_spec (m : LayerManager) (k : string) (layer d : Layer.t) :
  NoDup (LayerMap.keys (layers m)) ->
  LayerMap.get k (layers m) = Some layer ->
  (2 <= LayerMap.size (layers m))%Z ->
  getDefaultLayer m = Some d ->
  exists ls h t,
    rehomeShapes m layer = Some (ls, h) /\
    LayerMap.keys ls = LayerMap.keys (layers m) /\
    LayerMap.get (Layer.id t) ls = Some t /\
    Layer.id t <> k /\
    forall x, In x (Layer.shapes layer) -> In x (Layer.shapes t).
Proof.
  intros Nd G Sz Gd. unfold rehomeShapes. rewrite Gd.
  pose proof (get_id _ _ _ G) as Ik.
  unfold getDefaultLayer in Gd.
  destruct (negb (String.eqb (Layer.id layer) (Layer.id d))) eqn:Ne.
  - apply negb_true_iff, String.eqb_neq in Ne.
    set (t := fst (addShapes d (Layer.shapes layer) (shapeLayer m))).
    assert (It : Layer.id t = Layer.id d) by apply addShapes_id.
    exists (LayerMap.set t (layers m)),
           (snd (addShapes d (Layer.shapes layer) (shapeLayer m))), t.
    split; [reflexivity|]. split.
    { apply (keys_set_existing t d). rewrite It.
      now rewrite (get_id _ _ _ Gd). }
    split; [apply get_set_same|].
    split; [congruence|].
    intros x I. now apply addShapes_has.
  - destruct (other_layer_exists (layers m) (Layer.id layer) Nd Sz)
      as [o Fo].
    rewrite Fo.
    pose proof (find_by_id_get
                  (fun i => negb (String.eqb i (Layer.id layer)))
                  (layers m) o Fo) as Go.
    apply find_some in Fo. destruct Fo as [_ Fo].
    apply negb_true_iff, String.eqb_neq in Fo.
    set (t := fst (addShapes o (Layer.shapes layer) (shapeLayer m))).
    assert (It : Layer.id t = Layer.id o) by apply addShapes_id.
    exists (LayerMap.set t (layers m)),
           (snd (addShapes o (Layer.shapes layer) (shapeLayer m))), t.
    split; [reflexivity|]. split.
    { apply (keys_set_existing t o). now rewrite It. }
    split; [apply get_set_same|].
    split; [congruence|].
    intros x I. now apply addShapes_has.
Qed.


(** * Further properties of the code *)

(** ** Editor: the history cursor *)

Lemma afterTwoStrokes_reachable : reachable afterTwoStrokes.
Proof.
  exists 800, 600, twoStrokes. vm_compute. reflexivity.
Qed.

Lemma saveState_CursorInv (s : Editor) : HistInv s -> CursorInv (saveState s).
Proof.
  intro Inv. destruct (saveState_top s Inv) as (Ti & Tx & _).
  right. unfold Js.index in Tx.
  destruct (historyIndex (saveState s) <? 0)%Z eqn:E; [discriminate|].
  apply Z.ltb_ge in E. lia.
Qed.

Lemma CursorInv_same (a b : Editor) :
  history a = history b -> historyIndex a = historyIndex b ->
  CursorInv b -> CursorInv a.
Proof. intros H1 H2. unfold CursorInv. now rewrite H1, H2. Qed.

Lemma perform_CursorInv (a : Action) (s s' : Editor) :
  HistInv s -> CursorInv s -> perform a s = Some s' -> CursorInv s'.
Proof.
  intros Inv C H. destruct a; simpl in H; try (injection H as <-).
  - unfold handleMouseDown.
    destruct (negb _); [|exact C].
    apply (CursorInv_same _ (saveState
             (set_isDrawing (set_start s (pointerCoord s px)
                                (pointerCoord s py)) true)));
      try reflexivity.
    apply saveState_CursorInv. exact Inv.
  - unfold handleMouseMove.
    destruct (isDrawing s), (currentPreview s); exact C.
  - unfold handleMouseUp.
    destruct (isDrawing s), (currentPreview s);
      try destruct (isValidDrawing t); exact C.
  - unfold handleMouseLeave. destruct (isDrawing s); exact C.
  - unfold handleWheel. destruct (Js.neqb _ _); exact C.
  - exact C.
  - unfold clear. apply saveState_CursorInv. exact Inv.
  - unfold zoomIn. destruct (Js.neqb _ _); exact C.
  - unfold zoomOut. destruct (Js.neqb _ _); exact C.
  - unfold resetZoom. destruct (Js.neqb _ _); exact C.
  - unfold fitToScreen. destruct (drawings s); [exact C|].
    destruct (boundingBox _) as [[?|] [?|] [?|] [?|]]; try exact C.
    destruct (_ && _); exact C.
  - destruct Inv as (Hm & Hl & Hi). unfold undo, canUndo in H.
    destruct (0 <? historyIndex s)%Z eqn:E.
    + apply Z.ltb_lt in E. simpl in H.
      destruct (Js.index (history s) (historyIndex s - 1)); [|discriminate].
      injection H as <-. right. simpl. lia.
    + now injection H as <-.
  - destruct Inv as (Hm & Hl & Hi). unfold redo, canRedo in H.
    destruct (historyIndex s <? Js.len (history s) - 1)%Z eqn:E.
    + apply Z.ltb_lt in E. simpl in H.
      destruct (Js.index (history s) (historyIndex s + 1)); [|discriminate].
      injection H as <-. right. simpl. lia.
    + now injection H as <-.
  - exact C.
  - left. split; reflexivity.
Qed.

Lemma run_CursorInv (acts : list Action) (s s' : Editor) :
  HistInv s -> CursorInv s -> run acts s = Some s' -> CursorInv s'.
Proof.
  revert s. induction acts as [|a acts IH]; intros s Inv C H; simpl in H.
  - now injection H as <-.
  - destruct (perform a s) as [s1|] eqn:E; [|discriminate].
    apply (IH s1); [| |exact H].
    + now apply (perform_HistInv a s).
    + now apply (perform_CursorInv a s).
Qed.

Lemma reachable_CursorInv (s : Editor) : reachable s -> CursorInv s.
Proof.
  intros (w & h & acts & H).
  apply (run_CursorInv acts (newCanvasDrawing w h)); [| |exact H].
  - unfold HistInv, Js.len. simpl. lia.
  - left. split; reflexivity.
Qed.

(** X1.  In every reachable state the history holds at most 50
    snapshots (the capacity), and either it is empty with the cursor at
    [-1], or [0 <= historyIndex < history.length]. *)
Theorem history_cursor_in_bounds (s : Editor) :
  reachable s ->
  maxHistorySize s = 50%Z /\
  (Js.len (history s) <= 50)%Z /\
  ((history s = [] /\ historyIndex s = (-1)%Z) \/
   (0 <= historyIndex s < Js.len (history s))%Z).
Proof.
  intro R. destruct (reachable_HistInv s R) as (Hm & Hl & _).
  split; [exact Hm|]. split; [exact Hl|].
  exact (reachable_CursorInv s R).
Qed.

Lemma history_cursor_in_bounds_witness :
  reachable afterTwoStrokes /\
  historyIndex afterTwoStrokes = 1%Z /\
  Js.len (history afterTwoStrokes) = 2%Z /\
  ((history afterTwoStrokes = [] /\ historyIndex afterTwoStrokes = (-1)%Z) \/
   (0 <= historyIndex afterTwoStrokes < Js.len (history afterTwoStrokes))%Z).
Proof.
  split; [exact afterTwoStrokes_reachable|].
  split; [reflexivity|]. split; [reflexivity|].
  apply (history_cursor_in_bounds afterTwoStrokes afterTwoStrokes_reachable).
Defined.

(** After two strokes both [undo] and [redo] find their snapshot. *)
Lemma undo_redo_total_witness :
  reachable afterTwoStrokes /\
  (exists u, undo afterTwoStrokes = Some u) /\
  (exists r, redo afterTwoStrokes = Some r).
Proof.
  split; [exact afterTwoStrokes_reachable|].
  exact (undo_redo_total afterTwoStrokes afterTwoStrokes_reachable).
Defined.

(** X3.  In a reachable state where undo is available, [undo] followed
    by [redo] leaves the history and the cursor as they were, and
    [drawings] holds the snapshot under that cursor; likewise [redo]
    followed by [undo] where redo is available.  (The scene itself
    comes back only if it was equal to that snapshot.) *)
Theorem undo_redo_cursor_round_trip (s : Editor) :
  reachable s ->
  (canUndo s = true ->
   exists u r,
     undo s = Some u /\ redo u = Some r /\
     historyIndex u = (historyIndex s - 1)%Z /\
     history r = history s /\ historyIndex r = historyIndex s /\
     Js.index (history s) (historyIndex s) = Some (drawings r)) /\
  (canRedo s = true ->
   exists r u,
     redo s = Some r /\ undo r = Some u /\
     historyIndex r = (historyIndex s + 1)%Z /\
     history u = history s /\ historyIndex u = historyIndex s /\
     Js.index (history s) (historyIndex s) = Some (drawings u)).
Proof.
  intro R.
  destruct (reachable_HistInv s R) as (Hm & Hl & Hi).
  pose proof (reachable_CursorInv s R) as C.
  split; intro A.
  - unfold undo, redo. rewrite A. unfold canUndo in A.
    apply Z.ltb_lt in A.
    cbn [history historyIndex set_historyIndex].
    destruct (index_in_range (history s) (historyIndex s - 1)) as [x Hx];
      [lia|].
    destruct (index_in_range (history s) (historyIndex s)) as [y Hy];
      [lia|].
    rewrite Hx. eexists. eexists. split; [reflexivity|].
    unfold canRedo.
    cbn [history historyIndex set_historyIndex set_drawings].
    assert (B : (historyIndex s - 1 <? Js.len (history s) - 1)%Z = true)
      by (apply Z.ltb_lt; lia).
    rewrite B.
    replace (historyIndex s - 1 + 1)%Z with (historyIndex s) by lia.
    rewrite Hy. split; [reflexivity|].
    cbn [history historyIndex drawings set_historyIndex set_drawings].
    rewrite deepCopy_id. repeat split; reflexivity.
  - unfold undo, redo. rewrite A. unfold canRedo in A.
    apply Z.ltb_lt in A.
    assert (P : (0 <= historyIndex s)%Z).
    { destruct C as [[E _]|C]; [|lia].
      rewrite E in A. unfold Js.len in A. simpl in A. lia. }
    cbn [history historyIndex set_historyIndex].
    destruct (index_in_range (history s) (historyIndex s + 1)) as [x Hx];
      [lia|].
    destruct (index_in_range (history s) (historyIndex s)) as [y Hy];
      [lia|].
    rewrite Hx. eexists. eexists. split; [reflexivity|].
    unfold canUndo.
    cbn [history historyIndex set_historyIndex set_drawings].
    assert (B : (0 <? historyIndex s + 1)%Z = true)
      by (apply Z.ltb_lt; lia).
    rewrite B.
    replace (historyIndex s + 1 - 1)%Z with (historyIndex s) by lia.
    rewrite Hy. split; [reflexivity|].
    cbn [history historyIndex drawings set_historyIndex set_drawings].
    rewrite deepCopy_id. repeat split; reflexivity.
Qed.

Lemma undo_redo_cursor_round_trip_witness :
  reachable afterTwoStrokes /\
  canUndo afterTwoStrokes = true /\
  exists u r,
    undo afterTwoStrokes = Some u /\ redo u = Some r /\
    historyIndex u = (historyIndex afterTwoStrokes - 1)%Z /\
    history r = history afterTwoStrokes /\
    historyIndex r = historyIndex afterTwoStrokes /\
    Js.index (history afterTwoStrokes) (historyIndex afterTwoStrokes)
      = Some (drawings r).
Proof.
  split; [exact afterTwoStrokes_reachable|].
  split; [reflexivity|].
  apply (undo_redo_cursor_round_trip afterTwoStrokes
           afterTwoStrokes_reachable).
  reflexivity.
Defined.

(** ** Editor: a new snapshot drops the redo branch *)

Lemma saveState_push_history (s : Editor) :
  (-1 <= historyIndex s <= Js.len (history s) - 1)%Z ->
  history (saveState_push s) =
    firstn (Z.to_nat (historyIndex s + 1)) (history s) ++ [drawings s].
Proof.
  intro Hi. unfold saveState_push, saveState_truncate.
  destruct (historyIndex s <? Js.len (history s) - 1)%Z eqn:E; simpl.
  - apply Z.ltb_lt in E. unfold Js.slice0.
    destruct (historyIndex s + 1 <? 0)%Z eqn:E2;
      [apply Z.ltb_lt in E2; lia|].
    now rewrite deepCopy_id.
  - apply Z.ltb_ge in E. rewrite deepCopy_id.
    rewrite firstn_all2; [reflexivity|]. unfold Js.len in *. lia.
Qed.

Lemma saveState_push_max (s : Editor) :
  maxHistorySize (saveState_push s) = maxHistorySize s.
Proof.
  unfold saveState_push, saveState_truncate.
  now destruct (historyIndex s <? Js.len (history s) - 1)%Z.
Qed.

(** X4.  [saveState] keeps the snapshots up to the cursor, drops those
    beyond it and appends a copy of the scene; when that makes 51
    snapshots (the cursor was on the last of 50) the oldest one is
    dropped.  Afterwards redo is unavailable.  So a pointer-down with a
    drawing tool and [clear()] both discard the redo branch, whether or
    not the stroke is committed later. *)
Theorem saveState_drops_redo (s : Editor) (px py : Q) (dom : DomInputs) :
  HistInv s ->
  ((historyIndex s < 49)%Z ->
   history (saveState s) =
     firstn (Z.to_nat (historyIndex s + 1)) (history s) ++ [drawings s]) /\
  ((historyIndex s = 49)%Z ->
   history (saveState s) = tl (history s) ++ [drawings s]) /\
  canRedo (saveState s) = false /\
  canRedo (clear s) = false /\
  (currentTool s <> "select"%string ->
   canRedo (handleMouseDown s px py dom) = false).
Proof.
  intro Inv. pose proof Inv as (Hm & Hl & Hi).
  pose proof (saveState_push_history s Hi) as P.
  pose proof (saveState_push_max s) as M. rewrite Hm in M.
  split.
  { intro B. unfold saveState, saveState_limit. rewrite M, P.
    assert (L : (Js.len (firstn (Z.to_nat (historyIndex s + 1)) (history s)
                           ++ [drawings s]) <= 50)%Z).
    { unfold Js.len in *. rewrite length_app, length_firstn. simpl. lia. }
    apply Z.ltb_ge in L. rewrite L. exact P. }
  split.
  { intro B. unfold saveState, saveState_limit. rewrite M, P.
    assert (F : firstn (Z.to_nat (historyIndex s + 1)) (history s)
                = history s).
    { apply firstn_all2. unfold Js.len in *. lia. }
    rewrite F.
    assert (L : (50 < Js.len (history s ++ [drawings s]))%Z).
    { unfold Js.len in *. rewrite length_app. simpl. lia. }
    apply Z.ltb_lt in L. rewrite L. cbn [history set_history set_historyIndex].
    clear P F L.
    destruct (history s) as [|h0 hs]; [unfold Js.len in Hi; simpl in Hi; lia|].
    reflexivity. }
  assert (G : forall t, HistInv t -> canRedo (saveState t) = false).
  { intros t It. destruct (saveState_top t It) as (Ti & _).
    unfold canRedo. apply Z.ltb_ge. lia. }
  split; [now apply G|].
  split; [unfold clear; apply G; exact Inv|].
  intro T. unfold handleMouseDown. apply String.eqb_neq in T.
  cbn [currentTool set_start]. rewrite T. cbn [negb].
  unfold canRedo. cbn [history historyIndex set_currentPreview].
  apply (G (set_isDrawing (set_start s (pointerCoord s px)
                             (pointerCoord s py)) true)).
  exact Inv.
Qed.

Lemma afterUndo_HistInv : HistInv afterUndo.
Proof. unfold HistInv. vm_compute. repeat split; discriminate. Qed.

Lemma saveState_drops_redo_witness :
  HistInv afterUndo /\ canRedo afterUndo = true /\
  canRedo (clear afterUndo) = false.
Proof.
  split; [exact afterUndo_HistInv|].
  split; [vm_compute; reflexivity|].
  destruct (saveState_drops_redo afterUndo 0 0 defaultDom afterUndo_HistInv)
    as (_ & _ & H & _).
  exact H.
Defined.

Lemma afterOneStroke_HistInv : HistInv afterOneStroke.
Proof. unfold HistInv. vm_compute. repeat split; discriminate. Qed.

Lemma afterOneStroke_tool : currentTool afterOneStroke <> "select"%string.
Proof. vm_compute. discriminate. Qed.

Lemma afterOneStroke_preview :
  currentPreview
    (handleMouseMove (handleMouseDown afterOneStroke 0 20 defaultDom) 100 20)
  = Some lineB.
Proof. vm_compute. reflexivity. Qed.


(** ** Editor: strokes that commit nothing *)

Lemma sub_self (x : Q) : Js.sub x x = 0.
Proof.
  unfold Js.sub. rewrite (fl_comp _ 0) by ring. reflexivity.
Qed.

Lemma sqDistance_point (t : string) (x y : Q) (c : string) (w : Z)
  (f : string) (p : ToolProperties) :
  sqDistance (Drawing.mk t x y x y c w f p) = 0.
Proof.
  unfold sqDistance.
  cbn [Drawing.startX Drawing.startY Drawing.endX Drawing.endY].
  rewrite !sub_self. reflexivity.
Qed.

Lemma isValid_point (t : string) (x y : Q) (c : string) (w : Z)
  (f : string) (p : ToolProperties) :
  isValidDrawing (Drawing.mk t x y x y c w f p) = String.eqb t "text".
Proof.
  unfold isValidDrawing. rewrite sqDistance_point.
  cbn [Drawing.tool Drawing.startX Drawing.startY
       Drawing.endX Drawing.endY]. rewrite !sub_self.
  change (Js.ltb 5 (Js.abs 0)) with false.
  change (Js.ltb 5 (Js.sqrt 0)) with false.
  destruct (String.eqb t "rectangle") eqn:E1.
  { apply String.eqb_eq in E1. now subst t. }
  destruct (String.eqb t "circle") eqn:E2.
  { apply String.eqb_eq in E2. now subst t. }
  destruct (String.eqb t "line") eqn:E3.
  { apply String.eqb_eq in E3. now subst t. }
  now destruct (String.eqb t "text").
Qed.

(** X6.  A click (pointer-down directly followed by pointer-up) with a
    tool other than [select] commits a drawing exactly when the tool is
    [text]: then one text drawing is appended, a point at the start
    position that the pointer-down stored; with every other tool
    [drawings] is unchanged. *)
Theorem click_commits_only_text (s : Editor) (px py : Q) (dom : DomInputs) :
  currentTool s <> "select"%string ->
  let s' := handleMouseUp (handleMouseDown s px py dom) in
  (currentTool s = "text"%string ->
   exists d,
     drawings s' = drawings s ++ [d] /\
     Drawing.tool d = "text"%string /\
     Drawing.startX d = startX s' /\ Drawing.startY d = startY s' /\
     Drawing.endX d = startX s' /\ Drawing.endY d = startY s') /\
  (currentTool s <> "text"%string -> drawings s' = drawings s) /\
  isDrawing s' = false /\ currentPreview s' = None.
Proof.
  intro T.
  set (s0 := set_isDrawing
               (set_start s (pointerCoord s px) (pointerCoord s py)) true).
  assert (F : saveState s0 = saveState s0) by reflexivity.
  assert (Dr : drawings (saveState s0) = drawings s).
  { unfold saveState, saveState_limit, saveState_push, saveState_truncate.
    destruct (historyIndex s0 <? Js.len (history s0) - 1)%Z;
      cbn [history historyIndex maxHistorySize set_history set_historyIndex
           drawings];
      match goal with
      | |- context [if ?c then _ else _] => destruct c
      end; reflexivity. }
  assert (Is : isDrawing (saveState s0) = true
               /\ currentTool (saveState s0) = currentTool s
               /\ startX (saveState s0) = pointerCoord s px
               /\ startY (saveState s0) = pointerCoord s py).
  { unfold saveState, saveState_limit, saveState_push, saveState_truncate.
    destruct (historyIndex s0 <? Js.len (history s0) - 1)%Z;
      cbn [history historyIndex maxHistorySize set_history set_historyIndex
           isDrawing currentTool startX startY];
      match goal with
      | |- context [if ?c then _ else _] => destruct c
      end; repeat split. }
  destruct Is as (Is & Ct & Sx & Sy).
  unfold handleMouseDown. apply String.eqb_neq in T.
  cbn [currentTool set_start]. rewrite T. cbn [negb]. fold s0.
  set (s1 := saveState s0) in *. clearbody s1. clear F.
  unfold handleMouseUp.
  cbn [isDrawing currentPreview set_currentPreview]. rewrite Is.
  rewrite isValid_point, Ct.
  destruct (String.eqb (currentTool s) "text") eqn:E;
    cbn [drawings isDrawing currentPreview set_isDrawing set_currentPreview
         set_drawings]; rewrite ?Dr.
  - split.
    + intros _. eexists. split; [reflexivity|].
      cbn [Drawing.tool Drawing.startX Drawing.startY Drawing.endX
           Drawing.endY startX startY set_isDrawing set_currentPreview
           set_drawings].
      apply String.eqb_eq in E. repeat split; assumption.
    + split; [|split; reflexivity].
      intro N. apply String.eqb_eq in E. contradiction.
  - split.
    + intro N. apply String.eqb_neq in E. contradiction.
    + repeat split.
Qed.

Lemma click_commits_only_text_witness :
  let s := setTool (newCanvasDrawing 800 600) "rectangle" in
  currentTool s <> "select"%string /\
  drawings (handleMouseUp (handleMouseDown s 33 47 defaultDom)) = drawings s.
Proof.
  cbv zeta.
  assert (T : currentTool (setTool (newCanvasDrawing 800 600) "rectangle")
              <> "select"%string) by discriminate.
  split; [exact T|].
  destruct (click_commits_only_text
              (setTool (newCanvasDrawing 800 600) "rectangle")
              33 47 defaultDom T) as (_ & H & _).
  apply H. discriminate.
Defined.

(** X7.  A stroke interrupted by pointer-leave is never committed:
    after [handleMouseLeave] the editor is idle with no provisional
    drawing (when it was drawing), and a later move and pointer-up add
    nothing to [drawings]. *)
Theorem mouseLeave_cancels (s : Editor) (x y : Q) :
  isDrawing (handleMouseLeave s) = false /\
  (isDrawing s = true -> currentPreview (handleMouseLeave s) = None) /\
  drawings (handleMouseLeave s) = drawings s /\
  drawings (handleMouseUp (handleMouseMove (handleMouseLeave s) x y))
    = drawings s.
Proof.
  unfold handleMouseLeave.
  destruct (isDrawing s) eqn:E.
  - unfold handleMouseMove, handleMouseUp. simpl. repeat split.
  - unfold handleMouseMove, handleMouseUp. rewrite E. simpl.
    rewrite E. repeat split. discriminate.
Qed.

(** ** Layers: witnesses of the lemmas above *)



(** ** Layers: a manager always has a layer *)

Lemma set_length (v : Layer.t) (ls : LayerMap.t) :
  (List.length ls <= List.length (LayerMap.set v ls))%nat /\
  (1 <= List.length (LayerMap.set v ls))%nat.
Proof.
  induction ls as [|l ls IH]; simpl; [lia|].
  destruct (String.eqb (Layer.id v) (Layer.id l)); simpl; lia.
Qed.

Lemma updateIndicesFrom_length (order : list string) (i : Z)
  (ls : LayerMap.t) :
  List.length (updateIndicesFrom order i ls) = List.length ls.
Proof.
  revert i ls. induction order as [|k order IH]; intros i ls; simpl.
  - reflexivity.
  - rewrite IH. destruct (LayerMap.get k ls) as [l|] eqn:G; [|reflexivity].
    clear IH. revert G. unfold LayerMap.get.
    induction ls as [|l0 ls IHl]; simpl; [discriminate|].
    destruct (String.eqb k (Layer.id l0)) eqn:E; intro G.
    + injection G as <-. simpl. now rewrite String.eqb_refl.
    + assert (Il : Layer.id l = k).
      { apply find_some in G. destruct G as [_ G].
        apply String.eqb_eq in G. now symmetry. }
      simpl. rewrite Il, E. simpl. f_equal. now apply IHl.
Qed.

Lemma delete_length (k : string) (ls : LayerMap.t) :
  (List.length ls <= S (List.length (LayerMap.delete k ls)))%nat.
Proof.
  induction ls as [|l ls IH]; simpl; [lia|].
  destruct (String.eqb k (Layer.id l)); simpl; lia.
Qed.

Lemma removeFromEach_length (x : Shape) (ls : LayerMap.t) (h : ShapeStore) :
  List.length (fst (removeFromEach x ls h)) = List.length ls.
Proof.
  revert h. induction ls as [|l ls IH]; intro h; simpl; [reflexivity|].
  now rewrite IH.
Qed.

Lemma exec_nonempty (m : LayerManager) (c : Call) :
  (1 <= List.length (layers m))%nat ->
  (1 <= List.length (layers (exec m c)))%nat.
Proof.
  intro L. destruct c; simpl.
  - unfold createLayer, updateLayerIndices. simpl.
    rewrite updateIndicesFrom_length.
    match goal with
    | |- context [if ?c then _ else _] => destruct c
    end; simpl; apply set_length.
  - unfold deleteLayer.
    destruct (LayerMap.get layerId (layers m)); [|exact L].
    destruct (LayerMap.size (layers m) <=? 1)%Z eqn:S; [exact L|].
    apply Z.leb_gt in S. unfold LayerMap.size, Js.len in S.
    destruct (rehomeShapes m t) as [[ls h]|] eqn:R; [|exact L].
    simpl. unfold updateLayerIndices. simpl.
    rewrite updateIndicesFrom_length.
    assert (Ll : (List.length (layers m) <= List.length ls)%nat).
    { unfold rehomeShapes in R.
      destruct (getDefaultLayer m) as [d|].
      - destruct (negb _).
        + injection R as <- <-. apply set_length.
        + destruct (find _ (layers m)).
          * injection R as <- <-. apply set_length.
          * injection R as <- <-. lia.
      - destruct (Layer.shapes t); [|discriminate].
        injection R as <- <-. lia. }
    pose proof (delete_length layerId ls). lia.
  - unfold setActiveLayer. now destruct (LayerMap.has _ _).
  - unfold moveLayer. destruct (_ =? -1)%Z; [exact L|].
    simpl. unfold updateLayerIndices. simpl.
    now rewrite updateIndicesFrom_length.
  - unfold toggleLayerVisibility, withLayer.
    destruct (LayerMap.get _ _); [simpl; apply set_length|exact L].
  - unfold toggleLayerLock, withLayer.
    destruct (LayerMap.get _ _); [simpl; apply set_length|exact L].
  - unfold setLayerOpacity, withLayer.
    destruct (LayerMap.get _ _); [simpl; apply set_length|exact L].
  - unfold setLayerColor, withLayer.
    destruct (LayerMap.get _ _); [simpl; apply set_length|exact L].
  - unfold renameLayer, withLayer.
    destruct (LayerMap.get _ _); [simpl; apply set_length|exact L].
  - unfold addShapeToLayer.
    destruct (targetLayer m layerId) as [l|]; [|exact L].
    destruct (negb (Layer.locked l)); [|exact L].
    destruct (LayerMap.get _ _); simpl.
    + apply set_length.
    + now rewrite removeFromEach_length.
  - unfold moveShapeToLayer, addShapeToLayer.
    assert (L1 : (1 <= List.length
                         (layers (removeShapeFromAllLayers m shape)))%nat)
      by (simpl; now rewrite removeFromEach_length).
    destruct (targetLayer _ _) as [l|]; [|exact L1].
    destruct (negb (Layer.locked l)); [|exact L1].
    destruct (LayerMap.get _ _); simpl.
    + apply set_length.
    + now rewrite !removeFromEach_length.
  - unfold importLayers.
    match goal with
    | |- context [if (LayerMap.size ?ls =? 0)%Z then _ else _] =>
        destruct (LayerMap.size ls =? 0)%Z eqn:S
    end.
    + unfold createDefaultLayer. simpl. apply set_length.
    + apply Z.eqb_neq in S. unfold LayerMap.size, Js.len in S.
      simpl. lia.
  - unfold clearLayers, createDefaultLayer. simpl. lia.
Qed.

(** X11.  Whatever calls a manager receives, it has at least one
    layer: [deleteLayer] refuses to delete the last one, [clear] and an
    import without layers recreate the default layer. *)
Theorem always_a_layer (calls : list Call) (h : ShapeStore) :
  (1 <= LayerMap.size (layers (execAll calls (newLayerManager h))))%Z.
Proof.
  assert (L : (1 <= List.length
                     (layers (execAll calls (newLayerManager h))))%nat).
  { unfold execAll.
    assert (L0 : (1 <= List.length (layers (newLayerManager h)))%nat)
      by (simpl; lia).
    revert L0. generalize (newLayerManager h).
    induction calls as [|c calls IH]; intros m L0; simpl; [exact L0|].
    apply IH. now apply exec_nonempty. }
  unfold LayerMap.size, Js.len. lia.
Qed.

Lemma execAll_exclusive (calls : list Call) (h : ShapeStore) :
  exclusive (execAll calls (newLayerManager h)).
Proof.
  unfold execAll.
  assert (E0 : exclusive (newLayerManager h)).
  { intro y. unfold occurrences. simpl. lia. }
  revert E0. generalize (newLayerManager h).
  induction calls as [|c calls IH]; intros m E0; simpl; [exact E0|].
  apply IH. now apply exec_exclusive.
Qed.

(** ** Layers: a successful [addShapeToLayer] *)

Lemma cnt_zero_not_included (l : Layer.t) (x : Shape) :
  cnt l x = 0%nat -> includes x (Layer.shapes l) = false.
Proof.
  unfold cnt. intro C. destruct (includes x (Layer.shapes l)) eqn:E;
    [|reflexivity].
  apply includes_In in E.
  apply (count_occ_In Nat.eq_dec) in E. lia.
Qed.

Lemma occurrences_zero_cnt (ls : LayerMap.t) (x : Shape) (l : Layer.t) :
  occurrences ls x = 0%nat -> In l ls -> cnt l x = 0%nat.
Proof.
  induction ls as [|l0 ls IH]; intros O I; [contradiction|].
  rewrite occurrences_cons in O. destruct I as [<-|I]; [lia|].
  apply IH; [lia|exact I].
Qed.

Lemma owners_none (ls : LayerMap.t) (x : Shape) :
  occurrences ls x = 0%nat ->
  filter (fun l => includes x (Layer.shapes l)) ls = [].
Proof.
  induction ls as [|l ls IH]; intro O; simpl; [reflexivity|].
  rewrite occurrences_cons in O.
  rewrite (cnt_zero_not_included l x) by lia. apply IH. lia.
Qed.

(** The owners of [x] after the layer under the key of [v] has been
    replaced by [v], in a map where nobody owned [x]. *)
Lemma owners_after_set (ls : LayerMap.t) (v l : Layer.t) (x : Shape) :
  occurrences ls x = 0%nat ->
  LayerMap.get (Layer.id v) ls = Some l ->
  includes x (Layer.shapes v) = true ->
  filter (fun l => includes x (Layer.shapes l)) (LayerMap.set v ls) = [v].
Proof.
  induction ls as [|l0 ls IH]; intros O G I; [discriminate|].
  rewrite get_cons in G. rewrite occurrences_cons in O.
  cbn [LayerMap.set].
  destruct (String.eqb (Layer.id v) (Layer.id l0)).
  - cbn [filter]. rewrite I. f_equal. apply owners_none. lia.
  - cbn [filter]. rewrite (cnt_zero_not_included l0 x) by lia.
    apply IH; [lia|exact G|exact I].
Qed.

(** The owners of another shape [y] keep their ids when the layer
    under a key is replaced by one with the same key and the same
    occurrences of [y]. *)
Lemma owner_ids_after_set (ls : LayerMap.t) (v l : Layer.t) (y : Shape) :
  LayerMap.get (Layer.id v) ls = Some l ->
  includes y (Layer.shapes v) = includes y (Layer.shapes l) ->
  map Layer.id (filter (fun l => includes y (Layer.shapes l))
                  (LayerMap.set v ls)) =
  map Layer.id (filter (fun l => includes y (Layer.shapes l)) ls).
Proof.
  induction ls as [|l0 ls IH]; intros G I; [discriminate|].
  rewrite get_cons in G. cbn [LayerMap.set].
  destruct (String.eqb (Layer.id v) (Layer.id l0)) eqn:E.
  - injection G as <-. cbn [filter]. rewrite I.
    apply String.eqb_eq in E.
    destruct (includes y (Layer.shapes l0)); simpl; now rewrite ?E.
  - cbn [filter]. destruct (includes y (Layer.shapes l0)); simpl;
      rewrite IH by assumption; reflexivity.
Qed.

Lemma includes_removeFirst_other (x y : Shape) (l : list Shape) :
  x <> y ->
  includes y (Js.removeFirst Nat.eqb x l) = includes y l.
Proof.
  intro N. unfold includes. induction l as [|z l IH]; simpl; [reflexivity|].
  destruct (Nat.eqb x z) eqn:E.
  - apply Nat.eqb_eq in E. subst z.
    assert (F : Nat.eqb y x = false) by (apply Nat.eqb_neq; congruence).
    now rewrite F.
  - simpl. now rewrite IH.
Qed.

Lemma owner_ids_removeFromEach (x y : Shape) (ls : LayerMap.t)
  (h : ShapeStore) :
  x <> y ->
  map Layer.id (filter (fun l => includes y (Layer.shapes l))
                  (fst (removeFromEach x ls h))) =
  map Layer.id (filter (fun l => includes y (Layer.shapes l)) ls).
Proof.
  intro N. revert h. induction ls as [|l ls IH]; intro h; simpl;
    [reflexivity|].
  assert (I : includes y (Layer.shapes (fst (Layer.removeShape l x h)))
              = includes y (Layer.shapes l)).
  { unfold Layer.removeShape.
    destruct (includes x (Layer.shapes l)); simpl; [|reflexivity].
    now apply includes_removeFirst_other. }
  rewrite I. destruct (includes y (Layer.shapes l)); simpl;
    rewrite IH; rewrite ?removeShape_id; reflexivity.
Qed.

Lemma includes_snoc_other (x y : Shape) (l : list Shape) :
  x <> y -> includes y (l ++ [x]) = includes y l.
Proof.
  intro N. unfold includes. rewrite existsb_app. simpl.
  assert (F : Nat.eqb y x = false) by (apply Nat.eqb_neq; congruence).
  rewrite F. now rewrite !orb_false_r.
Qed.

Lemma removeFromEach_locked (x : Shape) (k : string) (ls : LayerMap.t)
  (h : ShapeStore) (l : Layer.t) :
  LayerMap.get k ls = Some l ->
  exists l1, LayerMap.get k (fst (removeFromEach x ls h)) = Some l1 /\
             Layer.id l1 = Layer.id l.
Proof.
  revert h. induction ls as [|l0 ls IH]; intros h H; simpl.
  - discriminate.
  - rewrite get_cons in *. rewrite removeShape_id.
    destruct (String.eqb k (Layer.id l0)).
    + injection H as <-. eexists. split; [reflexivity|].
      apply removeShape_id.
    + now apply IH.
Qed.

(** X12.  In a manager reached by any calls, when
    [addShapeToLayer(shape, layerId)] returns [true] the shape is a
    member of exactly one layer, the resolved (unlocked) target; its
    [layer] field names that layer, [getShapeLayer] finds it, and every
    other shape is owned by the layers that owned it before. *)
Theorem addShapeToLayer_accepted (calls : list Call) (h : ShapeStore)
  (x : Shape) (layerId : option string) :
  let m := execAll calls (newLayerManager h) in
  let m' := snd (addShapeToLayer m x layerId) in
  fst (addShapeToLayer m x layerId) = true ->
  exists t,
    targetLayer m layerId = Some t /\ Layer.locked t = false /\
    map Layer.id (ownersOf m' x) = [Layer.id t] /\
    shapeLayer m' x = RefLayer (Layer.id t) /\
    option_map Layer.id (getShapeLayer m' x) = Some (Layer.id t) /\
    forall y, y <> x ->
      map Layer.id (ownersOf m' y) = map Layer.id (ownersOf m y).
Proof.
  intros m m' A. subst m'.
  pose proof (execAll_exclusive calls h) as Ex. fold m in Ex.
  clearbody m. unfold addShapeToLayer in *.
  destruct (targetLayer m layerId) as [t|] eqn:T; [|discriminate A].
  destruct (Layer.locked t) eqn:Lk; [discriminate A|]. cbn [negb] in *.
  exists t. split; [reflexivity|]. split; [exact Lk|].
  destruct (removeShapeFromAllLayers_exclusive m x Ex) as [_ Z1].
  assert (Gt : LayerMap.get (Layer.id t) (layers m) = Some t).
  { unfold targetLayer in T.
    destruct (match layerId with
              | Some k => if String.eqb k "" then activeLayerId m else Some k
              | None => activeLayerId m
              end) as [k|]; [|discriminate T].
    now rewrite (get_id _ _ _ T). }
  destruct (removeFromEach_locked x (Layer.id t) (layers m) (shapeLayer m)
              t Gt) as (l1 & G1 & I1).
  unfold removeShapeFromAllLayers in *.
  cbn [layers shapeLayer set_layers set_shapeLayer] in *.
  rewrite G1.
  set (ls1 := fst (removeFromEach x (layers m) (shapeLayer m))) in *.
  set (h1 := snd (removeFromEach x (layers m) (shapeLayer m))) in *.
  assert (C1 : includes x (Layer.shapes l1) = false).
  { apply cnt_zero_not_included.
    apply (occurrences_zero_cnt ls1); [exact Z1|].
    now apply get_In in G1. }
  assert (Ea : Layer.addShape l1 x h1 =
               (Layer.set_shapes l1 (Layer.shapes l1 ++ [x]),
                setShapeLayer h1 x (RefLayer (Layer.id l1)))).
  { unfold Layer.addShape. now rewrite C1. }
  rewrite Ea.
  cbn [fst snd layers shapeLayer set_layers set_shapeLayer].
  set (v := Layer.set_shapes l1 (Layer.shapes l1 ++ [x])).
  assert (Iv : Layer.id v = Layer.id t) by exact I1.
  assert (Gv : LayerMap.get (Layer.id v) ls1 = Some l1)
    by (now rewrite Iv).
  assert (Xv : includes x (Layer.shapes v) = true).
  { unfold includes. cbn [v Layer.shapes Layer.set_shapes].
    rewrite existsb_app. simpl. rewrite Nat.eqb_refl.
    now rewrite orb_true_r. }
  assert (Ow : filter (fun l => includes x (Layer.shapes l))
                 (LayerMap.set v ls1) = [v])
    by (now apply (owners_after_set ls1 v l1)).
  split; [|split; [|split]].
  - unfold ownersOf, set_shapeLayer, set_layers. cbn [layers].
    rewrite Ow. cbn [map]. now rewrite Iv.
  - unfold setShapeLayer. rewrite Nat.eqb_refl. now rewrite I1.
  - unfold getShapeLayer, set_shapeLayer, set_layers. cbn [layers].
    assert (F : find (fun l => includes x (Layer.shapes l))
                  (LayerMap.set v ls1) = Some v).
    { assert (Hd : forall (f : Layer.t -> bool) l,
                 find f l = hd_error (filter f l)).
      { intros f l. induction l as [|a l IH]; simpl; [reflexivity|].
        now destruct (f a). }
      rewrite Hd, Ow. reflexivity. }
    rewrite F. cbn [option_map]. now rewrite Iv.
  - intros y N. unfold ownersOf, set_shapeLayer, set_layers. cbn [layers].
    rewrite (owner_ids_after_set ls1 v l1 y Gv).
    + apply owner_ids_removeFromEach. congruence.
    + cbn [v Layer.shapes Layer.set_shapes].
      apply includes_snoc_other. congruence.
Qed.

Lemma addShapeToLayer_accepted_witness :
  let m := execAll [CreateLayer "Walls" noOptions;
                    AddShapeToLayer 7%nat None] (newLayerManager untouched) in
  fst (addShapeToLayer m 7%nat (Some "layer_1"%string)) = true /\
  map Layer.id (ownersOf m 7%nat) = ["layer_0"%string] /\
  exists t,
    targetLayer m (Some "layer_1"%string) = Some t /\
    Layer.locked t = false /\
    map Layer.id
      (ownersOf (snd (addShapeToLayer m 7%nat (Some "layer_1"%string)))
         7%nat) = [Layer.id t].
Proof.
  cbv zeta. split; [reflexivity|]. split; [reflexivity|].
  destruct (addShapeToLayer_accepted
              [CreateLayer "Walls" noOptions; AddShapeToLayer 7%nat None]
              untouched 7%nat (Some "layer_1"%string) eq_refl)
    as (t & T & L & O & _).
  exists t. repeat split; assumption.
Defined.

(** ** Layers: the shape lists a caller gets *)

Lemma count_occ_getAllShapes (ls : LayerMap.t) (x : Shape) :
  count_occ Nat.eq_dec (flat_map Layer.shapes ls) x = occurrences ls x.
Proof.
  induction ls as [|l ls IH]; [reflexivity|].
  change (flat_map Layer.shapes (l :: ls))
    with (Layer.shapes l ++ flat_map Layer.shapes ls).
  rewrite count_occ_app, occurrences_cons.
  f_equal. exact IH.
Qed.

Lemma visibleShapesBelow_incl (m : LayerManager) (n : nat) (x : Shape) :
  In x (visibleShapesBelow m n) -> In x (getAllShapes m).
Proof.
  induction n as [|n IH]; simpl; [contradiction|].
  intro I. apply in_app_or in I. destruct I as [I|I]; [|now apply IH].
  destruct (nth_error (layerOrder m) n) as [k|]; [|contradiction].
  destruct (LayerMap.get k (layers m)) as [l|] eqn:G; [|contradiction].
  destruct (Layer.visible l); [|contradiction].
  unfold getAllShapes. apply in_flat_map. exists l.
  split; [now apply get_In in G|exact I].
Qed.

(** X13.  Whatever calls a manager receives, [getAllShapes()] lists no
    shape twice, and every shape [getVisibleShapes()] returns is among
    them. *)
Theorem getAllShapes_no_duplicates (calls : list Call) (h : ShapeStore) :
  let m := execAll calls (newLayerManager h) in
  NoDup (getAllShapes m) /\
  forall x, In x (getVisibleShapes m) -> In x (getAllShapes m).
Proof.
  intro m. split.
  - apply (NoDup_count_occ Nat.eq_dec). intro x.
    unfold getAllShapes. rewrite count_occ_getAllShapes.
    apply (execAll_exclusive calls h).
  - intro x. apply visibleShapesBelow_incl.
Qed.

Lemma visibleShapesBelow_spec (m : LayerManager) (n : nat) :
  (n <= List.length (layerOrder m))%nat ->
  visibleShapesBelow m n =
  flat_map Layer.shapes
    (rev (filter Layer.visible
            (flat_map (fun k => match LayerMap.get k (layers m) with
                                | Some l => [l]
                                | None => []
                                end) (firstn n (layerOrder m))))).
Proof.
  induction n as [|n IH]; intro L; [reflexivity|].
  cbn [visibleShapesBelow]. rewrite IH by lia.
  destruct (nth_error (layerOrder m) n) as [k|] eqn:N.
  2:{ apply nth_error_None in N. lia. }
  assert (F : firstn (S n) (layerOrder m) = firstn n (layerOrder m) ++ [k]).
  { clear IH. revert n L N. generalize (layerOrder m) as o.
    induction o as [|a o IHo]; intros n L N; [destruct n; discriminate|].
    destruct n as [|n]; simpl in *.
    - now injection N as <-.
    - f_equal. apply IHo; [lia|exact N]. }
  rewrite F, flat_map_app, filter_app, rev_app_distr, flat_map_app.
  f_equal. simpl.
  destruct (LayerMap.get k (layers m)) as [l|]; [|reflexivity].
  simpl. destruct (Layer.visible l); simpl; [now rewrite app_nil_r|].
  reflexivity.
Qed.

(** X14.  [getVisibleShapes()] returns the shapes of the visible
    layers, layer by layer, in the reverse of the order in which
    [getVisibleLayers()] lists them: the last layer of [layerOrder]
    comes first (it is drawn first, at the bottom). *)
Theorem getVisibleShapes_bottom_up (m : LayerManager) :
  getVisibleShapes m = flat_map Layer.shapes (rev (getVisibleLayers m)).
Proof.
  unfold getVisibleShapes, getVisibleLayers, getAllLayers.
  rewrite visibleShapesBelow_spec by lia.
  now rewrite firstn_all.
Qed.

(** ** Layers: opacity and the toggles *)



Lemma set_same (l : Layer.t) (ls : LayerMap.t) :
  LayerMap.get (Layer.id l) ls = Some l -> LayerMap.set l ls = ls.
Proof.
  induction ls as [|l0 ls IH]; intro G; [discriminate|].
  rewrite get_cons in G. cbn [LayerMap.set].
  destruct (String.eqb (Layer.id l) (Layer.id l0)).
  - now injection G as <-.
  - f_equal. now apply IH.
Qed.

Lemma set_set (v w : Layer.t) (ls : LayerMap.t) :
  Layer.id v = Layer.id w ->
  LayerMap.set v (LayerMap.set w ls) = LayerMap.set v ls.
Proof.
  intro E. induction ls as [|l0 ls IH]; cbn [LayerMap.set].
  - rewrite E, String.eqb_refl. reflexivity.
  - rewrite <- E.
    destruct (String.eqb (Layer.id v) (Layer.id l0)) eqn:E0;
      cbn [LayerMap.set].
    + now rewrite E, String.eqb_refl.
    + rewrite E0. f_equal. exact IH.
Qed.

Lemma withLayer_twice (m : LayerManager) (k : string)
  (f : Layer.t -> Layer.t) :
  (forall l, Layer.id (f l) = Layer.id l) ->
  (forall l, f (f l) = l) ->
  snd (withLayer (snd (withLayer m k f)) k f) = m.
Proof.
  intros Fi Ff. unfold withLayer.
  destruct (LayerMap.get k (layers m)) as [l|] eqn:G.
  - cbn [snd layers set_layers].
    pose proof (get_id _ _ _ G) as Il.
    assert (G1 : LayerMap.get k (LayerMap.set (f l) (layers m))
                 = Some (f l)).
    { rewrite <- Il, <- (Fi l). apply get_set_same. }
    rewrite G1. cbn [snd layers set_layers].
    rewrite Ff, set_set by (now rewrite Fi).
    rewrite (set_same l) by (now rewrite Il).
    now destruct m.
  - cbn [snd]. now rewrite G.
Qed.

Lemma toggle_get (m : LayerManager) (k : string) (l : Layer.t)
  (f : Layer.t -> Layer.t) :
  (forall x, Layer.id (f x) = Layer.id x) ->
  LayerMap.get k (layers m) = Some l ->
  LayerMap.get k (LayerMap.set (f l) (layers m)) = Some (f l).
Proof.
  intros Fi G. rewrite <- (get_id _ _ _ G), <- (Fi l). apply get_set_same.
Qed.

(** X16.  Toggling the visibility of a layer twice, or its lock twice,
    gives back the manager as it was, and the second call returns the
    flag the layer had at first ([null] both times when the layer does
    not exist: then nothing changes at all). *)
Theorem toggle_twice (m : LayerManager) (k : string) :
  snd (toggleLayerVisibility (snd (toggleLayerVisibility m k)) k) = m /\
  snd (toggleLayerLock (snd (toggleLayerLock m k)) k) = m /\
  fst (toggleLayerVisibility (snd (toggleLayerVisibility m k)) k)
  = option_map Layer.visible (LayerMap.get k (layers m)) /\
  fst (toggleLayerLock (snd (toggleLayerLock m k)) k)
  = option_map Layer.locked (LayerMap.get k (layers m)).
Proof.
  refine (conj _ (conj _ (conj _ _))).
  - rewrite !toggleLayerVisibility_state.
    apply withLayer_twice; intro l; [reflexivity|].
    destruct l. cbn. now rewrite negb_involutive.
  - rewrite !toggleLayerLock_state.
    apply withLayer_twice; intro l; [reflexivity|].
    destruct l. cbn. now rewrite negb_involutive.
  - unfold toggleLayerVisibility at 2.
    destruct (LayerMap.get k (layers m)) as [l|] eqn:G.
    + cbv zeta. cbn [snd]. unfold toggleLayerVisibility.
      cbn [layers set_layers].
      rewrite (toggle_get m k l
                 (fun x => Layer.set_visible x (negb (Layer.visible x))))
        by (reflexivity || exact G).
      cbn. now rewrite negb_involutive.
    + cbn [snd]. unfold toggleLayerVisibility. now rewrite G.
  - unfold toggleLayerLock at 2.
    destruct (LayerMap.get k (layers m)) as [l|] eqn:G.
    + cbv zeta. cbn [snd]. unfold toggleLayerLock.
      cbn [layers set_layers].
      rewrite (toggle_get m k l
                 (fun x => Layer.set_locked x (negb (Layer.locked x))))
        by (reflexivity || exact G).
      cbn. now rewrite negb_involutive.
    + cbn [snd]. unfold toggleLayerLock. now rewrite G.
Qed.

(** ** Layers: keys, order and indices *)

Lemma numberToString_inj (a b : Z) :
  Js.numberToString a = Js.numberToString b -> a = b.
Proof.
  unfold Js.numberToString. intro E.
  assert (R : forall n, NilZero.int_of_string
                          (NilZero.string_of_int (Z.to_int n))
                        = Some (Z.to_int n)).
  { intro n. apply NilZero.isi; destruct n; cbn; try discriminate;
      intro F; injection F as F;
      exact (DecimalPos.Unsigned.to_uint_nonnil _ F). }
  apply DecimalZ.to_int_inj.
  pose proof (R a) as Ra. rewrite E, R in Ra. now injection Ra.
Qed.

Lemma issued_nonempty (n : Z) (k : string) :
  issued n k -> String.eqb k "" = false.
Proof. intros [->|(i & _ & ->)]; reflexivity. Qed.

Lemma issued_mono (n : Z) (k : string) : issued n k -> issued (n + 1) k.
Proof.
  intros [->|(i & Hi & ->)]; [now left|right].
  exists i. split; [lia|reflexivity].
Qed.

Lemma issued_fresh (n : Z) :
  (1 <= n)%Z -> ~ issued n ("layer_" ++ Js.numberToString n).
Proof.
  intros Hn [E|(i & Hi & E)].
  - assert (E0 : Js.numberToString n = Js.numberToString 0).
    { cbn in E. now injection E. }
    apply numberToString_inj in E0. lia.
  - assert (E0 : Js.numberToString n = Js.numberToString i).
    { cbn in E. now injection E. }
    apply numberToString_inj in E0. lia.
Qed.

Lemma In_removeFirst_incl (x y : string) (l : list string) :
  In y (Js.removeFirst String.eqb x l) -> In y l.
Proof.
  induction l as [|a l IH]; cbn [Js.removeFirst]; [easy|].
  destruct (String.eqb x a); [now right|].
  intros [->|I]; [now left|right; now apply IH].
Qed.

Lemma In_removeFirst (x y : string) (l : list string) :
  NoDup l -> (In y (Js.removeFirst String.eqb x l) <-> In y l /\ y <> x).
Proof.
  induction l as [|a l IH]; intro N; cbn [Js.removeFirst]; [easy|].
  inversion N as [|? ? Na Nl]; subst.
  destruct (String.eqb x a) eqn:E.
  - apply String.eqb_eq in E. subst a. split.
    + intro I. split; [now right|]. intros ->. contradiction.
    + intros [[->|I] Ne]; [contradiction|exact I].
  - apply String.eqb_neq in E. split.
    + intros [->|I]; [split; [now left|congruence]|].
      apply IH in I; [|exact Nl]. destruct I. split; [now right|easy].
    + intros [[->|I] Ne]; [now left|right]. apply IH; [exact Nl|easy].
Qed.

Lemma NoDup_removeFirst (x : string) (l : list string) :
  NoDup l -> NoDup (Js.removeFirst String.eqb x l).
Proof.
  induction l as [|a l IH]; intro N; cbn [Js.removeFirst]; [constructor|].
  inversion N as [|? ? Na Nl]; subst.
  destruct (String.eqb x a); [exact Nl|].
  constructor; [|now apply IH].
  intro I. apply Na. now apply In_removeFirst_incl in I.
Qed.

Lemma insert_spec (a b l : list string) (x : string) :
  a ++ b = l -> NoDup l -> ~ In x l ->
  NoDup (a ++ x :: b) /\
  forall y, In y (a ++ x :: b) <-> y = x \/ In y l.
Proof.
  intros <- N Nx. split.
  - apply (NoDup_Add (a:=x) (l:=a ++ b)); [apply Add_app|].
    now constructor.
  - intro y. rewrite !in_app_iff. cbn [In]. intuition congruence.
Qed.

Lemma spliceInsert_spec (l : list string) (i : Z) (x : string) :
  NoDup l -> ~ In x l ->
  NoDup (Js.spliceInsert l i x) /\
  forall y, In y (Js.spliceInsert l i x) <-> y = x \/ In y l.
Proof.
  intros N Nx. unfold Js.spliceInsert.
  apply insert_spec; [apply firstn_skipn|exact N|exact Nx].
Qed.

Lemma push_spec (l : list string) (x : string) :
  NoDup l -> ~ In x l ->
  NoDup (l ++ [x]) /\ forall y, In y (l ++ [x]) <-> y = x \/ In y l.
Proof.
  intros N Nx. apply insert_spec; [apply app_nil_r|exact N|exact Nx].
Qed.

Lemma indexOfFrom_absent (x : string) (l : list string) (i : Z) :
  ~ In x l -> Js.indexOfFrom String.eqb x l i = (-1)%Z.
Proof.
  revert i. induction l as [|a l IH]; intros i N; [reflexivity|].
  cbn [Js.indexOfFrom]. destruct (String.eqb x a) eqn:E.
  - apply String.eqb_eq in E. subst. exfalso. apply N. now left.
  - apply IH. intro I. apply N. now right.
Qed.

Lemma keys_delete (k : string) (ls : LayerMap.t) :
  LayerMap.keys (LayerMap.delete k ls)
  = Js.removeFirst String.eqb k (LayerMap.keys ls).
Proof.
  induction ls as [|l ls IH]; [reflexivity|].
  cbn [LayerMap.delete LayerMap.keys map Js.removeFirst].
  destruct (String.eqb k (Layer.id l)); [reflexivity|].
  cbn [map]. f_equal. exact IH.
Qed.

Lemma get_Some_keys (k : string) (ls : LayerMap.t) :
  In k (LayerMap.keys ls) -> exists l, LayerMap.get k ls = Some l.
Proof.
  intro I. destruct (LayerMap.get k ls) as [l|] eqn:G; [now exists l|].
  exfalso. unfold LayerMap.get in G. unfold LayerMap.keys in I.
  apply in_map_iff in I. destruct I as (l & <- & I).
  apply (find_none _ _ G) in I. now rewrite String.eqb_refl in I.
Qed.

Lemma get_keys (k : string) (ls : LayerMap.t) (l : Layer.t) :
  LayerMap.get k ls = Some l -> In k (LayerMap.keys ls).
Proof.
  intro G. pose proof (get_id _ _ _ G) as <-.
  apply get_In in G. now apply in_map.
Qed.

Lemma keys_skeleton (ls : LayerMap.t) :
  LayerMap.keys ls = map fst (skeleton ls).
Proof.
  unfold LayerMap.keys, skeleton. rewrite map_map. reflexivity.
Qed.

Lemma get_index_skeleton (k : string) (a b : LayerMap.t) :
  skeleton a = skeleton b ->
  option_map Layer.index (LayerMap.get k a)
  = option_map Layer.index (LayerMap.get k b).
Proof.
  revert b. induction a as [|x a IH]; intros [|y b] E; try discriminate;
    [reflexivity|].
  cbn [skeleton map] in E. injection E as Ei Ex Et.
  rewrite !get_cons, Ei.
  destruct (String.eqb k (Layer.id y)); [cbn; now rewrite Ex|].
  now apply IH.
Qed.

Lemma skeleton_set_same (v l : Layer.t) (ls : LayerMap.t) :
  LayerMap.get (Layer.id v) ls = Some l -> Layer.index v = Layer.index l ->
  skeleton (LayerMap.set v ls) = skeleton ls.
Proof.
  intros G Ei. induction ls as [|l0 ls IH]; [discriminate|].
  rewrite get_cons in G. cbn [LayerMap.set].
  destruct (String.eqb (Layer.id v) (Layer.id l0)) eqn:E.
  - injection G as ->. apply String.eqb_eq in E.
    cbn [skeleton map]. now rewrite E, Ei.
  - cbn [skeleton map]. f_equal. now apply IH.
Qed.

Lemma removeShape_index (l : Layer.t) (x : Shape) (h : ShapeStore) :
  Layer.index (fst (Layer.removeShape l x h)) = Layer.index l.
Proof. unfold Layer.removeShape. now destruct (includes _ _). Qed.

Lemma addShape_index (l : Layer.t) (x : Shape) (h : ShapeStore) :
  Layer.index (fst (Layer.addShape l x h)) = Layer.index l.
Proof. unfold Layer.addShape. now destruct (negb _). Qed.

Lemma addShapes_index (shs : list Shape) (d : Layer.t) (h : ShapeStore) :
  Layer.index (fst (addShapes d shs h)) = Layer.index d.
Proof.
  unfold addShapes. revert d h.
  induction shs as [|x shs IH]; intros d h; [reflexivity|].
  cbn [fold_left fst snd].
  destruct (Layer.addShape d x h) as [d1 h1] eqn:E.
  rewrite IH. change d1 with (fst (d1, h1)). rewrite <- E.
  apply addShape_index.
Qed.

Lemma skeleton_removeFromEach (x : Shape) (ls : LayerMap.t)
  (h : ShapeStore) :
  skeleton (fst (removeFromEach x ls h)) = skeleton ls.
Proof.
  revert h. induction ls as [|l ls IH]; intro h; [reflexivity|].
  cbn [removeFromEach fst skeleton map].
  rewrite removeShape_id, removeShape_index. f_equal. apply IH.
Qed.

Lemma updateIndicesFrom_keys (order : list string) (i : Z)
  (ls : LayerMap.t) :
  LayerMap.keys (updateIndicesFrom order i ls) = LayerMap.keys ls.
Proof.
  revert i ls. induction order as [|k order IH]; intros i ls;
    [reflexivity|].
  cbn [updateIndicesFrom]. rewrite IH.
  destruct (LayerMap.get k ls) as [l|] eqn:G; [|reflexivity].
  apply (keys_set_existing _ l). cbn [Layer.id Layer.set_index].
  now rewrite (get_id _ _ _ G).
Qed.

Lemma updateIndicesFrom_skip (order : list string) (i : Z)
  (ls : LayerMap.t) (k : string) :
  ~ In k order ->
  LayerMap.get k (updateIndicesFrom order i ls) = LayerMap.get k ls.
Proof.
  revert i ls. induction order as [|k0 order IH]; intros i ls N;
    [reflexivity|].
  cbn [updateIndicesFrom]. rewrite IH by (intro I; apply N; now right).
  destruct (LayerMap.get k0 ls) as [l|] eqn:G; [|reflexivity].
  apply get_set_other. cbn [Layer.id Layer.set_index].
  rewrite (get_id _ _ _ G). intros ->. apply N. now left.
Qed.

Lemma updateIndicesFrom_indexed (order : list string) :
  forall (j : Z) (ls : LayerMap.t),
  NoDup order ->
  (forall k, In k order -> In k (LayerMap.keys ls)) ->
  forall i k, nth_error order i = Some k ->
    exists l, LayerMap.get k (updateIndicesFrom order j ls) = Some l /\
              Layer.index l = (j + Z.of_nat i)%Z.
Proof.
  induction order as [|k0 order IH]; intros j ls N S i k E.
  - destruct i; discriminate.
  - inversion N as [|? ? N0 N1]; subst.
    destruct (get_Some_keys k0 ls) as [l0 G0]; [apply S; now left|].
    cbn [updateIndicesFrom]. rewrite G0.
    pose proof (get_id _ _ _ G0) as I0.
    set (v := Layer.set_index l0 j).
    assert (Iv : Layer.id v = k0) by exact I0.
    destruct i as [|i].
    + injection E as <-. exists v.
      rewrite updateIndicesFrom_skip by exact N0.
      split; [rewrite <- Iv at 1; apply get_set_same|].
      cbn. lia.
    + destruct (IH (j + 1)%Z (LayerMap.set v ls) N1) with (i := i) (k := k)
        as (l & G & Il).
      * intros k' I'.
        rewrite (keys_set_existing v l0) by (now rewrite Iv).
        apply S. now right.
      * exact E.
      * exists l. split; [exact G|]. rewrite Il. lia.
Qed.

Lemma keyed_same (m m' : LayerManager) :
  LayerMap.keys (layers m') = LayerMap.keys (layers m) ->
  layerOrder m' = layerOrder m ->
  activeLayerId m' = activeLayerId m ->
  nextLayerId m' = nextLayerId m ->
  keyed m -> keyed m'.
Proof.
  unfold keyed. intros -> -> -> ->. exact (fun H => H).
Qed.

Lemma consistent_same (m m' : LayerManager) :
  skeleton (layers m') = skeleton (layers m) ->
  layerOrder m' = layerOrder m ->
  activeLayerId m' = activeLayerId m ->
  nextLayerId m' = nextLayerId m ->
  consistent m -> consistent m'.
Proof.
  intros Es Eo Ea En [K I]. split.
  - apply (keyed_same m); try assumption.
    now rewrite !keys_skeleton, Es.
  - intros i k E. rewrite Eo in E. destruct (I i k E) as (l & G & Il).
    pose proof (get_index_skeleton k _ _ Es) as X. rewrite G in X.
    destruct (LayerMap.get k (layers m')) as [l'|]; [|discriminate].
    exists l'. split; [reflexivity|]. cbn in X. injection X as ->. exact Il.
Qed.

Lemma updateLayerIndices_consistent (m : LayerManager) :
  keyed m -> consistent (updateLayerIndices m).
Proof.
  intro K. split.
  - apply (keyed_same m); try reflexivity; [|exact K].
    apply updateIndicesFrom_keys.
  - destruct K as (_ & _ & _ & No & Io & _).
    intros i k E. unfold updateLayerIndices in *.
    cbn [layerOrder layers set_layers] in *.
    destruct (updateIndicesFrom_indexed (layerOrder m) 0 (layers m) No)
      with (i := i) (k := k) as (l & G & Il).
    + intros k' I'. now apply Io.
    + exact E.
    + exists l. split; [exact G|]. rewrite Il. lia.
Qed.

Lemma createDefaultLayer_consistent (h : ShapeStore) :
  consistent (createDefaultLayer (mkLayerManager [] None [] 1 h)).
Proof.
  split.
  - unfold keyed. cbn.
    refine (conj _ (conj _ (conj _ (conj _ (conj _ _))))).
    + lia.
    + constructor; [easy|constructor].
    + intros k [<-|[]]. now left.
    + constructor; [easy|constructor].
    + easy.
    + eexists. split; [reflexivity|now left].
  - intros i k E. destruct i as [|i].
    + cbn in E. injection E as <-. eexists. split; reflexivity.
    + destruct i; discriminate.
Qed.

Lemma withLayer_consistent (m : LayerManager) (k : string)
  (f : Layer.t -> Layer.t) :
  (forall l, Layer.id (f l) = Layer.id l) ->
  (forall l, Layer.index (f l) = Layer.index l) ->
  consistent m -> consistent (snd (withLayer m k f)).
Proof.
  intros Fi Fx C. unfold withLayer.
  destruct (LayerMap.get k (layers m)) as [l|] eqn:G; [|exact C].
  apply (consistent_same m); try reflexivity; [|exact C].
  cbn [snd layers set_layers].
  apply (skeleton_set_same _ l); [|apply Fx].
  now rewrite Fi, (get_id _ _ _ G).
Qed.

Lemma removeShapeFromAllLayers_consistent (m : LayerManager) (x : Shape) :
  consistent m -> consistent (removeShapeFromAllLayers m x).
Proof.
  apply consistent_same; try reflexivity.
  apply skeleton_removeFromEach.
Qed.

Lemma addShapeToLayer_consistent (m : LayerManager) (x : Shape)
  (k : option string) :
  consistent m -> consistent (snd (addShapeToLayer m x k)).
Proof.
  intro C. unfold addShapeToLayer.
  destruct (targetLayer m k) as [l|]; [|exact C].
  destruct (negb (Layer.locked l)); [|exact C].
  pose proof (removeShapeFromAllLayers_consistent m x C) as C1.
  set (m1 := removeShapeFromAllLayers m x) in *. clearbody m1.
  destruct (LayerMap.get (Layer.id l) (layers m1)) as [l1|] eqn:G;
    [|exact C1].
  apply (consistent_same m1); try reflexivity; [|exact C1].
  cbn [snd layers set_layers set_shapeLayer].
  apply (skeleton_set_same _ l1); [|apply addShape_index].
  now rewrite addShape_id, (get_id _ _ _ G).
Qed.

Lemma rehomeShapes_skeleton (m : LayerManager) (layer : Layer.t)
  (ls : LayerMap.t) (h : ShapeStore) :
  rehomeShapes m layer = Some (ls, h) ->
  skeleton ls = skeleton (layers m).
Proof.
  unfold rehomeShapes, getDefaultLayer.
  destruct (LayerMap.get "layer_0" (layers m)) as [d|] eqn:D.
  - destruct (negb (String.eqb (Layer.id layer) (Layer.id d))).
    + intro E. injection E as <- _.
      apply (skeleton_set_same _ d); [|apply addShapes_index].
      now rewrite addShapes_id, (get_id _ _ _ D).
    + destruct (find _ (layers m)) as [o|] eqn:F.
      * intro E. injection E as <- _.
        apply (skeleton_set_same _ o); [|apply addShapes_index].
        rewrite addShapes_id.
        apply (find_by_id_get
                 (fun k => negb (String.eqb k (Layer.id layer)))).
        exact F.
      * intro E. now injection E as <- _.
  - destruct (Layer.shapes layer); [|discriminate].
    intro E. now injection E as <- _.
Qed.

Lemma keyed_two_keys (m : LayerManager) (k : string) :
  keyed m -> (LayerMap.size (layers m) <=? 1)%Z = false ->
  exists k', In k' (layerOrder m) /\ k' <> k.
Proof.
  intros (_ & Nk & _ & _ & Io & _) Sz.
  apply Z.leb_gt in Sz. unfold LayerMap.size, Js.len in Sz.
  unfold LayerMap.keys in *.
  destruct (layers m) as [|a [|b ls]]; cbn in Sz; try lia.
  cbn [map] in *. inversion Nk as [|? ? Na _]; subst.
  destruct (string_dec (Layer.id a) k) as [E|E].
  - exists (Layer.id b). split; [apply Io; right; now left|].
    intros Eb. apply Na. left. congruence.
  - exists (Layer.id a). split; [apply Io; now left|exact E].
Qed.

Lemma deleteLayer_consistent (m : LayerManager) (k : string) :
  consistent m -> consistent (stateOf (deleteLayer m k)).
Proof.
  intro C. unfold deleteLayer.
  destruct (LayerMap.get k (layers m)) as [layer|] eqn:G; [|exact C].
  destruct (LayerMap.size (layers m) <=? 1)%Z eqn:Sz; [exact C|].
  destruct (rehomeShapes m layer) as [[ls h]|] eqn:R; [|exact C].
  cbn [stateOf]. apply updateLayerIndices_consistent.
  apply rehomeShapes_skeleton in R.
  assert (Ek : LayerMap.keys ls = LayerMap.keys (layers m))
    by (now rewrite !keys_skeleton, R).
  destruct C as [K _].
  destruct (keyed_two_keys m k K Sz) as (k' & Ik' & Nk').
  destruct K as (N1 & Nk & Is & No & Io & (a & Ea & Ia)).
  unfold keyed. cbn [nextLayerId layers layerOrder activeLayerId].
  rewrite keys_delete, Ek.
  refine (conj N1 (conj _ (conj _ (conj _ (conj _ _))))).
  - now apply NoDup_removeFirst.
  - intros y I. apply In_removeFirst_incl in I. now apply Is.
  - now apply NoDup_removeFirst.
  - intro y. rewrite !In_removeFirst by assumption.
    now rewrite Io.
  - rewrite Ea.
    assert (I' : In k' (Js.removeFirst String.eqb k (layerOrder m)))
      by (apply In_removeFirst; [exact No|now split]).
    destruct (String.eqb a k) eqn:E.
    + destruct (Js.removeFirst String.eqb k (layerOrder m))
        as [|first rest] eqn:O; [contradiction|].
      assert (If : In first (Js.removeFirst String.eqb k (layerOrder m)))
        by (rewrite O; now left).
      apply In_removeFirst in If; [|exact No]. destruct If as [If Nf].
      apply Io in If.
      rewrite (issued_nonempty _ _ (Is _ If)).
      exists first. split; [reflexivity|].
      apply In_removeFirst; [exact Nk|now split].
    + apply String.eqb_neq in E. exists a. split; [reflexivity|].
      apply In_removeFirst; [exact Nk|now split].
Qed.

Lemma moveLayer_consistent (m : LayerManager) (k : string) (i : Z) :
  consistent m -> consistent (snd (moveLayer m k i)).
Proof.
  intro C. unfold moveLayer.
  destruct (Js.indexOf String.eqb k (layerOrder m) =? -1)%Z eqn:E;
    [exact C|].
  cbn [snd]. apply updateLayerIndices_consistent.
  destruct C as [(N1 & Nk & Is & No & Io & A) _].
  assert (Ik : In k (layerOrder m)).
  { destruct (in_dec string_dec k (layerOrder m)) as [I|I]; [exact I|].
    apply (indexOfFrom_absent k _ 0%Z) in I.
    unfold Js.indexOf in E. rewrite I in E. discriminate. }
  destruct (spliceInsert_spec
              (Js.removeFirst String.eqb k (layerOrder m))
              (Z.max 0 (Z.min i (Js.len (Js.removeFirst String.eqb k
                                            (layerOrder m))))) k)
    as [N' I'].
  { now apply NoDup_removeFirst. }
  { intro I. apply In_removeFirst in I; [|exact No]. now destruct I. }
  unfold keyed. cbn [nextLayerId layers layerOrder activeLayerId
                     set_layerOrder].
  refine (conj N1 (conj Nk (conj Is (conj N' (conj _ A))))).
  intro y. rewrite I', In_removeFirst by exact No. rewrite <- Io.
  destruct (string_dec y k) as [->|Ne]; intuition.
Qed.

(** Below [2^53 - 1] the counter counts. *)
Lemma increment_small (n : Z) :
  (0 <= n < 2 ^ 53 - 1)%Z -> Js.increment n = (n + 1)%Z.
Proof.
  intro H. unfold Js.increment.
  rewrite (fl_comp _ (inject_Z (n + 1)))
    by (rewrite inject_Z_plus; reflexivity).
  rewrite fl_int by lia. apply Qfloor_Z.
Qed.

Lemma createLayer_consistent (m : LayerManager) (n : string)
  (o : LayerOptions) :
  consistent m -> (nextLayerId m < 2 ^ 53 - 1)%Z ->
  consistent (snd (createLayer m n o)).
Proof.
  intros [(N1 & Nk & Is & No & Io & (a & Ea & Ia)) _] Hn.
  unfold createLayer. cbn [snd]. apply updateLayerIndices_consistent.
  rewrite increment_small by lia.
  set (id := ("layer_" ++ Js.numberToString (nextLayerId m))%string).
  assert (Fk : ~ In id (LayerMap.keys (layers m))).
  { intro I. apply Is in I. now apply (issued_fresh _ N1). }
  assert (Fo : ~ In id (layerOrder m)) by (now rewrite Io).
  set (ix := match opt_index o with
             | Some i => i
             | None => Js.len (layerOrder (set_nextLayerId m
                                             (nextLayerId m + 1)))
             end).
  set (layer := Layer.new id n _).
  assert (Il : Layer.id layer = id) by reflexivity.
  clearbody layer.
  assert (Ks : LayerMap.keys (LayerMap.set layer (layers m))
               = LayerMap.keys (layers m) ++ [id]).
  { rewrite set_fresh by (now rewrite Il).
    unfold LayerMap.keys. now rewrite map_app, <- Il. }
  destruct (push_spec (LayerMap.keys (layers m)) id Nk Fk) as [Nk' Ik'].
  assert (K : forall order,
             NoDup order ->
             (forall y, In y order <-> y = id \/ In y (layerOrder m)) ->
             keyed (mkLayerManager (LayerMap.set layer (layers m))
                      (activeLayerId m) order (nextLayerId m + 1)
                      (shapeLayer m))).
  { intros order N' I'. unfold keyed.
    cbn [nextLayerId layers layerOrder activeLayerId]. rewrite Ks.
    refine (conj _ (conj Nk' (conj _ (conj N' (conj _ _))))).
    - lia.
    - intros y I. apply Ik' in I. destruct I as [->|I].
      + right. exists (nextLayerId m). split; [lia|reflexivity].
      + apply issued_mono. now apply Is.
    - intro y. now rewrite I', Ik', Io.
    - exists a. split; [exact Ea|]. apply Ik'. now right. }
  cbn [layerOrder layers set_layers set_nextLayerId set_layerOrder
       nextLayerId activeLayerId shapeLayer] in *.
  destruct (Js.len (layerOrder m) <=? ix)%Z.
  - destruct (push_spec (layerOrder m) id No Fo) as [N' I'].
    exact (K _ N' I').
  - destruct (spliceInsert_spec (layerOrder m) ix id No Fo) as [N' I'].
    exact (K _ N' I').
Qed.

Lemma clearLayers_consistent (m : LayerManager) :
  consistent (clearLayers m).
Proof. apply createDefaultLayer_consistent. Qed.

Lemma exec_consistent (m : LayerManager) (c : Call) :
  noImport c = true -> consistent m -> (nextLayerId m < 2 ^ 53 - 1)%Z ->
  consistent (exec m c).
Proof.
  intros NI C Hn. destruct c; cbn [exec]; try discriminate;
    rewrite ?toggleLayerVisibility_state, ?toggleLayerLock_state.
  - now apply createLayer_consistent.
  - now apply deleteLayer_consistent.
  - unfold setActiveLayer, LayerMap.has.
    destruct (LayerMap.get layerId (layers m)) as [l|] eqn:G; [|exact C].
    destruct C as [(N1 & Nk & Is & No & Io & _) Ix].
    split; [|exact Ix].
    refine (conj N1 (conj Nk (conj Is (conj No (conj Io _))))).
    exists layerId. split; [reflexivity|]. now apply get_keys in G.
  - now apply moveLayer_consistent.
  - now apply withLayer_consistent.
  - now apply withLayer_consistent.
  - now apply withLayer_consistent.
  - now apply withLayer_consistent.
  - now apply withLayer_consistent.
  - now apply addShapeToLayer_consistent.
  - apply addShapeToLayer_consistent.
    now apply removeShapeFromAllLayers_consistent.
  - apply clearLayers_consistent.
Qed.

Lemma withLayer_next (m : LayerManager) (k : string)
  (f : Layer.t -> Layer.t) :
  nextLayerId (snd (withLayer m k f)) = nextLayerId m.
Proof. unfold withLayer. now destruct (LayerMap.get k (layers m)). Qed.

Lemma addShapeToLayer_next (m : LayerManager) (x : Shape)
  (k : option string) :
  nextLayerId (snd (addShapeToLayer m x k)) = nextLayerId m.
Proof.
  unfold addShapeToLayer.
  destruct (targetLayer m k) as [l|]; [|reflexivity].
  destruct (negb (Layer.locked l)); [|reflexivity].
  now destruct (LayerMap.get _ _).
Qed.

(** A call other than [importLayers] moves the counter by at most one. *)
Lemma exec_next (m : LayerManager) (c : Call) :
  noImport c = true -> (0 <= nextLayerId m < 2 ^ 53 - 1)%Z ->
  (nextLayerId (exec m c) <= nextLayerId m + 1)%Z.
Proof.
  intros NI Hn. destruct c; cbn [exec]; try discriminate;
    rewrite ?toggleLayerVisibility_state, ?toggleLayerLock_state,
      ?withLayer_next.
  - unfold createLayer. cbn [snd nextLayerId updateLayerIndices set_layers].
    destruct (_ <=? _)%Z;
      cbn [nextLayerId set_layerOrder set_layers set_nextLayerId];
      rewrite increment_small by lia; lia.
  - unfold deleteLayer.
    destruct (LayerMap.get layerId (layers m)); [|cbn; lia].
    destruct (_ <=? 1)%Z; [cbn; lia|].
    destruct (rehomeShapes m t) as [[ls h]|]; cbn; lia.
  - unfold setActiveLayer. destruct (LayerMap.has _ _); cbn; lia.
  - unfold moveLayer. destruct (_ =? -1)%Z; cbn; lia.
  - unfold toggleLayerVisibility, toggleLayerLock, setLayerOpacity,
      setLayerColor, renameLayer. lia.
  - lia.
  - unfold setLayerOpacity. rewrite withLayer_next. lia.
  - unfold setLayerColor. rewrite withLayer_next. lia.
  - unfold renameLayer. rewrite withLayer_next. lia.
  - rewrite addShapeToLayer_next. lia.
  - unfold moveShapeToLayer. rewrite addShapeToLayer_next. cbn. lia.
  - cbn. lia.
Qed.

Lemma execAll_consistent (calls : list Call) (m : LayerManager) :
  forallb noImport calls = true -> consistent m ->
  (nextLayerId m + Z.of_nat (List.length calls) <= 2 ^ 53 - 1)%Z ->
  consistent (execAll calls m).
Proof.
  unfold execAll. revert m.
  induction calls as [|c calls IH]; intros m F C B; [exact C|].
  cbn [forallb] in F. apply andb_true_iff in F. destruct F as [Fc F].
  cbn [List.length] in B.
  assert (N1 : (1 <= nextLayerId m)%Z) by (now destruct C as [[? _] _]).
  cbn [fold_left]. apply IH; [exact F| |].
  - apply exec_consistent; [exact Fc|exact C|lia].
  - pose proof (exec_next m c Fc). lia.
Qed.

(** X17.  As long as [importLayers] is not called (and the counter of
    layer ids stays below [2^53], where it would stop counting), a
    manager stays consistent whatever else it is asked: layer ids are
    unique and were all issued by its counter, [layerOrder] lists every
    layer exactly once and nothing else, the active layer exists, and
    every layer's [index] is its position in [layerOrder]. *)
Theorem manager_stays_consistent (calls : list Call) (h : ShapeStore) :
  forallb noImport calls = true ->
  (Z.of_nat (List.length calls) < 2 ^ 53 - 1)%Z ->
  consistent (execAll calls (newLayerManager h)).
Proof.
  intros F B. apply execAll_consistent; [exact F| |].
  - apply createDefaultLayer_consistent.
  - cbn [newLayerManager createDefaultLayer nextLayerId]. lia.
Qed.

Lemma manager_stays_consistent_witness :
  consistent
    (execAll [CreateLayer "Walls" noOptions; MoveLayer "layer_1" 0;
              AddShapeToLayer 7%nat None; DeleteLayer "layer_0"]
       (newLayerManager untouched)).
Proof.
  apply (manager_stays_consistent
           [CreateLayer "Walls" noOptions; MoveLayer "layer_1" 0;
            AddShapeToLayer 7%nat None; DeleteLayer "layer_0"]
           untouched); vm_compute; reflexivity.
Defined.

(** ** Layers: moving a layer and moving it back *)

Lemma removeFirst_middle (k : string) (a b : list string) :
  ~ In k a -> Js.removeFirst String.eqb k (a ++ k :: b) = a ++ b.
Proof.
  induction a as [|x a IH]; intro N; cbn [app Js.removeFirst].
  - now rewrite String.eqb_refl.
  - destruct (String.eqb k x) eqn:E.
    + apply String.eqb_eq in E. subst. exfalso. apply N. now left.
    + f_equal. apply IH. intro I. apply N. now right.
Qed.

Lemma indexOfFrom_middle (k : string) (a b : list string) (j : Z) :
  ~ In k a ->
  Js.indexOfFrom String.eqb k (a ++ k :: b) j = (j + Js.len a)%Z.
Proof.
  revert j. induction a as [|x a IH]; intros j N;
    cbn [app Js.indexOfFrom].
  - rewrite String.eqb_refl. unfold Js.len. cbn [List.length]. lia.
  - destruct (String.eqb k x) eqn:E.
    + apply String.eqb_eq in E. subst. exfalso. apply N. now left.
    + rewrite IH by (intro I; apply N; now right).
      unfold Js.len. cbn [List.length]. lia.
Qed.

Lemma firstn_length_app {A : Type} (a b : list A) :
  firstn (List.length a) (a ++ b) = a.
Proof. induction a as [|x a IH]; cbn; [reflexivity|now rewrite IH]. Qed.

Lemma skipn_length_app {A : Type} (a b : list A) :
  skipn (List.length a) (a ++ b) = b.
Proof. induction a as [|x a IH]; cbn; [reflexivity|exact IH]. Qed.

Lemma spliceInsert_at (l : list string) (t : Z) (k : string) :
  (0 <= t <= Js.len l)%Z ->
  Js.spliceInsert l t k
  = firstn (Z.to_nat t) l ++ k :: skipn (Z.to_nat t) l.
Proof.
  intro H. unfold Js.spliceInsert.
  destruct (t <? 0)%Z eqn:E; [apply Z.ltb_lt in E; lia|].
  now rewrite Z.min_l by lia.
Qed.

Lemma layers_ext (a b : LayerMap.t) :
  LayerMap.keys a = LayerMap.keys b -> NoDup (LayerMap.keys a) ->
  (forall k, LayerMap.get k a = LayerMap.get k b) -> a = b.
Proof.
  revert b. induction a as [|x a IH]; intros [|y b] K N G;
    try discriminate; [reflexivity|].
  cbn [LayerMap.keys map] in K, N. injection K as Kx Kt.
  inversion N as [|? ? Nx Nt]; subst.
  pose proof (G (Layer.id x)) as Gx. rewrite !get_cons in Gx.
  rewrite <- Kx, String.eqb_refl in Gx. injection Gx as <-.
  f_equal. apply IH; [exact Kt|exact Nt|].
  intro k. pose proof (G k) as Gk. rewrite !get_cons in Gk.
  destruct (String.eqb k (Layer.id x)) eqn:E; [|exact Gk].
  apply String.eqb_eq in E. subst k.
  rewrite !get_None_keys; [reflexivity| |exact Nx].
  unfold LayerMap.keys. now rewrite <- Kt.
Qed.

Lemma updateIndicesFrom_at (order : list string) :
  forall (j : Z) (ls : LayerMap.t) (i : nat) (k : string) (l0 : Layer.t),
  NoDup order -> nth_error order i = Some k ->
  LayerMap.get k ls = Some l0 ->
  LayerMap.get k (updateIndicesFrom order j ls)
  = Some (Layer.set_index l0 (j + Z.of_nat i)).
Proof.
  induction order as [|k0 order IH]; intros j ls i k l0 N E G.
  - destruct i; discriminate.
  - inversion N as [|? ? N0 N1]; subst. cbn [updateIndicesFrom].
    destruct i as [|i].
    + injection E as <-. rewrite G.
      rewrite updateIndicesFrom_skip by exact N0.
      cbn [Z.of_nat]. rewrite Z.add_0_r.
      pose proof (get_set_same (Layer.set_index l0 j) ls) as X.
      cbn [Layer.id Layer.set_index] in X.
      now rewrite (get_id _ _ _ G) in X.
    + cbn [nth_error] in E.
      assert (Ne : k0 <> k).
      { intros ->. apply N0. eapply nth_error_In. exact E. }
      replace (j + Z.of_nat (S i))%Z with (j + 1 + Z.of_nat i)%Z by lia.
      apply IH; [exact N1|exact E|].
      destruct (LayerMap.get k0 ls) as [l|] eqn:G0; [|exact G].
      rewrite get_set_other; [exact G|].
      cbn [Layer.id Layer.set_index]. now rewrite (get_id _ _ _ G0).
Qed.

Lemma set_index_same (l : Layer.t) (a b : Z) :
  Layer.index l = b -> Layer.set_index (Layer.set_index l a) b = l.
Proof. intros <-. now destruct l. Qed.

Lemma reindex_back (m : LayerManager) (order' : list string) :
  consistent m -> NoDup order' ->
  (forall k, In k order' <-> In k (layerOrder m)) ->
  updateIndicesFrom (layerOrder m) 0
    (updateIndicesFrom order' 0 (layers m)) = layers m.
Proof.
  intros [(_ & Nk & _ & No & Io & _) Ix] N' I'.
  apply layers_ext.
  - now rewrite !updateIndicesFrom_keys.
  - now rewrite !updateIndicesFrom_keys.
  - intro k.
    destruct (in_dec string_dec k (layerOrder m)) as [I|I].
    + destruct (In_nth_error _ _ I) as [i Ei].
      destruct (Ix i k Ei) as (l0 & G & Il).
      assert (Ik' : In k order') by (now apply I').
      destruct (In_nth_error _ _ Ik') as [i' Ei'].
      rewrite (updateIndicesFrom_at (layerOrder m) 0 _ i k
                 (Layer.set_index l0 (0 + Z.of_nat i')) No Ei).
      * rewrite G. f_equal. apply set_index_same. rewrite Il. lia.
      * now apply updateIndicesFrom_at.
    + rewrite !get_None_keys; [reflexivity| |].
      * now rewrite <- Io.
      * now rewrite !updateIndicesFrom_keys, <- Io.
Qed.

Lemma order_split (m : LayerManager) (k : string) :
  consistent m -> In k (layerOrder m) ->
  exists a b, layerOrder m = a ++ k :: b /\ ~ In k (a ++ b).
Proof.
  intros [(_ & _ & _ & No & _) _] I.
  destruct (in_split _ _ I) as (a & b & E). exists a, b.
  split; [exact E|]. rewrite E in No. now apply NoDup_remove_2 in No.
Qed.

Lemma indexOf_In (k : string) (l : list string) :
  Js.indexOf String.eqb k l <> (-1)%Z -> In k l.
Proof.
  intro H. destruct (in_dec string_dec k l) as [I|I]; [exact I|].
  now apply (indexOfFrom_absent k _ 0%Z) in I.
Qed.

(** [moveLayer] on a layer that is listed: where it ends up. *)
Lemma moveLayer_there (m : LayerManager) (k : string) (a b : list string)
  (t : Z) :
  layerOrder m = a ++ k :: b -> ~ In k (a ++ b) ->
  let T := Z.max 0 (Z.min t (Js.len (a ++ b))) in
  moveLayer m k t =
  (true,
   updateLayerIndices
     (set_layerOrder m
        (firstn (Z.to_nat T) (a ++ b) ++ k :: skipn (Z.to_nat T) (a ++ b)))).
Proof.
  intros E N T. unfold moveLayer, Js.indexOf.
  assert (Na : ~ In k a) by (intro I; apply N, in_or_app; now left).
  rewrite E, indexOfFrom_middle by exact Na.
  destruct (0 + Js.len a =? -1)%Z eqn:C;
    [apply Z.eqb_eq in C; unfold Js.len in C; lia|].
  rewrite removeFirst_middle by exact Na.
  fold T. rewrite spliceInsert_at; [reflexivity|].
  unfold T, Js.len. lia.
Qed.

(** Moving a layer anywhere and then back to the position it had
    restores a consistent manager. *)
Lemma moveLayer_back (m : LayerManager) (k : string) (a b : list string)
  (t : Z) :
  consistent m -> layerOrder m = a ++ k :: b ->
  moveLayer (snd (moveLayer m k t)) k (Js.len a) = (true, m).
Proof.
  intros C E.
  assert (N : ~ In k (a ++ b)).
  { destruct C as [(_ & _ & _ & No & _) _]. rewrite E in No.
    now apply NoDup_remove_2 in No. }
  rewrite (moveLayer_there m k a b t E N). cbn [snd].
  set (T := Z.to_nat (Z.max 0 (Z.min t (Js.len (a ++ b))))).
  set (a1 := firstn T (a ++ b)). set (b1 := skipn T (a ++ b)).
  assert (E1 : a1 ++ b1 = a ++ b) by apply firstn_skipn.
  assert (N1 : ~ In k (a1 ++ b1)) by (now rewrite E1).
  set (m' := updateLayerIndices (set_layerOrder m (a1 ++ k :: b1))).
  rewrite (moveLayer_there m' k a1 b1 (Js.len a) eq_refl N1).
  rewrite E1.
  replace (Z.to_nat (Z.max 0 (Z.min (Js.len a) (Js.len (a ++ b)))))
    with (List.length a).
  2:{ unfold Js.len. rewrite length_app. lia. }
  rewrite firstn_length_app, skipn_length_app, <- E.
  f_equal. unfold m', updateLayerIndices.
  cbn [layers layerOrder set_layers set_layerOrder activeLayerId
       nextLayerId shapeLayer].
  rewrite reindex_back.
  - now destruct m.
  - exact C.
  - destruct C as [(_ & _ & _ & No & _) _]. rewrite E in No.
    apply insert_spec with (l := a ++ b); [exact E1| |exact N].
    now apply NoDup_remove_1 in No.
  - intro y. rewrite E, !in_app_iff. cbn [In].
    assert (X : In y a1 \/ In y b1 <-> In y a \/ In y b)
      by (now rewrite <- !in_app_iff, E1).
    tauto.
Qed.

(** X18.  On a consistent manager, a [moveLayerUp(id)] that succeeds is
    undone by [moveLayerDown(id)], and a [moveLayerDown(id)] that
    succeeds is undone by [moveLayerUp(id)]: the second call returns
    [true] and the manager (order, index fields, everything else) is as
    before. *)
Theorem moveLayerUp_Down_inverse (m : LayerManager) (k : string) :
  consistent m ->
  (fst (moveLayerUp m k) = true ->
   moveLayerDown (snd (moveLayerUp m k)) k = (true, m)) /\
  (fst (moveLayerDown m k) = true ->
   moveLayerUp (snd (moveLayerDown m k)) k = (true, m)).
Proof.
  intro C. split.
  - unfold moveLayerUp at 1 2.
    destruct (Js.indexOf String.eqb k (layerOrder m) <=? 0)%Z eqn:L;
      [discriminate|]. intros _. apply Z.leb_gt in L.
    destruct (order_split m k C) as (a & b & E & N);
      [apply indexOf_In; lia|].
    assert (Na : ~ In k a) by (intro I; apply N, in_or_app; now left).
    assert (Ec : Js.indexOf String.eqb k (layerOrder m) = Js.len a).
    { unfold Js.indexOf. rewrite E, indexOfFrom_middle by exact Na. lia. }
    rewrite Ec in *.
    pose proof (moveLayer_back m k a b (Js.len a - 1) C E) as B.
    rewrite (moveLayer_there m k a b _ E N) in *. cbn [snd] in *.
    set (T := Z.to_nat (Z.max 0 (Z.min (Js.len a - 1) (Js.len (a ++ b)))))
      in *.
    assert (N1 : ~ In k (firstn T (a ++ b))).
    { intro I. apply N. rewrite <- (firstn_skipn T). apply in_or_app.
      now left. }
    set (m' := updateLayerIndices _) in *.
    assert (Eo : layerOrder m'
                 = firstn T (a ++ b) ++ k :: skipn T (a ++ b))
      by reflexivity.
    clearbody m'.
    assert (Ei : Js.indexOf String.eqb k (layerOrder m')
                 = (Js.len a - 1)%Z).
    { rewrite Eo. unfold Js.indexOf.
      rewrite indexOfFrom_middle by exact N1.
      unfold T, Js.len in *. rewrite length_firstn, length_app. lia. }
    assert (Eln : Js.len (layerOrder m') = (Js.len a + Js.len b + 1)%Z).
    { rewrite Eo. unfold T, Js.len in *. rewrite length_app.
      cbn [List.length]. rewrite length_firstn, length_skipn, length_app.
      lia. }
    unfold moveLayerDown. cbv zeta. rewrite Ei, Eln.
    destruct (_ <=? _)%Z eqn:D.
    + apply Z.leb_le in D. unfold Js.len in *. lia.
    + replace (Js.len a - 1 + 1)%Z with (Js.len a) by lia.
      exact B.
  - unfold moveLayerDown at 1 2.
    destruct (Js.len (layerOrder m) - 1
              <=? Js.indexOf String.eqb k (layerOrder m))%Z eqn:L;
      [discriminate|]. apply Z.leb_gt in L.
    unfold moveLayer at 1.
    destruct (Js.indexOf String.eqb k (layerOrder m) =? -1)%Z eqn:M;
      [discriminate|]. intros _. apply Z.eqb_neq in M.
    destruct (order_split m k C) as (a & b & E & N);
      [now apply indexOf_In|].
    assert (Na : ~ In k a) by (intro I; apply N, in_or_app; now left).
    assert (Ec : Js.indexOf String.eqb k (layerOrder m) = Js.len a).
    { unfold Js.indexOf. rewrite E, indexOfFrom_middle by exact Na. lia. }
    rewrite Ec in *.
    pose proof (moveLayer_back m k a b (Js.len a + 1) C E) as B.
    rewrite (moveLayer_there m k a b _ E N) in *. cbn [snd] in *.
    assert (Lb : (1 <= Js.len b)%Z).
    { rewrite E in L. unfold Js.len in *. rewrite length_app in L.
      cbn [List.length] in L. lia. }
    set (T := Z.to_nat (Z.max 0 (Z.min (Js.len a + 1) (Js.len (a ++ b)))))
      in *.
    assert (N1 : ~ In k (firstn T (a ++ b))).
    { intro I. apply N. rewrite <- (firstn_skipn T). apply in_or_app.
      now left. }
    set (m' := updateLayerIndices _) in *.
    assert (Eo : layerOrder m'
                 = firstn T (a ++ b) ++ k :: skipn T (a ++ b))
      by reflexivity.
    clearbody m'.
    assert (Ei : Js.indexOf String.eqb k (layerOrder m')
                 = (Js.len a + 1)%Z).
    { rewrite Eo. unfold Js.indexOf.
      rewrite indexOfFrom_middle by exact N1.
      unfold T, Js.len in *. rewrite length_firstn, length_app. lia. }
    unfold moveLayerUp. cbv zeta. rewrite Ei.
    destruct (_ <=? _)%Z eqn:D.
    + apply Z.leb_le in D. unfold Js.len in *. lia.
    + replace (Js.len a + 1 - 1)%Z with (Js.len a) by lia.
      exact B.
Qed.

Lemma moveLayerUp_Down_inverse_witness :
  moveLayerDown (snd (moveLayerUp twoLayers "layer_1")) "layer_1"
  = (true, twoLayers).
Proof.
  assert (C : consistent twoLayers).
  { apply execAll_consistent;
      [reflexivity|apply createDefaultLayer_consistent|].
    vm_compute. discriminate. }
  destruct (moveLayerUp_Down_inverse twoLayers "layer_1" C) as [U _].
  apply U. vm_compute. reflexivity.
Defined.
